(** * IFPS bytecode container: decoder, analyzer and variable cells

    A shallow embedding of [refinery/lib/ifps.py] and the properties of
    its specification that concern the variant decoder, the container
    header, the exported-declaration parser, the variable cell, and the
    basic-block / stack analysis of a function.

    Python integers are unbounded, so they are [Z]; [&], [|], [^], [>>],
    [<<] and [~] are [Z.land], [Z.lor], [Z.lxor], [Z.shiftr], [Z.shiftl]
    and [Z.lnot], which agree with Python on negative operands (infinite
    two's complement).  [bytes] are [list byte].  The dictionary of a
    variable cell, whose iteration order is never observed, is a
    [gmap]; the block dictionary of a function, which the code iterates,
    is an insertion-ordered association list; the key sets of
    [BasicBlock.sources] and [BasicBlock.targets], whose insertion order
    drives the depth-first stack propagation, are duplicate-free lists. *)

From Stdlib Require Import ZArith List Lia Bool.
From Stdlib Require Import Init.Byte Strings.Byte.
From stdpp Require Import base option gmap list strings.

Import ListNotations.
Local Open Scope Z_scope.
Set Warnings "-register-all".

(** ** Exceptions and the two effect monads *)

(** One constructor per raise site that the modelled code can reach.  The
    first group are the explicit [raise] statements of the source, named
    after the failure kinds of the specification; the second group are
    exceptions raised by the interpreter itself (an operator applied to
    operands of the wrong class, a failed subscript, a builtin). *)
Inductive error : Type :=
  | TruncatedHeader
      (* ValueError('Less than 28 bytes in file, ...'), IFPSFile.__init__ *)
  | BadMagic (magic : list byte)
      (* ValueError('Invalid magic sequence: ...'), IFPSFile.__init__ *)
  | UnsupportedVersion (version : Z)
      (* NotImplementedError(...), IFPSFile.__init__ *)
  | StackUnderflow (fn : string) (offset : Z) (slot : nat) (index depth : Z)
      (* IndexError(...), Function.get_basic_blocks *)
  | IndexOutOfRange
      (* IndexError, Variable._cast / Variable.set / Variable.get *)
  | TypeMismatch
      (* TypeError, Variable._cast / Variable.set / Variable.get *)
  | PyTypeError
  | PyValueError
  | PyIndexError
  | PyKeyError
  | PyAttributeError
  | PyOverflowError
  | PyEOFError
  | PyRecursionError
  | IllTyped
      (* not an exception of the source: the embedding stops here on a
         value whose class the annotations of the source exclude *).

(** The Python class of the exception object. *)
Inductive pyexc : Type :=
  | ValueError | NotImplementedError | IndexError | TypeError
  | KeyError | AttributeError | OverflowError | EOFError | RecursionError.

Definition exc_class (e : error) : pyexc :=
  match e with
  | TruncatedHeader | BadMagic _ | PyValueError => ValueError
  | UnsupportedVersion _ => NotImplementedError
  | StackUnderflow _ _ _ _ _ | IndexOutOfRange | PyIndexError => IndexError
  | TypeMismatch | PyTypeError => TypeError
  | PyKeyError => KeyError
  | PyAttributeError => AttributeError
  | PyOverflowError => OverflowError
  | PyEOFError => EOFError
  | PyRecursionError => RecursionError
  | IllTyped => TypeError
  end.

(** Pure fallible code: [inl e] is a raised exception. *)
Definition result (A : Type) : Type := (error + A)%type.

Definition Ok {A} (a : A) : result A := inr a.
Definition Err {A} (e : error) : result A := inl e.

#[global] Instance result_ret : MRet result := fun _ a => inr a.
#[global] Instance result_bind : MBind result :=
  fun _ _ f m => match m with inl e => inl e | inr a => f a end.
#[global] Instance result_fmap : FMap result :=
  fun _ _ f m => match m with inl e => inl e | inr a => inr (f a) end.

(** Code that mutates an object in place and may raise: the state that
    the object holds when the exception leaves the method is kept. *)
Definition M (S A : Type) : Type := S -> result A * S.

Definition ret {S A} (a : A) : M S A := fun s => (Ok a, s).
Definition raise {S A} (e : error) : M S A := fun s => (Err e, s).
Definition bind {S A B} (m : M S A) (k : A -> M S B) : M S B :=
  fun s => match m s with
           | (inl e, s') => (inl e, s')
           | (inr a, s') => k a s'
           end.
Definition get_state {S} : M S S := fun s => (Ok s, s).
Definition put_state {S} (s : S) : M S unit := fun _ => (Ok tt, s).
Definition lift {S A} (r : result A) : M S A := fun s => (r, s).

#[global] Instance M_ret {S} : MRet (M S) := fun _ a => ret a.
#[global] Instance M_bind {S} : MBind (M S) := fun _ _ k m => bind m k.

(** [for x in l: body x] *)
Fixpoint for_each {S A} (l : list A) (body : A -> M S unit) : M S unit :=
  match l with
  | [] => ret tt
  | x :: l' => bind (body x) (fun _ => for_each l' body)
  end.

(** ** Python builtins used by the module *)

(** [seq[i]] on a list or tuple: negative subscripts count from the end,
    anything outside [-len, len) raises [IndexError]. *)
Definition py_getitem {A} (l : list A) (i : Z) : result A :=
  let n := Z.of_nat (length l) in
  let j := if i <? 0 then i + n else i in
  if (j <? 0) || (n <=? j) then Err PyIndexError
  else match l !! Z.to_nat j with
       | Some a => Ok a
       | None => Err PyIndexError
       end.

(** [v in range(lo, hi)] for an [int] [v]. *)
Definition in_range (lo hi v : Z) : bool := (lo <=? v) && (v <? hi).

(** [chr(i)]: the code point itself; [ValueError] outside
    [range(0x110000)], [OverflowError] outside a C [int]. *)
Definition py_chr (i : Z) : result Z :=
  if in_range 0 0x110000 i then Ok i
  else if in_range (- 0x80000000) 0x80000000 i then Err PyValueError
  else Err PyOverflowError.

(** ** Type codes *)

Inductive TC : Type :=
  | ReturnAddress | U08 | S08 | U16 | S16 | U32 | S32 | Single | Double
  | Extended | String | Record | Array | Pointer | PChar | ResourcePointer
  | Variant_ | S64 | Char | WideString | WideChar | ProcPtr | StaticArray
  | Set_ | Currency | Class | Interface | NotificationVariant
  | UnicodeString | Enum | Type_ | ExtClass.

#[global] Instance TC_eq_dec : EqDecision TC.
Proof. solve_decision. Defined.

Definition TC_value (c : TC) : Z :=
  match c with
  | ReturnAddress => 0x00 | U08 => 0x01 | S08 => 0x02 | U16 => 0x03
  | S16 => 0x04 | U32 => 0x05 | S32 => 0x06 | Single => 0x07
  | Double => 0x08 | Extended => 0x09 | String => 0x0A | Record => 0x0B
  | Array => 0x0C | Pointer => 0x0D | PChar => 0x0E
  | ResourcePointer => 0x0F | Variant_ => 0x10 | S64 => 0x11
  | Char => 0x12 | WideString => 0x13 | WideChar => 0x14 | ProcPtr => 0x15
  | StaticArray => 0x16 | Set_ => 0x17 | Currency => 0x18 | Class => 0x19
  | Interface => 0x1A | NotificationVariant => 0x1B
  | UnicodeString => 0x1C | Enum => 0x81 | Type_ => 0x82 | ExtClass => 0x83
  end.

(** [TC.width] *)
Definition TC_width (c : TC) : Z :=
  match c with
  | Variant_ => 0x10
  | Char | S08 | U08 => 0x01
  | WideChar | S16 | U16 => 0x02
  | WideString | UnicodeString | Interface | Class | PChar | String
  | Single | S32 | U32 => 0x04
  | ProcPtr | Pointer => 0x0C
  | Currency | Double | S64 => 0x08
  | Extended => 0x0A
  | ReturnAddress => 0x1C
  | _ => 0
  end.

(** ** Variant references *)

Inductive VariantType : Type := Global | Local | Argument.

#[global] Instance VariantType_eq_dec : EqDecision VariantType.
Proof. solve_decision. Defined.

Record Variant : Type := mkVariant { v_index : Z; v_type : VariantType }.

(** [IFPSFile._read_variant]; [void] is the unit-wide [self.void] flag,
    which [_load_functions] sets from the declaration of the function
    whose body is being decoded. *)
Definition _read_variant (void : bool) (index : Z) : Variant :=
  if index <? 0x40000000 then mkVariant index Global
  else
    let index := index - 0x60000000 in
    if 0 <=? index then mkVariant index Local
    else
      let index := if void then - index else Z.lnot index in
      mkVariant index Argument.

(** ** Type descriptors *)

(** The subclasses of [IFPSType].  [_load_types] builds every subclass
    with the type code that names it, so the [code] field is kept only
    where one subclass serves several codes ([TPrimitive], [TClass]).
    The display metadata of [_OptionsMixin] ([symbol], [attributes]) is
    not read by any code modelled here and is not carried.  A UUID is
    its 128-bit integer. *)
Inductive IFPSType : Type :=
  | TPrimitive (code : TC)
  | TProcPtr (void : bool) (args : list DeclSpecParam)
  | TInterface (uuid : Z)
  | TClass (code : TC) (name : string)
  | TSet (size : Z)
  | TArray (type : IFPSType)
  | TStaticArray (type : IFPSType) (size : Z) (offset : option Z)
  | TRecord (members : list IFPSType)
with DeclSpecParam : Type :=
  | mkDeclSpecParam (input : bool) (type : option IFPSType).

Definition dsp_input (p : DeclSpecParam) : bool :=
  match p with mkDeclSpecParam i _ => i end.
Definition dsp_type (p : DeclSpecParam) : option IFPSType :=
  match p with mkDeclSpecParam _ t => t end.

Definition code (t : IFPSType) : TC :=
  match t with
  | TPrimitive c => c
  | TProcPtr _ _ => ProcPtr
  | TInterface _ => Interface
  | TClass c _ => c
  | TSet _ => Set_
  | TArray _ => Array
  | TStaticArray _ _ _ => StaticArray
  | TRecord _ => Record
  end.

(** [IFPSType.container] *)
Definition container (t : IFPSType) : bool :=
  match code t with
  | StaticArray | Array | Record => true
  | _ => false
  end.

(** The Python classes that [py_type] can return. *)
Inductive pyclass : Type :=
  | Cint | Cfloat | Cstr | CVariable | CIFPSType | CUUID.

(** The dictionary of [TPrimitive.py_type]. *)
Definition TPrimitive_py_type (c : TC) : option pyclass :=
  match c with
  | ReturnAddress | U08 | S08 | U16 | S16 | U32 | S32 | S64 | Enum =>
      Some Cint
  | Single | Double | Extended | Currency => Some Cfloat
  | String | PChar | Char | WideString | WideChar | UnicodeString =>
      Some Cstr
  | Pointer | ResourcePointer | Variant_ => Some CVariable
  | Type_ => Some CIFPSType
  | _ => None
  end.

(** [IFPSType.py_type(key)].  Every subclass but [TRecord] ignores the
    key; [TRecord.py_type] subscripts the member tuple with it, which
    raises [TypeError] without an integer key (a missing argument, or
    [None] as tuple index). *)
Fixpoint py_type (t : IFPSType) (key : option Z) : result (option pyclass) :=
  match t with
  | TPrimitive c => Ok (TPrimitive_py_type c)
  | TProcPtr _ _ => Ok None
  | TInterface _ => Ok (Some CUUID)
  | TClass _ _ => Ok None
  | TSet _ => Ok (Some Cint)
  | TArray e => py_type e None
  | TStaticArray e _ _ => py_type e None
  | TRecord members =>
      match key with
      | None => Err PyTypeError
      | Some k =>
          let n := Z.of_nat (length members) in
          let j := if k <? 0 then k + n else k in
          if (j <? 0) || (n <=? j) then Err PyIndexError
          else
            (fix member (ms : list IFPSType) (i : nat) {struct ms} :=
               match ms, i with
               | [], _ => Err PyIndexError
               | m :: _, O => py_type m None
               | _ :: ms', S i' => member ms' i'
               end) members (Z.to_nat j)
      end
  end.

(** ** Python values held by variable cells *)

(** A [str] is the list of its code points; a [float] is carried by its
    binary64 bit pattern (no float arithmetic is modelled); functions
    and variables, which Python holds by reference, are named by their
    position in the unit. *)
Inductive PyVal : Type :=
  | PNone
  | PBool (b : bool)
  | PInt (z : Z)
  | PFloat (bits : Z)
  | PStr (s : list Z)
  | PBytes (b : list byte)
  | PUUID (n : Z)
  | PType (t : IFPSType)
  | PFunction (index : nat)
  | PVariable (id : nat)
  | PValue (t : IFPSType) (v : PyVal)      (* the NamedTuple [Value] *)
  | PList (l : list PyVal).

(** [isinstance(v, cls)]; [bool] is a subclass of [int]. *)
Definition isinstance (v : PyVal) (cls : pyclass) : bool :=
  match cls, v with
  | Cint, PInt _ | Cint, PBool _ => true
  | Cfloat, PFloat _ => true
  | Cstr, PStr _ => true
  | CVariable, PVariable _ => true
  | CIFPSType, PType _ => true
  | CUUID, PUUID _ => true
  | _, _ => false
  end.

(** The integer a Python [int] or [bool] object stands for. *)
Definition as_int (v : PyVal) : option Z :=
  match v with
  | PInt z => Some z
  | PBool b => Some (Z.b2z b)
  | _ => None
  end.

(** [IFPSType.default(key)].  [TPrimitive.default] calls
    [issubclass(tc, (int, float, str))], which raises [TypeError] when
    [py_type()] is [None]. *)
Fixpoint default (t : IFPSType) (key : option Z) : result PyVal :=
  match t with
  | TPrimitive c =>
      match TPrimitive_py_type c with
      | None => Err PyTypeError
      | Some Cint => Ok (PInt 0)
      | Some Cfloat => Ok (PFloat 0)
      | Some Cstr => Ok (PStr [])
      | Some _ => Ok PNone
      end
  | TProcPtr _ _ => Ok PNone
  | TInterface _ => Ok (PUUID 0)
  | TClass _ _ => Ok PNone
  | TSet _ => Ok (PInt 0)
  | TArray e => default e None
  | TStaticArray e _ _ => default e None
  | TRecord members =>
      match key with
      | None => Err PyTypeError
      | Some k =>
          let n := Z.of_nat (length members) in
          let j := if k <? 0 then k + n else k in
          if (j <? 0) || (n <=? j) then Err PyIndexError
          else
            (fix member (ms : list IFPSType) (i : nat) {struct ms} :=
               match ms, i with
               | [], _ => Err PyIndexError
               | m :: _, O => default m None
               | _ :: ms', S i' => member ms' i'
               end) members (Z.to_nat j)
      end
  end.

(** ** Variable cells *)

(** [Variable.data] starts as a dictionary; the set branch of
    [Variable.set] rebinds it to the assigned bitmask object. *)
Inductive pydata : Type :=
  | DDict (d : gmap (option Z) PyVal)
  | DObj (v : PyVal).

(** [Variable._keyrange]: [range(n)] or the set [{None}]. *)
Inductive keyrange : Type :=
  | KRange (n : Z)
  | KNone.

(** [key in self._keyrange] *)
Definition key_in (key : option Z) (r : keyrange) : bool :=
  match r, key with
  | KRange n, Some k => in_range 0 n k
  | KNone, None => true
  | _, _ => false
  end.

(** The fields of a [Variable] ([Variable] is a reserved word here).  When the type is not a fixed-width
    integer, [_int_mask], [_int_bits] and [_int_good] are the sentinels
    [NoMask], [INF] and [AST] of [refinery.lib.types]; they are [None]
    here and never consulted, because [_int_size] is then 0. *)
Record Variable_ : Type := mkVariable {
  type : IFPSType;
  spec : Variant + string;
  data : pydata;
  _keyrange : keyrange;
  _int_size : Z;
  _int_bits : option Z;
  _int_mask : option Z;
  _int_good : option (Z * Z);
}.

Definition with_data (d : pydata) (v : Variable_) : Variable_ :=
  mkVariable (type v) (spec v) d (_keyrange v)
             (_int_size v) (_int_bits v) (_int_mask v) (_int_good v).

(** The signedness dictionary of [Variable.__init__]. *)
Definition int_sign (c : TC) : Z :=
  match c with
  | U08 | U16 | U32 => 1
  | S08 | S16 | S32 | S64 => -1
  | _ => 0
  end.

(** [Variable.__init__] *)
Definition Variable_init (ty : IFPSType) (sp : Variant + string)
  : result Variable_ :=
  d0 ← (if container ty then Ok (∅ : gmap (option Z) PyVal)
        else
          dflt ← default ty None;
          match dflt with
          | PNone => Ok ∅
          | _ => Ok {[ None := dflt ]}
          end);
  let kr :=
    match ty with
    | TRecord members => KRange (Z.of_nat (length members))
    | TArray _ => KRange 0x100000000
    | TStaticArray _ size _ => KRange size
    | _ => KNone
    end in
  let _size := int_sign (code ty) * TC_width (code ty) in
  if _size =? 0 then
    Ok (mkVariable ty sp (DDict d0) kr _size None None None)
  else
    let bits := Z.abs _size * 8 in
    let umax := Z.shiftl 1 bits in
    let good :=
      if _size <? 0 then (- Z.shiftr umax 1, Z.shiftr umax 1)
      else (0, umax) in
    Ok (mkVariable ty sp (DDict d0) kr _size
                   (Some bits) (Some (umax - 1)) (Some good)).

(** [Variable._wrap].  The source reads
    [if s := self._int_size and value not in self._int_good:], and the
    assignment expression binds the whole conjunction: [s] is
    [self._int_size] when that is 0, and otherwise the truth value of
    [value not in self._int_good]. *)
Definition _wrap (self : Variable_) (value : PyVal) : result PyVal :=
  if _int_size self =? 0 then Ok value
  else
    match _int_good self, _int_mask self, _int_bits self with
    | Some (lo, hi), Some mask, Some bits =>
        match as_int value with
        | None =>
            (* not a member of the range, then [value &= mask] *)
            Err PyTypeError
        | Some z =>
            let s := Z.b2z (negb (in_range lo hi z)) in
            if s =? 0 then Ok value
            else
              let z := Z.land z mask in
              let z :=
                if (s <? 0) && negb (Z.shiftr z (bits - 1) =? 0)
                then - (Z.land (- z) mask)
                else z in
              Ok (PInt z)
        end
    | _, _, _ => Ok value
    end.

(** [Variable._cast(key, value)]; an absent [value] is [PNone]. *)
Definition _cast (self : Variable_) (key : option Z) (value : PyVal)
  : result PyVal :=
  if negb (key_in key (_keyrange self)) then Err IndexOutOfRange
  else
    match value with
    | PNone => Ok PNone
    | _ =>
        let value := match value with PValue _ v => v | _ => value end in
        t ← py_type (type self) key;
        match t with
        | Some t =>
            if isinstance value t then Ok value
            else
              match t, value with
              | Cint, PStr [c] => Ok (PInt c)
              | Cstr, (PInt _ | PBool _) =>
                  match as_int value with
                  | Some z => c ← py_chr z; Ok (PStr [c])
                  | None => Err TypeMismatch
                  end
              | _, _ => Err TypeMismatch
              end
        | None => Ok value
        end
    end.

(** [iter(value)]: lists, strings (one-character strings), bytes
    (integers) and [Value] tuples are iterable. *)
Definition py_iter (v : PyVal) : result (list PyVal) :=
  match v with
  | PList l => Ok l
  | PStr s => Ok (map (fun c => PStr [c]) s)
  | PBytes b => Ok (map (fun x => PInt (Z.of_N (Byte.to_N x))) b)
  | PValue t v => Ok [PType t; v]
  | _ => Err PyTypeError
  end.

(** [enumerate(l)] *)
Definition enumerate {A} (l : list A) : list (Z * A) :=
  imap (fun k x => (Z.of_nat k, x)) l.

(** [self.type.size], an attribute of [TSet] and [TStaticArray] only. *)
Definition type_size (t : IFPSType) : result Z :=
  match t with
  | TSet n => Ok n
  | TStaticArray _ n _ => Ok n
  | _ => Err PyAttributeError
  end.

(** [Variable.set] below its first [if]: the set branch and the final
    [self.data[key] = value = self._wrap(self._cast(key, value))]. *)
Definition Variable_set_item (value : PyVal) (key : option Z)
  : M Variable_ unit :=
  fun self =>
    if decide (code (type self) = Set_) then
      match key with
      | None =>
          let value := match value with PValue _ v => v | _ => value end in
          if isinstance value Cint then (Ok tt, with_data (DObj value) self)
          else (Err TypeMismatch, self)
      | Some k =>
          match value with
          | PBool b =>
              match type_size (type self) with
              | inl e => (Err e, self)
              | inr size =>
                  if negb (in_range 0 size k) then (Err IndexOutOfRange, self)
                  else
                    match data self with
                    | DObj v =>
                        match as_int v with
                        | Some z =>
                            if b then
                              (* self.data |= 1 << key *)
                              (Ok tt, with_data
                                 (DObj (PInt (Z.lor z (Z.shiftl 1 k)))) self)
                            else if Z.land (Z.shiftr z k) 1 =? 0 then
                              (Ok tt, self)
                            else
                              (* self.data ^= 1 << key *)
                              (Ok tt, with_data
                                 (DObj (PInt (Z.lxor z (Z.shiftl 1 k)))) self)
                        | None => (Err PyTypeError, self)
                        end
                    | DDict _ =>
                        (* dict |= int, dict >> int *)
                        (Err PyTypeError, self)
                    end
              end
          | _ => (Err TypeMismatch, self)
          end
      end
    else
      match _cast self key value with
      | inl e => (Err e, self)
      | inr c =>
          match _wrap self c with
          | inl e => (Err e, self)
          | inr w =>
              match data self with
              | DDict d => (Ok tt, with_data (DDict (<[ key := w ]> d)) self)
              | DObj _ => (Err PyTypeError, self)
              end
          end
      end.

(** [Variable.set] *)
Definition Variable_set (value : PyVal) (key : option Z)
  : M Variable_ unit :=
  fun self =>
    match key with
    | None =>
        if container (type self) then
          (* set the entire container *)
          (items ← lift (py_iter value);
           for_each (enumerate items)
                    (fun ke => Variable_set_item (snd ke) (Some (fst ke)))) self
        else Variable_set_item value None self
    | Some _ => Variable_set_item value key self
    end.

(** [max(d)] over the keys of a dictionary: [ValueError] when empty; a
    [None] key makes either the comparison or the later [range(size)]
    raise [TypeError]. *)
Definition dict_max (d : gmap (option Z) PyVal) : result Z :=
  match (map_to_list d).*1 with
  | [] => Err PyValueError
  | k0 :: ks =>
      foldl (fun acc k =>
               a ← acc;
               match k with
               | None => Err PyTypeError
               | Some z => Ok (Z.max a z)
               end)
            (match k0 with Some z => Ok z | None => Err PyTypeError end)
            ks
  end.

(** [[f(k) for k in ks]] with a fallible [f]. *)
Fixpoint result_map {A B} (f : A -> result B) (l : list A) : result (list B) :=
  match l with
  | [] => Ok []
  | x :: l' => y ← f x; ys ← result_map f l'; Ok (y :: ys)
  end.

(** [Variable.get] *)
Definition Variable_get (self : Variable_) (key : option Z) : result pydata :=
  if bool_decide (key = None) && container (type self) then
    (* get the entire container *)
    match data self with
    | DDict d =>
        size ← dict_max d;
        l ← result_map
              (fun k =>
                 dflt ← default (type self) (Some k);
                 Ok (match d !! Some k with Some v => v | None => dflt end))
              (seqZ 0 size);
        Ok (DObj (PList l))
    | DObj _ => Err PyTypeError
    end
  else if decide (code (type self) = Set_) then
    match key with
    | None => Ok (data self)
    | Some k =>
        size ← type_size (type self);
        if negb (in_range 0 size k) then Err IndexOutOfRange
        else
          match data self with
          | DObj v =>
              match as_int v with
              | Some z => Ok (DObj (PBool (negb (Z.land (Z.shiftr z k) 1 =? 0))))
              | None => Err PyTypeError
              end
          | DDict _ => Err PyTypeError
          end
    end
  else
    _ ← _cast self key PNone;
    match data self with
    | DDict d =>
        match d !! key with
        | Some v => Ok (DObj v)
        | None => Err PyKeyError
        end
    | DObj _ => Err PyTypeError
    end.

(** ** Exported declarations: [DeclSpec.ParseE] *)

(** [int(b)] for a [bytes] object in base 10, as CPython parses it:
    optional ASCII white space, an optional sign, decimal digits that
    may be separated by single underscores, optional white space. *)
Definition is_space (b : byte) : bool :=
  match b with
  | x09 | x0a | x0b | x0c | x0d | x20 => true
  | _ => false
  end.

Definition digit_val (b : byte) : option Z :=
  match b with
  | x30 => Some 0 | x31 => Some 1 | x32 => Some 2 | x33 => Some 3
  | x34 => Some 4 | x35 => Some 5 | x36 => Some 6 | x37 => Some 7
  | x38 => Some 8 | x39 => Some 9
  | _ => None
  end.

Fixpoint skip_space (l : list byte) : list byte :=
  match l with
  | b :: l' => if is_space b then skip_space l' else l
  | [] => []
  end.

(** What the digit scanner saw last. *)
Inductive scanned : Type := SNothing | SDigit | SUnderscore.

(** Scans [digit ('_'? digit)*]; returns the value, the number of digits
    and the unread rest.  An underscore that does not follow a digit, or
    that ends the numeral, is an error. *)
Fixpoint scan_digits (l : list byte) (prev : scanned) (acc : Z) (digits : nat)
  : option (Z * nat * list byte) :=
  let finish :=
    match prev with
    | SUnderscore => None
    | _ => Some (acc, digits, l)
    end in
  match l with
  | [] => finish
  | b :: l' =>
      match digit_val b with
      | Some d => scan_digits l' SDigit (10 * acc + d) (S digits)
      | None =>
          match b with
          | x5f =>
              match prev with
              | SDigit => scan_digits l' SUnderscore acc digits
              | _ => None
              end
          | _ => finish
          end
      end
  end.

(** [sys.get_int_max_str_digits()], CPython's default. *)
Definition int_max_str_digits : nat := 4300.

(** [int(b)]; [None] is [ValueError]. *)
Definition py_int (b : list byte) : option Z :=
  let l := skip_space b in
  let '(sign, l) :=
    match l with
    | x2d :: l' => (-1, l')
    | x2b :: l' => (1, l')
    | _ => (1, l)
    end in
  match scan_digits l SNothing 0 0 with
  | Some (v, digits, rest) =>
      match digits, skip_space rest with
      | O, _ => None
      | _, [] =>
          if (int_max_str_digits <? digits)%nat then None else Some (sign * v)
      | _, _ :: _ => None
      end
  | None => None
  end.

(** [data.split(b' ')]: every single space separates; the result is
    never empty. *)
Fixpoint split_space (data : list byte) : list (list byte) :=
  match data with
  | [] => [[]]
  | b :: data' =>
      match b with
      | x20 => [] :: split_space data'
      | _ =>
          match split_space data' with
          | tok :: toks => (b :: tok) :: toks
          | [] => [[b]]
          end
      end
  end.

(** The dataclass [DeclSpec]. *)
Record DeclSpec : Type := mkDeclSpec {
  ds_void : bool;
  ds_parameters : list DeclSpecParam;
  ds_name : string;
  ds_calling_convention : option string;
  ds_return_type : option IFPSType;
  ds_module : option string;
  ds_classname : option string;
  ds_delay_load : bool;
  ds_vtable_index : option Z;
  ds_load_with_altered_search_path : bool;
  ds_is_property : bool;
}.

(** [param[:1] == b'@'] *)
Definition starts_with_at (param : list byte) : bool :=
  match param with
  | x40 :: _ => true
  | _ => false
  end.

(** The body of the [for param in decl] loop of [ParseE]: the [try]
    guards only the [int(...)] call, the subscript of the type table is
    in the [else] clause and its [IndexError] leaves the parser. *)
Definition ParseE_param (types : list IFPSType) (param : list byte)
  : result DeclSpecParam :=
  tv ← match py_int (drop 1 param) with
       | None => Ok None
       | Some i => t ← py_getitem types i; Ok (Some t)
       end;
  Ok (mkDeclSpecParam (starts_with_at param) tv).

(** [DeclSpec.ParseE(data, ipfs)], reading [ipfs.types]. *)
Definition ParseE (data : list byte) (types : list IFPSType)
  : result DeclSpec :=
  match split_space data with
  | [] => Err PyIndexError          (* decl.pop(0) on an empty list *)
  | first :: decl =>
      let '(void, return_type) :=
        match py_int first with
        | None => (true, 0)
        | Some r => (r <? 0, r)
        end in
      return_type ← (if negb void
                     then t ← py_getitem types return_type; Ok (Some t)
                     else Ok None);
      parameters ← result_map (ParseE_param types) decl;
      Ok (mkDeclSpec void parameters "" None return_type
                     None None false None false false)
  end.

(** A plain decimal numeral, as the specification describes the rest of
    a parameter token: one or more decimal digits (at most as many as
    the interpreter converts), and the number it denotes. *)
Definition is_digit (b : byte) : bool :=
  match digit_val b with Some _ => true | None => false end.

Definition is_decimal (l : list byte) : bool :=
  forallb is_digit l && (0 <? length l)%nat
  && (length l <=? int_max_str_digits)%nat.

Definition decimal_value (l : list byte) : Z :=
  fold_left (fun acc b => 10 * acc + from_option id 0 (digit_val b)) l 0.

(** ** Instructions *)

Inductive Op : Type :=
  | Assign | Calculate | Push | PushVar | Pop | Call | Jump | JumpTrue
  | JumpFalse | Ret | StackType | PushType | Compare | CallVar | SetPtr
  | BooleanNot | Neg | SetFlag | JumpFlag | PushEH | PopEH | IntegerNot
  | SetCopyPtr | Inc | Dec | JumpPop1 | JumpPop2 | Nop | _INVALID.

#[global] Instance Op_eq_dec : EqDecision Op.
Proof. solve_decision. Defined.

Inductive AOp : Type :=
  | Add | Sub | Mul | Div | Mod | Shl | Shr | And | BOr | Xor.

Inductive COp : Type := GE | LE | GT | LT | NE | EQ | IN | IS.

Inductive OperandType : Type :=
  | OT_Variant | OT_Value | OT_IndexedByInt | OT_IndexedByVar.

(** The NamedTuple [Value]. *)
Record Value : Type := mkValue { val_type : IFPSType; val_value : PyVal }.

(** The NamedTuple [Attribute]. *)
Record Attribute : Type :=
  mkAttribute { attr_name : string; attr_fields : list Value }.

(** The NamedTuple [Operand]; [index] is an integer for [IndexedByInt]
    and a variant for [IndexedByVar]. *)
Record Operand : Type := mkOperand {
  op_type : OperandType;
  op_variant : option Variant;
  op_value : option Value;
  op_index : option (Variant + Z);
}.

(** What a slot of [Instruction.operands] can hold: an [Operand], a jump
    target or raw index, the flag of [SetFlag], an absent handler offset
    of [PushEH], the bare variant of [StackType], the type of
    [PushType], and (after the second pass) the callee of [Call], named
    by its position in the function table. *)
Inductive arg : Type :=
  | AOperand (o : Operand)
  | AInt (z : Z)
  | ABool (b : bool)
  | ANone
  | AVariant (v : Variant)
  | AType (t : IFPSType)
  | AFunction (index : nat).

(** The dataclass [Instruction]. *)
Record Instruction : Type := mkInstruction {
  insn_offset : Z;
  insn_opcode : Op;
  insn_size : Z;
  insn_stack : option Z;
  insn_operands : list arg;
  insn_operator : option (AOp + COp);
  insn_jumptarget : bool;
}.

Definition with_stack (s : option Z) (i : Instruction) : Instruction :=
  mkInstruction (insn_offset i) (insn_opcode i) (insn_size i) s
                (insn_operands i) (insn_operator i) (insn_jumptarget i).

(** [Instruction.branches] *)
Definition branches (i : Instruction) : bool :=
  match insn_opcode i with
  | Jump | JumpFalse | JumpTrue | JumpFlag | JumpPop1 | JumpPop2 => true
  | _ => false
  end.

(** [Instruction.jumps] *)
Definition jumps (i : Instruction) : bool :=
  match insn_opcode i with
  | Jump | JumpPop1 | JumpPop2 => true
  | _ => false
  end.

(** [_Op_StackD.get(opcode, 0)] *)
Definition stack_delta (i : Instruction) : Z :=
  match insn_opcode i with
  | Push | PushVar | PushType => 1
  | Pop | JumpPop1 => -1
  | JumpPop2 => -2
  | _ => 0
  end.

(** ** Basic blocks *)

(** The dataclass [BasicBlock].  Blocks and instructions are shared
    mutable objects: a block is named by its offset (the key under which
    the function's block dictionary holds it), and its [body] lists the
    positions, in the function body, of the instruction objects it
    holds.  [sources] and [targets] are the key lists of the two
    dictionaries, in insertion order; the value stored under a key is
    the block of that offset. *)
Record BasicBlock : Type := mkBasicBlock {
  bb_offset : Z;
  bb_stack : option Z;
  bb_body : list nat;
  bb_sources : list Z;
  bb_targets : list Z;
}.

(** [BasicBlock(offset)] *)
Definition BasicBlock_new (offset : Z) : BasicBlock :=
  mkBasicBlock offset None [] [] [].

(** An insertion-ordered dictionary with integer keys. *)
Definition odict (A : Type) : Type := list (Z * A).

Fixpoint od_get {A} (d : odict A) (k : Z) : option A :=
  match d with
  | [] => None
  | (k', a) :: d' => if k' =? k then Some a else od_get d' k
  end.

(** [d[k] = a]: an existing key keeps its place. *)
Fixpoint od_set {A} (d : odict A) (k : Z) (a : A) : odict A :=
  match d with
  | [] => [(k, a)]
  | (k', a') :: d' =>
      if k' =? k then (k', a) :: d' else (k', a') :: od_set d' k a
  end.

(** [del d[k]] / [d.pop(k, None)] *)
Definition od_del {A} (d : odict A) (k : Z) : odict A :=
  List.filter (fun ka => negb (fst ka =? k)) d.

(** In-place mutation of the block stored under [k], if any. *)
Definition od_update {A} (d : odict A) (k : Z) (f : A -> A) : odict A :=
  map (fun ka => if fst ka =? k then (fst ka, f (snd ka)) else ka) d.

(** The same two operations on a bare key list. *)
Definition keys_add (k : Z) (ks : list Z) : list Z :=
  if existsb (Z.eqb k) ks then ks else ks ++ [k].

Definition keys_pop (k : Z) (ks : list Z) : list Z :=
  List.filter (fun k' => negb (k' =? k)) ks.

Definition add_source (src : Z) (b : BasicBlock) : BasicBlock :=
  mkBasicBlock (bb_offset b) (bb_stack b) (bb_body b)
               (keys_add src (bb_sources b)) (bb_targets b).

Definition add_target (t : Z) (b : BasicBlock) : BasicBlock :=
  mkBasicBlock (bb_offset b) (bb_stack b) (bb_body b)
               (bb_sources b) (keys_add t (bb_targets b)).

Definition pop_target (t : Z) (b : BasicBlock) : BasicBlock :=
  mkBasicBlock (bb_offset b) (bb_stack b) (bb_body b)
               (bb_sources b) (keys_pop t (bb_targets b)).

Definition append_insn (pos : nat) (b : BasicBlock) : BasicBlock :=
  mkBasicBlock (bb_offset b) (bb_stack b) (bb_body b ++ [pos])
               (bb_sources b) (bb_targets b).

Definition set_bb_stack (s : option Z) (b : BasicBlock) : BasicBlock :=
  mkBasicBlock (bb_offset b) s (bb_body b) (bb_sources b) (bb_targets b).

(** ** Functions and their analysis *)

(** A field of a [Function] object that the code fills with objects of
    several classes. *)
Inductive pyobj : Type :=
  | ONone
  | OBool (b : bool)
  | OAttrs (l : list Attribute)
  | OBlocks (bbs : odict BasicBlock).

(** The dataclass [Function]; its fields, in declaration order, are
    [name], [decl], [body], [attributes], [_bbs]. *)
Record Function : Type := mkFunction {
  fn_name : string;
  fn_decl : option DeclSpec;
  fn_body : option (list Instruction);
  fn_attributes : pyobj;
  fn__bbs : pyobj;
}.

(** The generated [Function.__init__], arguments by position. *)
Definition Function_init (name : string) (decl : option DeclSpec)
    (body : option (list Instruction)) (a4 a5 : pyobj) : Function :=
  mkFunction name decl body a4 a5.

(** The last statement of the loop of [IFPSFile._load_functions],
    [self.functions.append(Function(name, decl, body, exported,
    attributes))], on the locals decoded from one function record;
    [attributes] is [None] unless the record has the [HasAttrs] tag. *)
Definition _load_functions_new (name : string) (decl : option DeclSpec)
    (body : option (list Instruction)) (exported : bool)
    (attributes : option (list Attribute)) : Function :=
  Function_init name decl body (OBool exported)
                (match attributes with
                 | None => ONone
                 | Some l => OAttrs l
                 end).

(** The locals [bbs] and [bb] of the first loop of [get_basic_blocks];
    the current block is named by its offset. *)
Record build_state : Type := mkBuild {
  bs_bbs : odict BasicBlock;
  bs_bb : Z;
}.

(** [for t in targets:] of the first loop. *)
Definition link_targets (bb : Z) (targets : list Z) (bbs : odict BasicBlock)
  : odict BasicBlock :=
  fold_left
    (fun bbs t =>
       let bbs := match od_get bbs t with
                  | Some _ => bbs
                  | None => od_set bbs t (BasicBlock_new t)
                  end in
       let bbs := od_update bbs bb (add_target t) in
       od_update bbs t (add_source bb))
    targets bbs.

(** One iteration of [for insn in self.body:] (first loop); [pos] is the
    position of [insn] in the body. *)
Definition build_insn (pos : nat) (insn : Instruction) : M build_state unit :=
  fun st =>
    let bbs := bs_bbs st in
    let '(bbs, bb) :=
      match od_get bbs (insn_offset insn) with
      | Some _ => (bbs, insn_offset insn)
      | None =>
          if insn_jumptarget insn then
            let nb := insn_offset insn in
            let bbs := od_set bbs nb (BasicBlock_new nb) in
            let bbs := od_update bbs nb (add_source (bs_bb st)) in
            let bbs := od_update bbs (bs_bb st) (add_target nb) in
            (bbs, nb)
          else (bbs, bs_bb st)
      end in
    let bbs := od_update bbs bb (append_insn pos) in
    if negb (branches insn) then (Ok tt, mkBuild bbs bb)
    else
      match insn_operands insn with
      | [] => (Err PyIndexError, mkBuild bbs bb)
      | AInt t :: _ =>
          let sequence := insn_offset insn + insn_size insn in
          let targets :=
            if negb (jumps insn) && negb (bool_decide (insn_opcode insn = Ret))
            then [t; sequence] else [t] in
          (Ok tt, mkBuild (link_targets bb targets bbs) bb)
      | _ :: _ => (Err IllTyped, mkBuild bbs bb)
      end.

Definition build_blocks (body : list Instruction) : M build_state unit :=
  for_each (imap (fun pos insn => (pos, insn)) body)
           (fun pi => build_insn (fst pi) (snd pi)).

(** The second loop: every block whose body stayed empty is deleted and
    popped from the targets of its sources.  The loop runs over the
    snapshot [list(bbs.items())]; bodies and sources do not change while
    it runs. *)
Definition prune_blocks (bbs : odict BasicBlock) : odict BasicBlock :=
  fold_left
    (fun acc ob =>
       match bb_body (snd ob) with
       | _ :: _ => acc
       | [] =>
           fold_left (fun acc source => od_update acc source (pop_target (fst ob)))
                     (bb_sources (snd ob))
                     (od_del acc (fst ob))
       end)
    bbs bbs.

(** What [trace_stack] closes over and mutates. *)
Record trace_state : Type := mkTrace {
  ts_visited : gset Z;
  ts_errored : gset Z;
  ts_bbs : odict BasicBlock;
  ts_body : list Instruction;
}.

(** [for insn in body: insn.stack = stack; stack += insn.stack_delta] *)
Definition annotate (positions : list nat) (stack : Z) (body : list Instruction)
  : Z * list Instruction :=
  fold_left
    (fun sb pos =>
       match snd sb !! pos with
       | Some insn =>
           (fst sb + stack_delta insn,
            <[ pos := with_stack (Some (fst sb)) insn ]> (snd sb))
       | None => sb
       end)
    positions (stack, body).

(** The nested function [trace_stack].  [depth] is the number of Python
    frames still available: the recursion is not bounded by the code,
    and the interpreter raises [RecursionError] when they run out. *)
Fixpoint trace_stack (depth : nat) (offset : Z) (stack : option Z)
  : M trace_state unit :=
  match depth with
  | O => raise PyRecursionError
  | S depth' =>
      fun st =>
        if bool_decide (offset ∈ ts_errored st) then (Ok tt, st)
        else
          match od_get (ts_bbs st) offset with
          | None => (Err PyKeyError, st)
          | Some bb =>
              let stack :=
                match bb_stack bb, stack with
                | Some s0, Some s => if s =? s0 then stack else None
                | _, _ => stack
                end in
              let go (st : trace_state) :=
                let bbs := od_update (ts_bbs st) offset (set_bb_stack stack) in
                let '(stack, body) :=
                  match stack with
                  | None => (None, ts_body st)
                  | Some s =>
                      let '(s', body) := annotate (bb_body bb) s (ts_body st) in
                      (Some s', body)
                  end in
                for_each (bb_targets bb)
                         (fun t => trace_stack depth' t stack)
                         (mkTrace (ts_visited st) (ts_errored st) bbs body) in
              match stack with
              | None =>
                  go (mkTrace (ts_visited st) ({[ offset ]} ∪ ts_errored st)
                              (ts_bbs st) (ts_body st))
              | Some _ =>
                  if bool_decide (offset ∈ ts_visited st) then (Ok tt, st)
                  else
                    go (mkTrace ({[ offset ]} ∪ ts_visited st) (ts_errored st)
                                (ts_bbs st) (ts_body st))
              end
          end
  end.

(** The test applied to one slot of [insn.operands] by the last loop:
    only [Operand] objects are inspected, and of those only the
    [variant] field. *)
Definition check_operand (name : string) (offset stack : Z) (k : nat) (a : arg)
  : result unit :=
  match a with
  | AOperand op =>
      match op_variant op with
      | Some v =>
          if negb (bool_decide (v_type v = Local)) then Ok tt
          else if v_index v <=? stack then Ok tt
          else Err (StackUnderflow name offset k (v_index v) stack)
      | None => Ok tt
      end
  | _ => Ok tt
  end.

Fixpoint check_operands (name : string) (offset stack : Z) (k : nat)
    (ops : list arg) : result unit :=
  match ops with
  | [] => Ok tt
  | a :: ops' =>
      _ ← check_operand name offset stack k a;
      check_operands name offset stack (S k) ops'
  end.

(** The last loop of [get_basic_blocks]. *)
Fixpoint validate_stack (name : string) (body : list Instruction) : result unit :=
  match body with
  | [] => Ok tt
  | insn :: body' =>
      _ ← match insn_stack insn with
          | None => Ok tt
          | Some stack =>
              check_operands name (insn_offset insn) stack 0 (insn_operands insn)
          end;
      validate_stack name body'
  end.

Definition with_analysis (bbs : odict BasicBlock) (body : list Instruction)
    (f : Function) : Function :=
  mkFunction (fn_name f) (fn_decl f) (Some body) (fn_attributes f) (OBlocks bbs).

(** [Function.get_basic_blocks].  [self._bbs] is bound to the dictionary
    before the analysis, so whatever the analysis has built is what the
    object holds when an exception leaves the method. *)
Definition get_basic_blocks (recursion_limit : nat) : M Function pyobj :=
  fun self =>
    match fn__bbs self with
    | ONone =>
        match fn_body self with
        | None =>
            (Ok (OBlocks []),
             mkFunction (fn_name self) (fn_decl self) None
                        (fn_attributes self) (OBlocks []))
        | Some body =>
            match build_blocks body (mkBuild [(0, BasicBlock_new 0)] 0) with
            | (inl e, st) => (Err e, with_analysis (bs_bbs st) body self)
            | (inr _, st) =>
                let bbs := prune_blocks (bs_bbs st) in
                match trace_stack recursion_limit 0 (Some 0)
                                  (mkTrace ∅ ∅ bbs body) with
                | (inl e, ts) =>
                    (Err e, with_analysis (ts_bbs ts) (ts_body ts) self)
                | (inr _, ts) =>
                    match validate_stack (fn_name self) (ts_body ts) with
                    | inl e =>
                        (Err e, with_analysis (ts_bbs ts) (ts_body ts) self)
                    | inr _ =>
                        (Ok (OBlocks (ts_bbs ts)),
                         with_analysis (ts_bbs ts) (ts_body ts) self)
                    end
                end
            end
        end
    | bbs => (Ok bbs, self)
    end.

(** ** The container header: [IFPSFile.__init__] *)

(** Modelled from the spec: the byte reader [StructReader] of
    [refinery.lib.structures], which [ifps.py] imports and which the
    specification describes as a consumed contract (section 4.A): a
    cursor over a byte range with [remaining_bytes], a raw slice of N
    bytes, and little-endian unsigned integers.  A read past the end
    raises [EOFError]. *)
Record StructReader : Type := mkReader {
  rd_buf : list byte;
  rd_cursor : nat;
}.

Definition remaining (r : StructReader) : list byte :=
  drop (rd_cursor r) (rd_buf r).

Definition remaining_bytes (r : StructReader) : Z :=
  Z.of_nat (length (remaining r)).

Definition advance (n : nat) (r : StructReader) : StructReader :=
  mkReader (rd_buf r) (rd_cursor r + n).

Definition reader_read (n : nat) : M StructReader (list byte) :=
  fun r =>
    if (length (remaining r) <? n)%nat then (Err PyEOFError, r)
    else (Ok (take n (remaining r)), advance n r).

(** Little-endian value of a byte string. *)
Fixpoint le_value (bs : list byte) : Z :=
  match bs with
  | [] => 0
  | b :: bs' => Z.of_N (Byte.to_N b) + 256 * le_value bs'
  end.

Definition reader_u32 : M StructReader Z :=
  bs ← reader_read 4; mret (le_value bs).

(** [IFPSFile.Magic], [MinVer], [MaxVer] *)
Definition Magic : list byte := [x49; x46; x50; x53].
Definition MinVer : Z := 12.
Definition MaxVer : Z := 23.

#[global] Instance byte_eq_decision : EqDecision byte := Byte.byte_eq_dec.

(** [a == b] on byte strings. *)
Definition bytes_eqb (a b : list byte) : bool := bool_decide (a = b).

(** The attributes of an [IFPSFile] object. *)
Record IFPSFile : Type := mkIFPSFile {
  codec : string;
  types : list IFPSType;
  functions : list Function;
  variables : list Variable_;
  strings : list (list Z);
  version : Z;
  count_types : Z;
  count_functions : Z;
  count_variables : Z;
  entry : Z;
  import_size : Z;
  void : bool;
}.

(** [IFPSFile.__init__] up to and including the version test: the
    attributes set so far, or the exception raised. *)
Definition read_header (codec : string) : M StructReader IFPSFile :=
  fun reader =>
    if remaining_bytes reader <? 28 then (Err TruncatedHeader, reader)
    else
      (magic ← reader_read 4;
       if negb (bytes_eqb magic Magic) then raise (BadMagic magic)
       else
         version ← reader_u32;
         count_types ← reader_u32;
         count_functions ← reader_u32;
         count_variables ← reader_u32;
         entry ← reader_u32;
         import_size ← reader_u32;
         if negb (in_range MinVer (MaxVer + 1) version)
         then raise (UnsupportedVersion version)
         else
           mret (mkIFPSFile codec [] [] [] [] version count_types
                            count_functions count_variables entry
                            import_size false)) reader.

Section Init.

(** The rest of [__init__]: [self._load_types()],
    [self._load_functions()], [self._load_variables()], which fill the
    tables of the object from the reader. *)
Variable load_tables : IFPSFile -> M StructReader IFPSFile.

(** [IFPSFile.__init__(reader, codec)] *)
Definition IFPSFile_init (codec : string) : M StructReader IFPSFile :=
  self ← read_header codec; load_tables self.

End Init.

(** The bytes the header fields are decoded from, by position. *)
Definition header_magic (r : StructReader) : list byte :=
  take 4 (remaining r).

Definition header_field (k : nat) (r : StructReader) : Z :=
  le_value (take 4 (drop (4 + 4 * k) (remaining r))).


(** ** Running cells and functions *)

(** A fresh cell of the given type (its display variant is immaterial). *)
Definition new_cell (ty : IFPSType) : result Variable_ :=
  Variable_init ty (inl (mkVariant 0 Global)).

(** A sequence of [cell.set(value, key)] calls; the first exception
    ends the run. *)
Fixpoint set_all (calls : list (PyVal * option Z)) (cell : Variable_)
  : result Variable_ :=
  match calls with
  | [] => Ok cell
  | (value, key) :: calls' =>
      match Variable_set value key cell with
      | (inl e, _) => Err e
      | (inr _, cell') => set_all calls' cell'
      end
  end.

(** [cell = Variable(ty, ...); cell.set(...); ...; cell.get()] *)
Definition set_then_get (ty : IFPSType) (calls : list (PyVal * option Z))
  : result pydata :=
  cell ← new_cell ty;
  cell ← set_all calls cell;
  Variable_get cell None.

(** The integer held by a scalar cell, if it holds one. *)
Definition stored_int (r : result pydata) : option Z :=
  match r with
  | inr (DObj v) => as_int v
  | _ => None
  end.

(** The nominal bit count of a fixed-width integer type code. *)
Definition nominal_bits (c : TC) : Z := 8 * TC_width c.

(** The bounds of the representable range of a fixed-width integer type:
    [0, 2^B) unsigned, [-2^(B-1), 2^(B-1)) signed. *)
Definition representable (c : TC) (z : Z) : Prop :=
  if int_sign c <? 0
  then - 2 ^ (nominal_bits c - 1) <= z < 2 ^ (nominal_bits c - 1)
  else 0 <= z < 2 ^ nominal_bits c.

(** ** Stack validation, as predicates *)

(** A slot that the last loop of [get_basic_blocks] objects to at depth
    [stack]: an [Operand] whose variant is a local of index above the
    depth. *)
Definition exceeds_depth (stack : Z) (a : arg) : bool :=
  match a with
  | AOperand op =>
      match op_variant op with
      | Some v => bool_decide (v_type v = Local) && (stack <? v_index v)
      | None => false
      end
  | _ => false
  end.

Definition underflows (insn : Instruction) : bool :=
  match insn_stack insn with
  | Some stack => existsb (exceeds_depth stack) (insn_operands insn)
  | None => false
  end.

(** The indices of the local variants that an operand references in the
    words of the specification: the variant of an [Operand] and, for an
    operand indexed by a variable, its sub-index. *)
Definition local_index (v : Variant) : list Z :=
  if bool_decide (v_type v = Local) then [v_index v] else [].

Definition local_indices (a : arg) : list Z :=
  match a with
  | AOperand op =>
      from_option local_index [] (op_variant op) ++
      match op_index op with
      | Some (inl w) => local_index w
      | _ => []
      end
  | _ => []
  end.

(** The failure condition in the words of the specification: a known
    depth [s] and a referenced local of index at least [s]. *)
Definition spec_underflows (insn : Instruction) : bool :=
  match insn_stack insn with
  | Some s =>
      existsb (fun a => existsb (fun i => s <=? i) (local_indices a))
              (insn_operands insn)
  | None => false
  end.

(** ** Concrete function bodies *)

(** An instruction as [_parse_bytecode] yields it: no stack depth yet,
    no operator. *)
Definition decoded (offset : Z) (opcode : Op) (size : Z) (operands : list arg)
    (jumptarget : bool) : Instruction :=
  mkInstruction offset opcode size None operands None jumptarget.

(** The operands [LocalVar<i>] and [GlobalVar<g>[LocalVar<i>]]. *)
Definition local_operand (i : Z) : arg :=
  AOperand (mkOperand OT_Variant (Some (mkVariant i Local)) None None).

Definition global_indexed_by_local (g i : Z) : arg :=
  AOperand (mkOperand OT_IndexedByVar (Some (mkVariant g Global)) None
                      (Some (inl (mkVariant i Local)))).

(** Bytes [17 00 00 00 00 60 | 09]: [Inc LocalVar0; Ret]. *)
Definition body_inc_local0 : list Instruction :=
  [decoded 0 Inc 6 [local_operand 0] false; decoded 6 Ret 1 [] false].

(** Bytes [17 00 02 00 00 60 | 09]: [Inc LocalVar2; Ret]. *)
Definition body_inc_local2 : list Instruction :=
  [decoded 0 Inc 6 [local_operand 2] false; decoded 6 Ret 1 [] false].

(** Bytes [17 03 00 00 00 00 05 00 00 60 | 09]:
    [Inc GlobalVar0[LocalVar5]; Ret]. *)
Definition body_inc_indexed : list Instruction :=
  [decoded 0 Inc 10 [global_indexed_by_local 0 5] false;
   decoded 10 Ret 1 [] false].

(** Bytes [06 01 00 00 00 | FF | 06 FA FF FF FF]: a jump over a [Nop]
    to a jump back to that [Nop]. *)
Definition body_jump_over : list Instruction :=
  [decoded 0 Jump 5 [AInt 6] false;
   decoded 5 Nop 1 [] true;
   decoded 6 Jump 5 [AInt 5] true].

(** Bytes [09 | FF | 06 FA FF FF FF]: a return, then a loop. *)
Definition body_ret_then_loop : list Instruction :=
  [decoded 0 Ret 1 [] false;
   decoded 1 Nop 1 [] true;
   decoded 2 Jump 5 [AInt 1] false].

(** Bytes [09]: a single [Ret]. *)
Definition body_ret : list Instruction := [decoded 0 Ret 1 [] false].

(** The operand [GlobalVar<g>]. *)
Definition global_operand (g : Z) : arg :=
  AOperand (mkOperand OT_Variant (Some (mkVariant g Global)) None None).

(** Bytes [02 00 00 00 00 00 | 02 00 00 00 00 00 | 1A 00 00 00 00 | 09]:
    [Push GlobalVar0; Push GlobalVar0; JumpPop2 +0; Ret]. *)
Definition body_push_push_jumppop2 : list Instruction :=
  [decoded 0 Push 6 [global_operand 0] false;
   decoded 6 Push 6 [global_operand 0] false;
   decoded 12 JumpPop2 5 [AInt 17] false;
   decoded 17 Ret 1 [] true].

(** The frames available to [trace_stack] under the interpreter's
    default recursion limit. *)
Definition recursion_limit : nat := 1000.

(** The state of the first loop when it starts:
    [bbs = {0: (bb := BasicBlock(0))}]. *)
Definition build_start : build_state := mkBuild [(0, BasicBlock_new 0)] 0.

(** The returned object is a block map whose block 0 holds the
    instruction at offset 0 of [body]. *)
Definition covers_offset_0 (r : pyobj) (body : list Instruction) : Prop :=
  exists bbs bb pos insn,
    r = OBlocks bbs /\ od_get bbs 0 = Some bb /\
    In pos (bb_body bb) /\ body !! pos = Some insn /\ insn_offset insn = 0.

(** All instructions of a body annotated with one depth. *)
Definition at_depth (s : Z) (body : list Instruction) : list Instruction :=
  map (with_stack (Some s)) body.

(** Bytes [0B 00 00 00 00 | 06 01 00 00 00 | FF | 04 | 06 F9 FF FF FF]:
    push, jump over a [Nop] to a [Pop], jump back to the [Nop]. *)
Definition body_push_jump_over (t : IFPSType) : list Instruction :=
  [decoded 0 PushType 5 [AType t] false;
   decoded 5 Jump 5 [AInt 11] false;
   decoded 10 Nop 1 [] true;
   decoded 11 Pop 1 [] true;
   decoded 12 Jump 5 [AInt 10] false].

(** The object that [__init__] has set up when the version test passes,
    read off the header bytes by position. *)
Definition header_object (codec : string) (r : StructReader) : IFPSFile :=
  mkIFPSFile codec [] [] [] []
             (header_field 0 r) (header_field 1 r) (header_field 2 r)
             (header_field 3 r) (header_field 4 r) (header_field 5 r) false.

(** The 28 bytes of the empty unit of format version 12. *)
Definition empty_unit : list byte :=
  [x49; x46; x50; x53; x0c; x00; x00; x00;
   x00; x00; x00; x00; x00; x00; x00; x00;
   x00; x00; x00; x00; x00; x00; x00; x00;
   x00; x00; x00; x00].

(** A loader that finds nothing to load. *)
Definition load_nothing (self : IFPSFile) : M StructReader IFPSFile :=
  mret self.

(** Block 0 exists, and what is stored under key 0 holds the first
    instruction of the body. *)
Definition holds_first (bbs : odict BasicBlock) : Prop :=
  (exists b, od_get bbs 0 = Some b) /\
  Forall (fun kb => fst kb = 0 -> In 0%nat (bb_body (snd kb))) bbs.

(** A block update that keeps the first instruction where it is. *)
Definition keeps_first (f : BasicBlock -> BasicBlock) : Prop :=
  forall b : BasicBlock, In 0%nat (bb_body b) -> In 0%nat (bb_body (f b)).

(** ** Further parts of the module *)

(** The exclusive upper bound of the keys of a container cell, as
    [Variable.__init__] sets [_keyrange]: the member count of a record,
    [0x100000000] for an array, the size of a static array. *)
Definition key_bound (ty : IFPSType) : option Z :=
  match ty with
  | TRecord members => Some (Z.of_nat (length members))
  | TArray _ => Some 0x100000000
  | TStaticArray _ n _ => Some n
  | _ => None
  end.

(** [TSet.size_in_bytes]: [q, r = divmod(self.size, 8)] and
    [q + (r and 1 or 0)]. *)
Definition size_in_bytes (size : Z) : Z :=
  let q := size / 8 in
  let r := size mod 8 in
  q + (if r =? 0 then 0 else 1).

(** The offsets under which a block dictionary holds blocks. *)
Definition block_keys (bbs : odict BasicBlock) : gset Z :=
  list_to_set (map fst bbs).

(** A number of Python frames that [trace_stack] cannot exceed from a
    given state: one, and one more for every block that is not yet
    visited and for every block that is not yet marked as errored. *)
Definition frames_needed (st : trace_state) : nat :=
  S (size (block_keys (ts_bbs st) ∖ ts_visited st) +
     size (block_keys (ts_bbs st) ∖ ts_errored st)).

(** The relation between a state and a later one that the frame count
    rests on: the same block offsets, and no offset leaves a set. *)
Definition trace_grows (st st' : trace_state) : Prop :=
  map fst (ts_bbs st') = map fst (ts_bbs st) /\
  ts_visited st ⊆ ts_visited st' /\
  ts_errored st ⊆ ts_errored st'.

(** The instruction positions held by the blocks of a dictionary, block
    after block. *)
Definition block_positions (bbs : odict BasicBlock) : list nat :=
  concat (map (fun kb => bb_body (snd kb)) bbs).

(** What a block dictionary says about membership: each offset with the
    instruction positions of its block. *)
Definition block_bodies (bbs : odict BasicBlock) : list (Z * list nat) :=
  map (fun kb => (fst kb, bb_body (snd kb))) bbs.

(** A block update that leaves the instructions of the block alone. *)
Definition keeps_body (f : BasicBlock -> BasicBlock) : Prop :=
  forall b : BasicBlock, bb_body (f b) = bb_body b.

(** What the first loop of [get_basic_blocks] maintains after [n]
    instructions: the offsets are distinct, the current block is in the
    dictionary, and the blocks hold the positions [0..n-1], each once. *)
Definition build_inv (n : nat) (st : build_state) : Prop :=
  NoDup (map fst (bs_bbs st)) /\
  In (bs_bb st) (map fst (bs_bbs st)) /\
  Permutation (block_positions (bs_bbs st)) (seq 0 n).

(** ** The instruction decoder *)

(** Modelled from the spec: further methods of the byte reader of
    [refinery.lib.structures] (section 4.A of the specification):
    [tell], [eof], and the little-endian integers [u8] and [i32]. *)
Definition reader_tell : M StructReader Z :=
  fun r => (Ok (Z.of_nat (rd_cursor r)), r).

Definition reader_eof (r : StructReader) : bool := remaining_bytes r =? 0.

Definition reader_u8 : M StructReader Z :=
  bs ← reader_read 1; mret (le_value bs).

(** Two's complement reading of an unsigned [bits]-bit value. *)
Definition to_signed (bits v : Z) : Z :=
  if v <? 2 ^ (bits - 1) then v else v - 2 ^ bits.

Definition reader_i32 : M StructReader Z :=
  v ← reader_u32; mret (to_signed 32 v).

(** The values of the enumeration [Op]. *)
Definition Op_value (o : Op) : Z :=
  match o with
  | Assign => 0x00 | Calculate => 0x01 | Push => 0x02 | PushVar => 0x03
  | Pop => 0x04 | Call => 0x05 | Jump => 0x06 | JumpTrue => 0x07
  | JumpFalse => 0x08 | Ret => 0x09 | StackType => 0x0A | PushType => 0x0B
  | Compare => 0x0C | CallVar => 0x0D | SetPtr => 0x0E | BooleanNot => 0x0F
  | Neg => 0x10 | SetFlag => 0x11 | JumpFlag => 0x12 | PushEH => 0x13
  | PopEH => 0x14 | IntegerNot => 0x15 | SetCopyPtr => 0x16 | Inc => 0x17
  | Dec => 0x18 | JumpPop1 => 0x19 | JumpPop2 => 0x1A | Nop => 0xFF
  | _INVALID => 0xDD
  end.

Definition all_Op : list Op :=
  [Assign; Calculate; Push; PushVar; Pop; Call; Jump; JumpTrue; JumpFalse;
   Ret; StackType; PushType; Compare; CallVar; SetPtr; BooleanNot; Neg;
   SetFlag; JumpFlag; PushEH; PopEH; IntegerNot; SetCopyPtr; Inc; Dec;
   JumpPop1; JumpPop2; Nop; _INVALID].

(** [Op.FromInt]: the member with that value, [_INVALID] when the
    lookup [cls(code)] raises [ValueError]. *)
Definition Op_FromInt (code : Z) : Op :=
  from_option id _INVALID (find (fun o => Op_value o =? code) all_Op).

(** [AOp(b)], [COp(b)], [OperandType(b)]: lookups in enumerations that
    count from 0; [ValueError] outside. *)
Definition AOp_of (b : Z) : result AOp :=
  match [Add; Sub; Mul; Div; Mod; Shl; Shr; And; BOr; Xor] !! Z.to_nat b with
  | Some o => if 0 <=? b then Ok o else Err PyValueError
  | None => Err PyValueError
  end.

Definition COp_of (b : Z) : result COp :=
  match [GE; LE; GT; LT; NE; EQ; IN; IS] !! Z.to_nat b with
  | Some o => if 0 <=? b then Ok o else Err PyValueError
  | None => Err PyValueError
  end.

Definition OperandType_of (b : Z) : result OperandType :=
  match [OT_Variant; OT_Value; OT_IndexedByInt; OT_IndexedByVar]
          !! Z.to_nat b with
  | Some o => if 0 <=? b then Ok o else Err PyValueError
  | None => Err PyValueError
  end.

(** The dictionary [argcount] of [_parse_bytecode]. *)
Definition argcount (code : Op) : option nat :=
  match code with
  | Assign | SetCopyPtr | SetPtr => Some 2%nat
  | CallVar | Dec | Inc | BooleanNot | Neg | IntegerNot => Some 1%nat
  | _ => None
  end.

Section Decoder.

(** What the decoder reads of the unit: [self.types], [self.void], and
    the value decoder [self._read_value(reader)], which is taken as
    given. *)
Variable unit_types : list IFPSType.
Variable unit_void : bool.
Variable _read_value : M StructReader Value.

(** [IFPSFile._read_operand] *)
Definition _read_operand : M StructReader Operand :=
  b ← reader_u8;
  ot ← lift (OperandType_of b);
  match ot with
  | OT_Variant =>
      w ← reader_u32;
      mret (mkOperand ot (Some (_read_variant unit_void w)) None None)
  | OT_Value =>
      v ← _read_value;
      mret (mkOperand ot None (Some v) None)
  | OT_IndexedByInt =>
      w ← reader_u32;
      index ← reader_u32;
      mret (mkOperand ot (Some (_read_variant unit_void w)) None
                      (Some (inr index)))
  | OT_IndexedByVar =>
      w ← reader_u32;
      index ← reader_u32;
      mret (mkOperand ot (Some (_read_variant unit_void w)) None
                      (Some (inl (_read_variant unit_void index))))
  end.

(** The nested function [arg(k)]: [k] operands, appended in order. *)
Fixpoint read_args (k : nat) : M StructReader (list arg) :=
  match k with
  | O => mret []
  | S k' =>
      o ← _read_operand;
      rest ← read_args k';
      mret (AOperand o :: rest)
  end.

(** A relative jump: [target = reader.i32()] and, after [between] has
    read what the instruction has before its end,
    [reader.tell() + target]. *)
Definition read_target : M StructReader Z :=
  target ← reader_i32;
  pos ← reader_tell;
  mret (pos + target).

(** The dispatch on the opcode in the loop of [_parse_bytecode]: the
    operands appended to [insn.operands] and the operator, if any. *)
Definition read_operands (code : Op)
  : M StructReader (list arg * option (AOp + COp)) :=
  match argcount code with
  | Some aryness => args ← read_args aryness; mret (args, None)
  | None =>
      match code with
      | Ret | Nop | Pop => mret ([], None)
      | Calculate =>
          b ← reader_u8;
          operator ← lift (AOp_of b);
          args ← read_args 2;
          mret (args, Some (inl operator))
      | Push | PushVar => args ← read_args 1; mret (args, None)
      | Jump | JumpFlag | JumpPop1 | JumpPop2 =>
          t ← read_target; mret ([AInt t], None)
      | Call => i ← reader_u32; mret ([AInt i], None)
      | JumpTrue | JumpFalse =>
          target ← reader_i32;
          val ← _read_operand;
          pos ← reader_tell;
          mret ([AInt (pos + target); AOperand val], None)
      | StackType =>
          w ← reader_u32;
          i ← reader_u32;
          mret ([AVariant (_read_variant unit_void w); AInt i], None)
      | PushType =>
          i ← reader_u32;
          t ← lift (py_getitem unit_types i);
          mret ([AType t], None)
      | Compare =>
          b ← reader_u8;
          operator ← lift (COp_of b);
          args ← read_args 3;
          mret (args, Some (inr operator))
      | SetFlag =>
          args ← read_args 1;
          b ← reader_u8;
          mret (args ++ [ABool (negb (b =? 0))], None)
      | PushEH =>
          a1 ← reader_i32;
          a2 ← reader_i32;
          a3 ← reader_i32;
          a4 ← reader_i32;
          pos ← reader_tell;
          mret (map (fun a => if 0 <=? a then AInt (a + pos) else ANone)
                    [a1; a2; a3; a4], None)
      | PopEH => b ← reader_u8; mret ([AInt b], None)
      | _ =>
          (* raise ValueError('Unsupported opcode: ...') *)
          raise PyValueError
      end
  end.

(** One turn of the [while not reader.eof] loop: the instruction at the
    cursor. *)
Definition decode_insn : M StructReader Instruction :=
  addr ← reader_tell;
  cval ← reader_u8;
  oo ← read_operands (Op_FromInt cval);
  end_ ← reader_tell;
  mret (mkInstruction addr (Op_FromInt cval) (end_ - addr) None
                      (fst oo) (snd oo) false).

(** The loop, which fills the ordered dictionary [disassembly].  The
    code puts no bound on it; [turns] bounds the turns taken here, and
    [None] says that they ran out. *)
Fixpoint decode_loop (turns : nat) (disassembly : odict Instruction)
    (reader : StructReader) : option (result (odict Instruction)) :=
  match turns with
  | O => None
  | S turns' =>
      if reader_eof reader then Some (Ok disassembly)
      else
        match decode_insn reader with
        | (inl e, _) => Some (Err e)
        | (inr insn, reader') =>
            decode_loop turns' (od_set disassembly (insn_offset insn) insn)
                        reader'
        end
  end.

End Decoder.

(** What leaves [_parse_bytecode]: an exception of the first loop, or
    the [RuntimeError] of the second for a jump target that is not the
    offset of an instruction. *)
Inductive decode_error : Type :=
  | Raised (e : error)
  | BadJumpTarget (k : nat) (offset : Z) (opcode : Op) (target : Z).

Definition set_jumptarget (i : Instruction) : Instruction :=
  mkInstruction (insn_offset i) (insn_opcode i) (insn_size i) (insn_stack i)
                (insn_operands i) (insn_operator i) true.

(** The second loop of [_parse_bytecode], over
    [enumerate(disassembly.values())]: the instruction that a branch
    names is marked as a jump target. *)
Fixpoint mark_targets (k : nat) (values : list Instruction)
    (disassembly : odict Instruction) : decode_error + odict Instruction :=
  match values with
  | [] => inr disassembly
  | instruction :: values' =>
      if negb (branches instruction) then
        mark_targets (S k) values' disassembly
      else
        match insn_operands instruction with
        | [] => inl (Raised PyIndexError)
        | AInt target :: _ =>
            match od_get disassembly target with
            | Some _ =>
                mark_targets (S k) values'
                             (od_update disassembly target set_jumptarget)
            | None =>
                inl (BadJumpTarget k (insn_offset instruction)
                                   (insn_opcode instruction) target)
            end
        | _ :: _ => inl (Raised IllTyped)
        end
  end.

(** [IFPSFile._parse_bytecode(data)], driven to its end as
    [list(self._parse_bytecode(data))] does.  One more turn than there
    are bytes is given to the loop. *)
Definition _parse_bytecode (unit_types : list IFPSType) (unit_void : bool)
    (_read_value : M StructReader Value) (data : list byte)
  : option (decode_error + list Instruction) :=
  match decode_loop unit_types unit_void _read_value (S (length data)) []
                    (mkReader data 0) with
  | None => None
  | Some (inl e) => Some (inl (Raised e))
  | Some (inr disassembly) =>
      Some (match mark_targets 0 (map snd disassembly) disassembly with
            | inl e => inl e
            | inr marked => inr (map snd marked)
            end)
  end.

(** A reading step that, when it returns, has moved the cursor forward
    over bytes that were there. *)
Definition consumes {A} (m : M StructReader A) : Prop :=
  forall r a r',
    m r = (Ok a, r') ->
    exists n, r' = advance n r /\ (n <= length (remaining r))%nat.


(** A value decoder for the examples: a type index, then one byte, as
    [_read_value] does for the type U08. *)
Definition read_u08_value : M StructReader Value :=
  _ ← reader_u32; b ← reader_u8; mret (mkValue (TPrimitive U08) (PInt b)).


(** The instruction stored under [t] is marked as a jump target. *)
Definition marked (dis : odict Instruction) (t : Z) : Prop :=
  exists i, od_get dis t = Some i /\ insn_jumptarget i = true.

(** The target of a branch instruction: the integer in slot 0. *)
Definition branch_target (i : Instruction) : option Z :=
  if branches i then
    match insn_operands i with
    | AInt t :: _ => Some t
    | _ => None
    end
  else None.




(** ** Edges of the block map *)

(** What a block dictionary says about successors: each offset with the
    targets of its block. *)
Definition block_targets (bbs : odict BasicBlock) : odict (list Z) :=
  map (fun kb => (fst kb, bb_targets (snd kb))) bbs.

(** Every edge is recorded at both ends: a target of a block is a block
    of the dictionary that has the block among its sources. *)
Definition edges_back (bbs : odict BasicBlock) : Prop :=
  forall k b t,
    od_get bbs k = Some b -> In t (bb_targets b) ->
    exists bt, od_get bbs t = Some bt /\ In k (bb_sources bt).

(** Every target of a block is a block of the dictionary. *)
Definition targets_closed (bts : odict (list Z)) : Prop :=
  forall k ts t, od_get bts k = Some ts -> In t ts -> od_get bts t <> None.

(** A block update that leaves the edges of the block alone. *)
Definition keeps_edges (f : BasicBlock -> BasicBlock) : Prop :=
  forall b : BasicBlock,
    bb_targets (f b) = bb_targets b /\ bb_sources (f b) = bb_sources b.

(** Bytes [02 01 00 00 00 00 07 | 06 F4 FF FF FF]: the push of a value
    (type index 0, byte 7), and a jump back to it. *)
Definition data_push_jump : list byte :=
  [x02; x01; x00; x00; x00; x00; x07; x06; xf4; xff; xff; xff].


(** * Properties *)

(** ** Variant decoding *)

Lemma _read_variant_kind (void : bool) (v : Z) :
  v_type (_read_variant void v) =
    if v <? 0x40000000 then Global
    else if v <? 0x60000000 then Argument
    else Local.
Proof.
  unfold _read_variant.
  destruct (Z.ltb_spec v 0x40000000) as [Hg | Hg]; [reflexivity |].
  destruct (Z.leb_spec 0 (v - 0x60000000)) as [Hl | Hl];
    destruct (Z.ltb_spec v 0x60000000); simpl; try reflexivity; lia.
Qed.

(** C7.  A variant word [v] below 0x40000000 decodes to the global of
    index [v]; a word of at least 0x60000000 decodes to the local of
    index [d = v - 0x60000000]; a word that is not a global and whose
    [d] is negative decodes to an argument, of index [-d] when the void
    flag of the function being decoded is set and of index [~d]
    otherwise.  (Stated for every integer, hence for every 32-bit
    word.) *)
Theorem read_variant_decoding (void : bool) (v : Z) :
  (v < 0x40000000 -> _read_variant void v = mkVariant v Global) /\
  (0x60000000 <= v ->
     0 <= v - 0x60000000 /\
     _read_variant void v = mkVariant (v - 0x60000000) Local) /\
  (0x40000000 <= v -> v - 0x60000000 < 0 ->
     _read_variant void v =
       mkVariant (if void then - (v - 0x60000000)
                  else Z.lnot (v - 0x60000000)) Argument).
Proof.
  unfold _read_variant. repeat split.
  - intros H. apply Z.ltb_lt in H. now rewrite H.
  - lia.
  - destruct (Z.ltb_spec v 0x40000000); [lia |].
    destruct (Z.leb_spec 0 (v - 0x60000000)); [reflexivity | lia].
  - intros Hlo Hneg.
    destruct (Z.ltb_spec v 0x40000000); [lia |].
    destruct (Z.leb_spec 0 (v - 0x60000000)); [lia | reflexivity].
Qed.

Lemma read_variant_decoding_witness :
  _read_variant false 7 = mkVariant 7 Global /\
  _read_variant false 0x60000003 = mkVariant 3 Local /\
  _read_variant true 0x5FFFFFFE = mkVariant 2 Argument /\
  _read_variant false 0x5FFFFFFE = mkVariant 1 Argument.
Proof.
  split; [apply (proj1 (read_variant_decoding false 7)); lia |].
  split; [apply (proj1 (proj2 (read_variant_decoding false 0x60000003))); lia |].
  split.
  - apply (proj2 (proj2 (read_variant_decoding true 0x5FFFFFFE))); lia.
  - apply (proj2 (proj2 (read_variant_decoding false 0x5FFFFFFE))); lia.
Defined.

(** C10.  Every word of the range [0x40000000, 0x60000000), which the
    specification leaves out, is decoded: the subtraction of 0x60000000
    gives a negative [d], and the result is the argument of index [-d]
    (void flag set) or [~d] (void flag clear), a non-negative index in
    both cases.  The decoder is a total function: no word is rejected. *)
Theorem read_variant_unspecified_range (void : bool) (v : Z) :
  0x40000000 <= v < 0x60000000 ->
  v - 0x60000000 < 0 /\
  _read_variant void v =
    mkVariant (if void then - (v - 0x60000000)
               else Z.lnot (v - 0x60000000)) Argument /\
  0 <= v_index (_read_variant void v).
Proof.
  intros [Hlo Hhi].
  assert (Hd : v - 0x60000000 < 0) by lia.
  assert (E : _read_variant void v =
              mkVariant (if void then - (v - 0x60000000)
                         else Z.lnot (v - 0x60000000)) Argument).
  { unfold _read_variant.
    destruct (Z.ltb_spec v 0x40000000); [lia |].
    destruct (Z.leb_spec 0 (v - 0x60000000)); [lia | reflexivity]. }
  split; [exact Hd |]. split; [exact E |].
  rewrite E. simpl. destruct void; [lia |].
  unfold Z.lnot. lia.
Qed.

Lemma read_variant_unspecified_range_witness :
  0x40000000 - 0x60000000 < 0 /\
  _read_variant false 0x40000000 = mkVariant 0x1FFFFFFF Argument /\
  0 <= v_index (_read_variant false 0x40000000).
Proof.
  apply (read_variant_unspecified_range false 0x40000000). lia.
Defined.

(** ** Variable cells: integer wrap *)

Example U08_assign_256 :
  set_then_get (TPrimitive U08) [(PInt 256, None)] = Ok (DObj (PInt 0)).
Proof. vm_compute. reflexivity. Qed.

Example S08_assign_minus_129 :
  set_then_get (TPrimitive S08) [(PInt (-129), None)] = Ok (DObj (PInt 127)).
Proof. vm_compute. reflexivity. Qed.

Example U16_assign_0x10001 :
  set_then_get (TPrimitive U16) [(PInt 0x10001, None)] = Ok (DObj (PInt 1)).
Proof. vm_compute. reflexivity. Qed.

(** What [_wrap] does to an integer outside the good range of a
    fixed-width cell, signed or not: it masks it, and nothing else,
    because the walrus binds [s] to [True] and [True < 0] is false. *)
Lemma _wrap_out_of_range (self : Variable_) (z lo hi mask bits : Z) :
  _int_size self <> 0 ->
  _int_good self = Some (lo, hi) ->
  _int_mask self = Some mask ->
  _int_bits self = Some bits ->
  in_range lo hi z = false ->
  _wrap self (PInt z) = Ok (PInt (Z.land z mask)).
Proof.
  intros Hs Hg Hm Hb Hr. unfold _wrap.
  destruct (Z.eqb_spec (_int_size self) 0) as [E | _]; [contradiction |].
  rewrite Hg, Hm, Hb. simpl. rewrite Hr. simpl. reflexivity.
Qed.

Lemma _wrap_in_range (self : Variable_) (z lo hi : Z) :
  _int_good self = Some (lo, hi) ->
  in_range lo hi z = true ->
  _wrap self (PInt z) = Ok (PInt z).
Proof.
  intros Hg Hr. unfold _wrap.
  destruct (_int_size self =? 0); [reflexivity |].
  rewrite Hg. destruct (_int_mask self), (_int_bits self); try reflexivity.
  simpl. rewrite Hr. reflexivity.
Qed.

(** A scalar assignment on a cell of a fixed-width integer type, and
    the read that follows it. *)
(* Closes the cases of a type code that is not a fixed-width integer. *)
Ltac not_an_int :=
  match goal with
  | H : int_sign _ <> 0 |- _ => exfalso; apply H; reflexivity
  end.

Lemma fixed_width_set_get (c : TC) (self : Variable_)
    (d : gmap (option Z) PyVal) (z : Z) (w : PyVal) :
  int_sign c <> 0 ->
  type self = TPrimitive c ->
  data self = DDict d ->
  _keyrange self = KNone ->
  _wrap self (PInt z) = Ok w ->
  exists self',
    Variable_set (PInt z) None self = (Ok tt, self') /\
    Variable_get self' None = Ok (DObj w).
Proof.
  intros Hc Ht Hd Hk Hw.
  assert (Hcont : container (type self) = false)
    by (rewrite Ht; destruct c; try reflexivity; not_an_int).
  assert (Hset : code (type self) <> Set_)
    by (rewrite Ht; destruct c; simpl; try discriminate; not_an_int).
  assert (Hpy : py_type (type self) None = Ok (Some Cint))
    by (rewrite Ht; destruct c; try reflexivity; not_an_int).
  exists (with_data (DDict (<[None := w]> d)) self). split.
  - unfold Variable_set, Variable_set_item. rewrite Hcont.
    destruct (decide (code (type self) = Set_)); [contradiction |].
    unfold _cast. rewrite Hk, Hpy. simpl. rewrite Hw, Hd. reflexivity.
  - unfold Variable_get. simpl. rewrite Hcont. simpl.
    destruct (decide (code (type self) = Set_)); [contradiction |].
    unfold _cast. simpl. rewrite Hk. simpl.
    rewrite lookup_insert_eq. reflexivity.
Qed.

(** What a cell of a fixed-width integer type holds after the
    assignment of any integer: the value itself when it is in the good
    range of the type, and the value modulo [2^B] otherwise, for signed
    and unsigned types alike. *)
Lemma fixed_width_assign (c : TC) (z : Z) :
  int_sign c <> 0 ->
  stored_int (set_then_get (TPrimitive c) [(PInt z, None)]) =
    Some (if (int_sign c <? 0) &&
             in_range (- 2 ^ (nominal_bits c - 1)) (2 ^ (nominal_bits c - 1)) z
          then z
          else z mod 2 ^ nominal_bits c).
Proof.
  intros Hc. unfold set_then_get.
  assert (Hnew : exists self,
             new_cell (TPrimitive c) = Ok self /\
             type self = TPrimitive c /\
             data self = DDict {[ None := PInt 0 ]} /\
             _keyrange self = KNone /\
             _int_size self = int_sign c * TC_width c /\
             _int_bits self = Some (nominal_bits c) /\
             _int_mask self = Some (Z.ones (nominal_bits c)) /\
             _int_good self =
               Some (if int_sign c <? 0
                     then (- 2 ^ (nominal_bits c - 1), 2 ^ (nominal_bits c - 1))
                     else (0, 2 ^ nominal_bits c))).
  { destruct c; try not_an_int; eexists; repeat split. }
  destruct Hnew as (self & Hself & Ht & Hd & Hk & Hsz & Hbits & Hmask & Hgood).
  rewrite Hself. cbn [mbind result_bind Ok set_all].
  assert (Hsize : _int_size self <> 0)
    by (rewrite Hsz; destruct c; simpl; try discriminate; not_an_int).
  assert (Hb : 0 <= nominal_bits c)
    by (unfold nominal_bits; destruct c; simpl; lia).
  set (lo := fst (if int_sign c <? 0
                  then (- 2 ^ (nominal_bits c - 1), 2 ^ (nominal_bits c - 1))
                  else (0, 2 ^ nominal_bits c))).
  set (hi := snd (if int_sign c <? 0
                  then (- 2 ^ (nominal_bits c - 1), 2 ^ (nominal_bits c - 1))
                  else (0, 2 ^ nominal_bits c))).
  assert (Hgood' : _int_good self = Some (lo, hi))
    by (rewrite Hgood; subst lo hi; now destruct (int_sign c <? 0)).
  destruct (in_range lo hi z) eqn:Hin.
  - destruct (fixed_width_set_get c self _ z (PInt z) Hc Ht Hd Hk
                (_wrap_in_range self z lo hi Hgood' Hin)) as (self' & Hs & Hg).
    rewrite Hs. cbn [mbind result_bind Ok]. rewrite Hg. simpl. f_equal.
    subst lo hi. destruct (int_sign c <? 0); simpl in *.
    + now rewrite Hin.
    + unfold in_range in Hin. apply andb_prop in Hin as [H1 H2].
      apply Z.leb_le in H1. apply Z.ltb_lt in H2.
      symmetry. apply Z.mod_small. lia.
  - destruct (fixed_width_set_get c self _ z (PInt (Z.land z (Z.ones (nominal_bits c))))
                Hc Ht Hd Hk
                (_wrap_out_of_range self z lo hi _ _ Hsize Hgood' Hmask Hbits Hin))
      as (self' & Hs & Hg).
    rewrite Hs. cbn [mbind result_bind Ok]. rewrite Hg. simpl. f_equal.
    rewrite Z.land_ones by exact Hb.
    subst lo hi. destruct (int_sign c <? 0); simpl in *.
    + now rewrite Hin.
    + reflexivity.
Qed.

(** The part of C2 that the code keeps: an unsigned cell stores the
    value modulo [2^B], which is representable. *)
Lemma unsigned_assign (c : TC) (z : Z) :
  int_sign c = 1 ->
  stored_int (set_then_get (TPrimitive c) [(PInt z, None)]) =
    Some (z mod 2 ^ nominal_bits c) /\
  representable c (z mod 2 ^ nominal_bits c).
Proof.
  intros Hc. split.
  - rewrite fixed_width_assign by lia. now rewrite Hc.
  - unfold representable. rewrite Hc. simpl.
    apply Z.mod_pos_bound. unfold nominal_bits.
    destruct c; simpl in *; try discriminate; lia.
Qed.

(** A signed cell stores every value of the upper half of [0, 2^B) as
    it is, and none of them is representable. *)
Lemma signed_assign_upper_half (c : TC) (z : Z) :
  int_sign c = -1 ->
  2 ^ (nominal_bits c - 1) <= z < 2 ^ nominal_bits c ->
  stored_int (set_then_get (TPrimitive c) [(PInt z, None)]) = Some z /\
  ~ representable c z.
Proof.
  intros Hc Hz. split.
  - rewrite fixed_width_assign by lia. rewrite Hc. simpl.
    unfold in_range.
    destruct (Z.ltb_spec z (2 ^ (nominal_bits c - 1))); [lia |].
    rewrite andb_false_r. f_equal. apply Z.mod_small.
    assert (0 < 2 ^ (nominal_bits c - 1)); [| lia].
    apply Z.pow_pos_nonneg; [lia |].
    unfold nominal_bits. destruct c; simpl in *; try discriminate; lia.
  - unfold representable. rewrite Hc. simpl. lia.
Qed.

(** C2 (the code departs from it).  A fresh S08 cell assigned 128 holds
    128 afterwards, which is outside the representable range
    [-128, 128) of the type: the stored value is [128 mod 2^8] and the
    subtraction of [2^8] for a set high bit does not happen. *)
Theorem S08_assign_128_stores_128 :
  set_then_get (TPrimitive S08) [(PInt 128, None)] = Ok (DObj (PInt 128)) /\
  ~ representable S08 128.
Proof.
  split.
  - vm_compute. reflexivity.
  - unfold representable, nominal_bits. simpl. lia.
Qed.

Example S16_assign_0x8000 :
  set_then_get (TPrimitive S16) [(PInt 0x8000, None)] = Ok (DObj (PInt 0x8000)).
Proof. vm_compute. reflexivity. Qed.

(** ** Variable cells: containers *)

Lemma foldl_max_keys (ks : list (option Z)) :
  forall acc : Z,
    (forall k, k ∈ ks -> exists i, k = Some i) ->
    exists m,
      foldl (fun acc k =>
               a ← acc;
               match k with
               | None => Err PyTypeError
               | Some z => Ok (Z.max a z)
               end) (Ok acc) ks = Ok m /\
      acc <= m /\
      (forall i, Some i ∈ ks -> i <= m) /\
      (m = acc \/ Some m ∈ ks).
Proof.
  induction ks as [| k ks IH]; intros acc Hks; simpl.
  - exists acc. repeat split; [lia | | now left].
    intros i Hi. inversion Hi.
  - destruct (Hks k) as [i ->]; [left |].
    destruct (IH (Z.max acc i)) as (m & Hm & Hle & Hall & Hin).
    { intros k Hk. apply Hks. now right. }
    exists m. split; [exact Hm |]. split; [lia |]. split.
    + intros j Hj. apply elem_of_cons in Hj as [[= ->] | Hj]; [lia | auto].
    + destruct Hin as [-> | Hin]; [| right; now right].
      destruct (Z.max_spec acc i) as [[_ ->] | [_ ->]];
        [right; left | now left].
Qed.

(** [max(data)] on a dictionary whose keys are exactly 0..n-1. *)
Lemma dict_max_dense (d : gmap (option Z) PyVal) (n : Z) :
  1 <= n ->
  (forall k, is_Some (d !! k) <-> exists i, k = Some i /\ 0 <= i < n) ->
  dict_max d = Ok (n - 1).
Proof.
  intros Hn Hdom. unfold dict_max.
  assert (Hkeys : forall k, k ∈ (map_to_list d).*1 <-> is_Some (d !! k)).
  { intros k. rewrite list_elem_of_fmap. split.
    - intros ([k' v] & -> & Hin). apply elem_of_map_to_list in Hin. eauto.
    - intros [v Hv]. exists (k, v). split; [reflexivity |].
      now apply elem_of_map_to_list. }
  assert (Hlast : Some (n - 1) ∈ (map_to_list d).*1).
  { apply Hkeys, Hdom. exists (n - 1). split; [reflexivity | lia]. }
  assert (Hall : forall k, k ∈ (map_to_list d).*1 ->
                           exists i, k = Some i /\ 0 <= i < n).
  { intros k Hk. now apply Hdom, Hkeys. }
  destruct ((map_to_list d).*1) as [| k0 ks]; [inversion Hlast |].
  destruct (Hall k0) as (i0 & -> & Hi0); [left |].
  destruct (foldl_max_keys ks i0) as (m & Hm & Hle & Hmax & Hin).
  { intros k Hk. destruct (Hall k) as (i & -> & _); [now right | eauto]. }
  change (inr i0 : result Z) with (Ok i0). rewrite Hm. f_equal.
  assert (m <= n - 1).
  { destruct Hin as [-> | Hin]; [lia |].
    destruct (Hall (Some m)) as (i & [= <-] & ?); [now right | lia]. }
  assert (n - 1 <= m).
  { apply elem_of_cons in Hlast as [[= <-] | Hlast]; [lia | auto]. }
  lia.
Qed.

Lemma result_map_ok {A B} (f : A -> result B) (g : A -> B) (l : list A) :
  (forall x, x ∈ l -> f x = Ok (g x)) -> result_map f l = Ok (map g l).
Proof.
  induction l as [| x l IH]; intros H; simpl; [reflexivity |].
  rewrite (H x) by left. cbn [mbind result_bind Ok].
  rewrite IH by (intros y Hy; apply H; now right). reflexivity.
Qed.

(** On any container cell whose dictionary has exactly the keys
    0..n-1, [get()] returns the elements of the keys 0..n-2: n-1 of the
    n assigned elements. *)
Lemma get_drops_largest_key (self : Variable_) (d : gmap (option Z) PyVal)
    (n : Z) (dflt : Z -> PyVal) :
  container (type self) = true ->
  data self = DDict d ->
  1 <= n ->
  (forall k, is_Some (d !! k) <-> exists i, k = Some i /\ 0 <= i < n) ->
  (forall i, 0 <= i < n - 1 -> default (type self) (Some i) = Ok (dflt i)) ->
  exists l,
    Variable_get self None = Ok (DObj (PList l)) /\
    length l = Z.to_nat (n - 1) /\
    forall i, 0 <= i < n - 1 -> d !! Some i = l !! Z.to_nat i.
Proof.
  intros Hc Hd Hn Hdom Hdflt.
  set (g := fun i => match d !! Some i with Some v => v | None => dflt i end).
  exists (map g (seqZ 0 (n - 1))).
  split; [| split].
  - unfold Variable_get. rewrite Hc, Hd. simpl.
    rewrite (dict_max_dense d n Hn Hdom). cbn [mbind result_bind Ok].
    rewrite (result_map_ok _ g).
    + reflexivity.
    + intros i Hi. apply elem_of_seqZ in Hi.
      rewrite Hdflt by lia. reflexivity.
  - now rewrite length_map, length_seqZ.
  - intros i Hi.
    change (map g (seqZ 0 (n - 1))) with (g <$> seqZ 0 (n - 1)).
    rewrite list_lookup_fmap.
    rewrite (lookup_seqZ_lt 0 (n - 1) (Z.to_nat i)) by lia. simpl.
    rewrite Z2Nat.id by lia. subst g. simpl.
    destruct (proj2 (Hdom (Some i))) as [v Hv];
      [exists i; split; [reflexivity | lia] |].
    rewrite Z.add_0_l, Hv. reflexivity.
Qed.

(** C4 (the code departs from it).  On a fresh array-of-U08 cell, after
    [set(5, key=0)] and [set(6, key=1)] (all keys 0..n-1 for n = 2),
    [get()] returns the one-element list [[5]]: [size = max(data)] is
    the largest key, and [range(size)] stops before it, so the element
    of the largest key is never returned.  With the single key 0 set,
    [get()] is the empty list. *)
Theorem get_after_setting_all_keys_drops_last :
  set_then_get (TArray (TPrimitive U08))
               [(PInt 5, Some 0); (PInt 6, Some 1)]
    = Ok (DObj (PList [PInt 5])) /\
  set_then_get (TArray (TPrimitive U08)) [(PInt 5, Some 0)]
    = Ok (DObj (PList [])).
Proof. split; vm_compute; reflexivity. Qed.

Example get_after_unkeyed_set :
  set_then_get (TStaticArray (TPrimitive S32) 3 None)
               [(PList [PInt 1; PInt 2; PInt 3], None)]
    = Ok (DObj (PList [PInt 1; PInt 2])).
Proof. vm_compute. reflexivity. Qed.

Example get_record_after_unkeyed_set :
  set_then_get (TRecord [TPrimitive U08; TPrimitive S16])
               [(PList [PInt 1; PInt 2], None)]
    = Ok (DObj (PList [PInt 1])).
Proof. vm_compute. reflexivity. Qed.

(** ** Variable cells: sets *)

Example fresh_set_cell_holds_a_dict :
  data <$> new_cell (TSet 9) = Ok (DDict {[ None := PInt 0 ]}).
Proof. vm_compute. reflexivity. Qed.

(** C9 (the code departs from it).  A freshly constructed cell of type
    Set of size 9 holds the dictionary [{None: 0}] that [__init__] made
    from the type's default, not a bitmask.  The keyed [set(True,
    key=8)] therefore raises [TypeError] at [self.data |= 1 << key] and
    leaves no payload 0x100; the keyed [set(False, key=3)] raises
    [TypeError] at [self.data >> key].  Key 9 is refused with
    [IndexError] before the payload is touched. *)
Theorem fresh_set_cell_keyed_set_raises :
  (cell ← new_cell (TSet 9); Ok (Variable_set (PBool true) (Some 8) cell))
    = (cell ← new_cell (TSet 9); Ok (Err PyTypeError, cell)) /\
  (cell ← new_cell (TSet 9); Ok (Variable_set (PBool false) (Some 3) cell))
    = (cell ← new_cell (TSet 9); Ok (Err PyTypeError, cell)) /\
  (cell ← new_cell (TSet 9); Ok (fst (Variable_set (PBool true) (Some 9) cell)))
    = Ok (Err IndexOutOfRange) /\
  (cell ← new_cell (TSet 9); Variable_get cell (Some 9))
    = Err IndexOutOfRange.
Proof. repeat split; vm_compute; reflexivity. Qed.

(** Once the cell has been given a bitmask by an unkeyed [set], the
    keyed operations behave as the specification describes. *)
Example set_cell_after_unkeyed_set :
  set_then_get (TSet 9) [(PInt 0, None); (PBool true, Some 8)]
    = Ok (DObj (PInt 0x100)) /\
  set_then_get (TSet 9) [(PInt 0x100, None); (PBool false, Some 3)]
    = Ok (DObj (PInt 0x100)) /\
  set_then_get (TSet 9) [(PInt 0x108, None); (PBool false, Some 3)]
    = Ok (DObj (PInt 0x100)).
Proof. repeat split; vm_compute; reflexivity. Qed.

Lemma keyed_clear_of_clear_bit (self : Variable_) (size z k : Z) :
  type self = TSet size ->
  data self = DObj (PInt z) ->
  in_range 0 size k = true ->
  Z.testbit z k = false ->
  Variable_set (PBool false) (Some k) self = (Ok tt, self).
Proof.
  intros Ht Hd Hk Hbit. unfold Variable_set, Variable_set_item.
  rewrite Ht. simpl. rewrite Hk, Hd. simpl.
  assert (E : Z.land (Z.shiftr z k) 1 = 0).
  { apply andb_prop in Hk as [Hk0 _]. apply Z.leb_le in Hk0.
    change 1 with (Z.ones 1). rewrite Z.land_ones by lia.
    rewrite <- Z.bit0_mod, Z.shiftr_spec by lia.
    rewrite Z.add_0_l, Hbit. reflexivity. }
  rewrite E. reflexivity.
Qed.

(** ** Exported declarations *)

Lemma result_map_Forall2 {A B} (f : A -> result B) (l : list A) (l' : list B) :
  result_map f l = Ok l' -> Forall2 (fun x y => f x = Ok y) l l'.
Proof.
  revert l'. induction l as [| x l IH]; intros l' H; simpl in H.
  - injection H as <-. constructor.
  - destruct (f x) as [e | y] eqn:Hx; [discriminate |]. simpl in H.
    destruct (result_map f l) as [e | ys] eqn:Hl; [discriminate |].
    simpl in H. injection H as <-. constructor; [exact Hx | now apply IH].
Qed.

Lemma digit_not_space (b : byte) : is_digit b = true -> is_space b = false.
Proof. destruct b; simpl; intros H; try reflexivity; discriminate H. Qed.

Lemma scan_digits_all (l : list byte) :
  forall (prev : scanned) (acc : Z) (n : nat),
    forallb is_digit l = true ->
    prev <> SUnderscore ->
    scan_digits l prev acc n =
      Some (fold_left (fun acc b => 10 * acc + from_option id 0 (digit_val b)) l acc,
            (n + length l)%nat, []).
Proof.
  induction l as [| b l IH]; intros prev acc n Hall Hprev.
  - simpl. rewrite Nat.add_0_r. destruct prev; [reflexivity | reflexivity | congruence].
  - simpl in Hall. apply andb_prop in Hall as [Hb Hl].
    unfold is_digit in Hb. cbn [scan_digits].
    destruct (digit_val b) as [d |] eqn:Hd; [| discriminate].
    rewrite (IH SDigit) by (assumption || discriminate).
    cbn [fold_left length]. rewrite Hd. simpl.
    repeat f_equal. lia.
Qed.

(** [int(b)] on a plain decimal numeral is the number it denotes. *)
Lemma py_int_decimal (l : list byte) :
  is_decimal l = true -> py_int l = Some (decimal_value l).
Proof.
  unfold is_decimal. intros H.
  apply andb_prop in H as [H Hmax]. apply andb_prop in H as [Hall Hpos].
  destruct l as [| b l]; [discriminate Hpos |].
  assert (Hb : is_digit b = true) by (simpl in Hall; now apply andb_prop in Hall).
  unfold py_int.
  assert (Hskip : skip_space (b :: l) = b :: l).
  { simpl. now rewrite (digit_not_space b Hb). }
  rewrite Hskip.
  assert (Hsign : (match b :: l with
                   | x2d :: l' => (-1, l')
                   | x2b :: l' => (1, l')
                   | _ => (1, b :: l)
                   end) = (1, b :: l)).
  { destruct b; try reflexivity; discriminate Hb. }
  rewrite Hsign.
  rewrite (scan_digits_all (b :: l) SNothing 0 0 Hall) by discriminate.
  cbn [Nat.add length skip_space].
  apply Nat.leb_le in Hmax. simpl in Hmax.
  destruct (Nat.ltb_spec int_max_str_digits (S (length l))) as [Hlt | _]; [lia |].
  unfold decimal_value. now rewrite Z.mul_1_l.
Qed.

Lemma py_getitem_nonneg {A} (l : list A) (i : Z) (a : A) :
  0 <= i -> py_getitem l i = Ok a -> l !! Z.to_nat i = Some a.
Proof.
  intros Hi. unfold py_getitem.
  destruct (Z.ltb_spec i 0); [lia |].
  destruct (_ || _); [discriminate |].
  destruct (l !! Z.to_nat i); [intros [= <-]; reflexivity | discriminate].
Qed.

Lemma decimal_value_nonneg (l : list byte) : 0 <= decimal_value l.
Proof.
  unfold decimal_value.
  assert (G : forall acc, 0 <= acc ->
            0 <= fold_left (fun acc b => 10 * acc + from_option id 0 (digit_val b)) l acc).
  { induction l as [| b l IH]; intros acc Hacc; simpl; [exact Hacc |].
    apply IH. destruct b; simpl; lia. }
  apply G. lia.
Qed.

(** C5, as the code has it.  When [ParseE] returns a declaration, its
    parameters are the tokens after the first, one for one and in order;
    the [input] flag of a parameter is set exactly when its token starts
    with ['@'], so a ['@'] token is an input parameter and any other
    token (the empty one included) an output parameter; and when the
    rest of the token is a decimal numeral, the parameter type is the
    entry of the type table at that index. *)
Theorem ParseE_parameters (data : list byte) (tys : list IFPSType) (d : DeclSpec) :
  ParseE data tys = Ok d ->
  Forall2
    (fun tok p =>
       dsp_input p = starts_with_at tok /\
       (is_decimal (drop 1 tok) = true ->
        exists t, tys !! Z.to_nat (decimal_value (drop 1 tok)) = Some t /\
                  dsp_type p = Some t))
    (tail (split_space data)) (ds_parameters d).
Proof.
  unfold ParseE. intros H.
  destruct (split_space data) as [| first decl]; [discriminate |].
  destruct (match py_int first with
            | Some r => (r <? 0, r)
            | None => (true, 0)
            end) as [v rt].
  destruct (if negb v then _ else _) as [e | return_type]; [discriminate |].
  simpl in H.
  destruct (result_map (ParseE_param tys) decl) as [e | ps] eqn:Hps;
    [discriminate |].
  simpl in H. injection H as <-. simpl.
  apply result_map_Forall2 in Hps.
  eapply Forall2_impl; [exact Hps |].
  intros tok p Hp. unfold ParseE_param in Hp.
  destruct (py_int (drop 1 tok)) as [i |] eqn:Hi.
  - destruct (py_getitem tys i) as [e | t] eqn:Ht; [discriminate |].
    simpl in Hp. injection Hp as <-. simpl. split; [reflexivity |].
    intros Hdec. rewrite (py_int_decimal _ Hdec) in Hi. injection Hi as <-.
    exists t. split; [| reflexivity].
    apply py_getitem_nonneg; [apply decimal_value_nonneg | exact Ht].
  - simpl in Hp. injection Hp as <-. simpl. split; [reflexivity |].
    intros Hdec. rewrite (py_int_decimal _ Hdec) in Hi. discriminate.
Qed.

Lemma ParseE_parameters_witness :
  Forall2
    (fun tok p =>
       dsp_input p = starts_with_at tok /\
       (is_decimal (drop 1 tok) = true ->
        exists t, [TPrimitive U08; TPrimitive S16]
                    !! Z.to_nat (decimal_value (drop 1 tok)) = Some t /\
                  dsp_type p = Some t))
    [[x40; x31]; [x21; x30]]
    [mkDeclSpecParam true (Some (TPrimitive S16));
     mkDeclSpecParam false (Some (TPrimitive U08))].
Proof.
  apply (ParseE_parameters
           [x2d; x31; x20; x40; x31; x20; x21; x30]
           [TPrimitive U08; TPrimitive S16]
           (mkDeclSpec true
              [mkDeclSpecParam true (Some (TPrimitive S16));
               mkDeclSpecParam false (Some (TPrimitive U08))]
              "" None None None None false None false false)).
  reflexivity.
Defined.

(** C5 as stated fails: in the declaration [b'-1 @0'] the only
    parameter token starts with ['@'], and the parameter parsed from it
    has its [input] flag set, so it is not an output parameter. *)
Lemma ParseE_at_token_is_input :
  exists d p,
    ParseE [x2d; x31; x20; x40; x30] [TPrimitive U08] = Ok d /\
    tail (split_space [x2d; x31; x20; x40; x30]) = [[x40; x30]] /\
    ds_parameters d = [p] /\
    dsp_input p <> false.
Proof.
  eexists. eexists. repeat split; try reflexivity. simpl. discriminate.
Qed.

(** ** Stack validation *)

Lemma check_operand_spec (name : string) (offset stack : Z) (k : nat) (a : arg) :
  (exceeds_depth stack a = false /\ check_operand name offset stack k a = Ok tt) \/
  (exceeds_depth stack a = true /\
   exists i, stack < i /\
     check_operand name offset stack k a =
       Err (StackUnderflow name offset k i stack)).
Proof.
  unfold check_operand, exceeds_depth.
  destruct a as [op | | | | | |]; try (left; split; reflexivity).
  destruct (op_variant op) as [v |]; [| left; split; reflexivity].
  destruct (bool_decide (v_type v = Local)); simpl; [| left; split; reflexivity].
  destruct (Z.leb_spec (v_index v) stack) as [Hle | Hgt].
  - left. split; [apply Z.ltb_ge; lia | reflexivity].
  - right. split; [apply Z.ltb_lt; lia |].
    exists (v_index v). split; [lia | reflexivity].
Qed.

Lemma check_operands_spec (name : string) (offset stack : Z) (ops : list arg) :
  forall k,
    (existsb (exceeds_depth stack) ops = false /\
     check_operands name offset stack k ops = Ok tt) \/
    (existsb (exceeds_depth stack) ops = true /\
     exists k' i, stack < i /\
       check_operands name offset stack k ops =
         Err (StackUnderflow name offset k' i stack)).
Proof.
  induction ops as [| a ops IH]; intros k; simpl.
  - left. split; reflexivity.
  - destruct (check_operand_spec name offset stack k a) as [[Ha Hc] | [Ha (i & Hi & Hc)]];
      rewrite Ha, Hc; simpl.
    + apply IH.
    + right. split; [reflexivity |]. exists k, i. split; [exact Hi | reflexivity].
Qed.

Lemma validate_stack_spec (name : string) (body : list Instruction) :
  (existsb underflows body = false /\ validate_stack name body = Ok tt) \/
  (existsb underflows body = true /\
   exists offset k i stack, stack < i /\
     validate_stack name body = Err (StackUnderflow name offset k i stack)).
Proof.
  induction body as [| insn body IH]; simpl.
  - left. split; reflexivity.
  - unfold underflows at 1 3.
    destruct (insn_stack insn) as [stack |]; simpl.
    + destruct (check_operands_spec name (insn_offset insn) stack
                  (insn_operands insn) 0)
        as [[Ha Hc] | [Ha (k & i & Hi & Hc)]]; rewrite Ha, Hc; simpl.
      * exact IH.
      * right. split; [reflexivity |].
        exists (insn_offset insn), k, i, stack. split; [exact Hi | reflexivity].
    + exact IH.
Qed.

Lemma underflows_iff (insn : Instruction) :
  underflows insn = true <->
  exists s op v,
    insn_stack insn = Some s /\ In (AOperand op) (insn_operands insn) /\
    op_variant op = Some v /\ v_type v = Local /\ s < v_index v.
Proof.
  unfold underflows. split.
  - destruct (insn_stack insn) as [s |]; [| discriminate].
    intros H. apply existsb_exists in H as (a & Hin & Ha).
    unfold exceeds_depth in Ha.
    destruct a as [op | | | | | |]; try discriminate.
    destruct (op_variant op) as [v |] eqn:Hv; [| discriminate].
    apply andb_prop in Ha as [Hl Hi].
    apply bool_decide_eq_true in Hl. apply Z.ltb_lt in Hi.
    exists s, op, v. auto.
  - intros (s & op & v & Hs & Hin & Hv & Hl & Hi). rewrite Hs.
    apply existsb_exists. exists (AOperand op). split; [exact Hin |].
    unfold exceeds_depth. rewrite Hv.
    apply andb_true_intro. split;
      [now apply bool_decide_eq_true | now apply Z.ltb_lt].
Qed.

(** C3, as the code has it.  The validation loop raises nothing but the
    stack-underflow [IndexError]; it raises it exactly when some
    instruction with a known depth [s] has an [Operand] whose variant
    is a local of index greater than [s]; and when it passes, the
    variant of every [Operand] of every instruction with a known depth
    [s], if a local, has an index of at most [s].  (The sub-index of an
    operand indexed by a variable is not inspected.) *)
Theorem validate_stack_underflow (name : string) (body : list Instruction) :
  (validate_stack name body = Ok tt \/
   exists offset k i s,
     s < i /\ validate_stack name body = Err (StackUnderflow name offset k i s)) /\
  ((exists e, validate_stack name body = Err e) <->
   exists insn s op v,
     In insn body /\ insn_stack insn = Some s /\
     In (AOperand op) (insn_operands insn) /\
     op_variant op = Some v /\ v_type v = Local /\ s < v_index v) /\
  (validate_stack name body = Ok tt ->
   forall insn s op v,
     In insn body -> insn_stack insn = Some s ->
     In (AOperand op) (insn_operands insn) ->
     op_variant op = Some v -> v_type v = Local -> v_index v <= s).
Proof.
  assert (Hex : existsb underflows body = true <->
                exists insn s op v,
                  In insn body /\ insn_stack insn = Some s /\
                  In (AOperand op) (insn_operands insn) /\
                  op_variant op = Some v /\ v_type v = Local /\ s < v_index v).
  { rewrite existsb_exists. split.
    - intros (insn & Hin & Hu). apply underflows_iff in Hu
        as (s & op & v & H1 & H2 & H3 & H4 & H5).
      exists insn, s, op, v. auto 10.
    - intros (insn & s & op & v & Hin & H1 & H2 & H3 & H4 & H5).
      exists insn. split; [exact Hin |]. apply underflows_iff.
      exists s, op, v. auto. }
  destruct (validate_stack_spec name body)
    as [[Hb Hv] | [Hb (offset & k & i & s & Hi & Hv)]].
  - split; [left; exact Hv |]. split.
    + split.
      * intros [e He]. rewrite Hv in He. discriminate.
      * intros H. apply Hex in H. congruence.
    + intros _ insn s op v Hin Hs Hop Hvar Hl.
      destruct (Z.le_gt_cases (v_index v) s) as [Hle | Hgt]; [exact Hle |].
      assert (existsb underflows body = true)
        by (apply Hex; exists insn, s, op, v; auto 10).
      congruence.
  - split; [right; exists offset, k, i, s; auto |]. split.
    + split; [intros _; now apply Hex | intros _; eauto].
    + intros H. rewrite Hv in H. discriminate.
Qed.

Lemma validate_stack_underflow_witness :
  exists e, validate_stack "F0" (at_depth 0 body_inc_local2) = Err e.
Proof.
  apply (proj1 (proj2 (validate_stack_underflow "F0" (at_depth 0 body_inc_local2)))).
  exists (with_stack (Some 0) (decoded 0 Inc 6 [local_operand 2] false)), 0,
         (mkOperand OT_Variant (Some (mkVariant 2 Local)) None None),
         (mkVariant 2 Local).
  repeat split; simpl; auto; lia.
Defined.

(** C3 as stated fails in both of its parts.  [Inc LocalVar0] at depth 0
    references a local whose index is not below the depth, and
    [Inc GlobalVar0[LocalVar5]] at depth 0 references one in its
    sub-index; the validation passes on both, and so does the whole
    analysis of the two functions. *)
Lemma validate_stack_passes_at_depth :
  validate_stack "F0" (at_depth 0 body_inc_local0) = Ok tt /\
  existsb spec_underflows (at_depth 0 body_inc_local0) = true /\
  validate_stack "F0" (at_depth 0 body_inc_indexed) = Ok tt /\
  existsb spec_underflows (at_depth 0 body_inc_indexed) = true /\
  fn_body (snd (get_basic_blocks recursion_limit
             (_load_functions_new "F0" None (Some body_inc_local0) false None)))
    = Some (at_depth 0 body_inc_local0) /\
  (exists bbs,
     fst (get_basic_blocks recursion_limit
            (_load_functions_new "F0" None (Some body_inc_local0) false None))
       = Ok (OBlocks bbs)) /\
  (exists bbs,
     fst (get_basic_blocks recursion_limit
            (_load_functions_new "F0" None (Some body_inc_indexed) false None))
       = Ok (OBlocks bbs)).
Proof.
  repeat split; try (vm_compute; reflexivity);
    eexists; vm_compute; reflexivity.
Qed.

Example stack_underflow_scenario :
  fst (get_basic_blocks recursion_limit
         (_load_functions_new "F0" None (Some body_inc_local2) false None))
    = Err (StackUnderflow "F0" 0 0 2 0).
Proof. vm_compute. reflexivity. Qed.

(** The branch-and-stack scenario of the specification: block 0 is
    entered at depth 0, the block after [JumpPop2] at depth 0, and the
    instructions see the depths 0, 1, 2, 0. *)
Example branch_and_stack_scenario :
  get_basic_blocks recursion_limit
    (_load_functions_new "F0" None (Some body_push_push_jumppop2) false None)
  = (Ok (OBlocks [(0, mkBasicBlock 0 (Some 0) [0%nat; 1%nat; 2%nat] [] [17]);
                  (17, mkBasicBlock 17 (Some 0) [3%nat] [0] [])]),
     mkFunction "F0" None
       (Some [with_stack (Some 0) (decoded 0 Push 6 [global_operand 0] false);
              with_stack (Some 1) (decoded 6 Push 6 [global_operand 0] false);
              with_stack (Some 2) (decoded 12 JumpPop2 5 [AInt 17] false);
              with_stack (Some 0) (decoded 17 Ret 1 [] true)])
       (OBool false)
       (OBlocks [(0, mkBasicBlock 0 (Some 0) [0%nat; 1%nat; 2%nat] [] [17]);
                 (17, mkBasicBlock 17 (Some 0) [3%nat] [0] [])])).
Proof. vm_compute. reflexivity. Qed.

(** ** Basic-block construction *)

Lemma od_get_set_eq {A} (d : odict A) (k : Z) (a : A) :
  od_get (od_set d k a) k = Some a.
Proof.
  induction d as [| [k' a'] d IH]; simpl.
  - now rewrite Z.eqb_refl.
  - destruct (Z.eqb_spec k' k) as [-> | Hne]; simpl.
    + now rewrite Z.eqb_refl.
    + destruct (Z.eqb_spec k' k); [contradiction | exact IH].
Qed.

Lemma od_get_set_ne {A} (d : odict A) (k k' : Z) (a : A) :
  k <> k' -> od_get (od_set d k a) k' = od_get d k'.
Proof.
  intros Hne. induction d as [| [k0 a0] d IH]; simpl.
  - destruct (Z.eqb_spec k k'); [contradiction | reflexivity].
  - destruct (Z.eqb_spec k0 k) as [-> | Hk]; simpl.
    + destruct (Z.eqb_spec k k'); [contradiction | reflexivity].
    + destruct (Z.eqb_spec k0 k'); [reflexivity | exact IH].
Qed.

Lemma od_get_update {A} (d : odict A) (k k' : Z) (f : A -> A) :
  od_get (od_update d k f) k' =
    if k' =? k then f <$> od_get d k' else od_get d k'.
Proof.
  induction d as [| [k0 a0] d IH]; simpl.
  - now destruct (k' =? k).
  - destruct (Z.eqb_spec k0 k) as [E0 | Hk]; simpl;
      destruct (Z.eqb_spec k0 k') as [E1 | Hk'];
      destruct (Z.eqb_spec k' k) as [E2 | Hk2];
      try reflexivity; try congruence; rewrite IH;
      destruct (Z.eqb_spec k' k); try reflexivity; congruence.
Qed.

(** Whatever instruction came before, a jump target that has no block
    yet gets a new block whose one source is the block that was current,
    and that block gets the new one as a target: the first loop has no
    test of the previous instruction on this path. *)
Lemma build_insn_new_block_linked (st : build_state) (pos : nat)
    (insn : Instruction) (cur : BasicBlock) :
  od_get (bs_bbs st) (insn_offset insn) = None ->
  od_get (bs_bbs st) (bs_bb st) = Some cur ->
  insn_jumptarget insn = true ->
  branches insn = false ->
  let st' := snd (build_insn pos insn st) in
  bs_bb st' = insn_offset insn /\
  od_get (bs_bbs st') (insn_offset insn) =
    Some (mkBasicBlock (insn_offset insn) None [pos] [bs_bb st] []) /\
  od_get (bs_bbs st') (bs_bb st) = Some (add_target (insn_offset insn) cur).
Proof.
  intros Hnone Hcur Hjt Hbr.
  assert (Hne : insn_offset insn <> bs_bb st) by congruence.
  unfold build_insn. rewrite Hnone, Hjt, Hbr. simpl.
  split; [reflexivity |]. split.
  - rewrite !od_get_update, Z.eqb_refl.
    destruct (Z.eqb_spec (insn_offset insn) (bs_bb st)); [contradiction |].
    rewrite od_get_set_eq. reflexivity.
  - rewrite !od_get_update.
    destruct (Z.eqb_spec (bs_bb st) (insn_offset insn)); [congruence |].
    rewrite Z.eqb_refl, od_get_set_ne by congruence.
    rewrite Hcur. reflexivity.
Qed.

(** C6 (the code departs from it).  In [body_jump_over] the [Nop] at
    offset 5 is a jump target with no block when the walk reaches it,
    and the instruction before it is an unconditional [Jump].  The
    first loop nevertheless links block 0, which ends in that [Jump], to
    the new block 5: 5 is among the targets of block 0 and 0 among the
    sources of block 5, and the map that [get_basic_blocks] returns has
    this edge. *)
Theorem new_block_linked_after_jump :
  jumps (decoded 0 Jump 5 [AInt 6] false) = true /\
  build_blocks body_jump_over build_start =
    (Ok tt,
     mkBuild [(0, mkBasicBlock 0 None [0%nat] [] [6; 5]);
              (6, mkBasicBlock 6 None [2%nat] [0] [5]);
              (5, mkBasicBlock 5 None [1%nat] [0; 6] [])] 6) /\
  fst (get_basic_blocks recursion_limit
         (_load_functions_new "F0" None (Some body_jump_over) false None)) =
    Ok (OBlocks [(0, mkBasicBlock 0 (Some 0) [0%nat] [] [6; 5]);
                 (6, mkBasicBlock 6 (Some 0) [2%nat] [0] [5]);
                 (5, mkBasicBlock 5 (Some 0) [1%nat] [0; 6] [])]).
Proof. repeat split; vm_compute; reflexivity. Qed.

(** The same after a [Ret]: block 0 gets block 1 as a target. *)
Example new_block_linked_after_ret :
  fst (get_basic_blocks recursion_limit
         (_load_functions_new "F0" None (Some body_ret_then_loop) false None)) =
    Ok (OBlocks [(0, mkBasicBlock 0 (Some 0) [0%nat] [] [1]);
                 (1, mkBasicBlock 1 (Some 0) [1%nat; 2%nat] [0; 1] [1])]).
Proof. vm_compute. reflexivity. Qed.

(** The edge reaches the stack propagation: block 10 of
    [body_push_jump_over] is entered at depth 0 by the backward jump,
    the edge from block 0 then delivers depth 1, and the block ends
    with an unknown depth. *)
Example new_block_edge_poisons_depth :
  fst (get_basic_blocks recursion_limit
         (_load_functions_new "F0" None
            (Some (body_push_jump_over (TPrimitive U32))) false None)) =
    Ok (OBlocks [(0, mkBasicBlock 0 (Some 0) [0%nat; 1%nat] [] [11; 10]);
                 (11, mkBasicBlock 11 (Some 1) [3%nat; 4%nat] [0] [10]);
                 (10, mkBasicBlock 10 None [2%nat] [0; 11] [])]).
Proof. vm_compute. reflexivity. Qed.

(** ** The block map of a function *)

Lemma od_get_In {A} (d : odict A) (k : Z) (a : A) :
  od_get d k = Some a -> In (k, a) d.
Proof.
  induction d as [| [k0 a0] d IH]; simpl; [discriminate |].
  destruct (Z.eqb_spec k0 k) as [-> | _].
  - intros [= ->]. now left.
  - intros H. right. now apply IH.
Qed.

Lemma od_set_new {A} (d : odict A) (k : Z) (a : A) :
  od_get d k = None -> od_set d k a = d ++ [(k, a)].
Proof.
  induction d as [| [k0 a0] d IH]; simpl; [reflexivity |].
  destruct (k0 =? k); [discriminate |].
  intros H. now rewrite IH.
Qed.

Lemma od_get_del_ne {A} (d : odict A) (k k' : Z) :
  k <> k' -> od_get (od_del d k) k' = od_get d k'.
Proof.
  intros Hne. unfold od_del.
  induction d as [| [k0 a0] d IH]; [reflexivity |].
  simpl.
  destruct (Z.eqb_spec k0 k) as [-> | Hk]; simpl.
  - destruct (Z.eqb_spec k k'); [contradiction | exact IH].
  - destruct (k0 =? k'); [reflexivity | exact IH].
Qed.

Section HoldsFirst.

Lemma holds_first_update (bbs : odict BasicBlock) (k : Z)
    (f : BasicBlock -> BasicBlock) :
  keeps_first f -> holds_first bbs -> holds_first (od_update bbs k f).
Proof.
  intros Hf [[b Hb] Hall]. split.
  - rewrite od_get_update, Hb. destruct (0 =? k); simpl; eauto.
  - unfold od_update. apply Forall_map.
    eapply Forall_impl; [exact Hall |].
    intros [k0 b0] H. simpl in *.
    destruct (k0 =? k); simpl; auto.
Qed.

Lemma holds_first_set_new (bbs : odict BasicBlock) (k : Z) (b : BasicBlock) :
  od_get bbs k = None -> holds_first bbs -> holds_first (od_set bbs k b).
Proof.
  intros Hk [[b0 Hb0] Hall].
  assert (Hne : k <> 0) by congruence.
  split.
  - exists b0. now rewrite od_get_set_ne.
  - rewrite od_set_new by exact Hk. apply Forall_app. split; [exact Hall |].
    constructor; [| constructor]. simpl. intros. contradiction.
Qed.

Lemma holds_first_del (bbs : odict BasicBlock) (k : Z) :
  k <> 0 -> holds_first bbs -> holds_first (od_del bbs k).
Proof.
  intros Hne [[b0 Hb0] Hall]. split.
  - exists b0. now rewrite od_get_del_ne.
  - unfold od_del. clear Hb0.
    induction Hall as [| kb l Hkb Hl IHl]; simpl; [constructor |].
    destruct (negb (fst kb =? k)); [constructor |]; assumption.
Qed.

Lemma keeps_first_add_source (s : Z) : keeps_first (add_source s).
Proof. intros b H. exact H. Qed.

Lemma keeps_first_add_target (t : Z) : keeps_first (add_target t).
Proof. intros b H. exact H. Qed.

Lemma keeps_first_pop_target (t : Z) : keeps_first (pop_target t).
Proof. intros b H. exact H. Qed.


Lemma keeps_first_append_insn (pos : nat) : keeps_first (append_insn pos).
Proof. intros b H. simpl. apply in_or_app. now left. Qed.

Lemma holds_first_link_targets (bb : Z) (targets : list Z) :
  forall bbs, holds_first bbs -> holds_first (link_targets bb targets bbs).
Proof.
  unfold link_targets.
  induction targets as [| t targets IH]; intros bbs H; simpl; [exact H |].
  apply IH.
  apply holds_first_update; [apply keeps_first_add_source |].
  apply holds_first_update; [apply keeps_first_add_target |].
  destruct (od_get bbs t) eqn:Ht; [exact H |].
  now apply holds_first_set_new.
Qed.

Lemma holds_first_build_insn (pos : nat) (insn : Instruction) (st : build_state) :
  holds_first (bs_bbs st) -> holds_first (bs_bbs (snd (build_insn pos insn st))).
Proof.
  intros H. unfold build_insn.
  set (sel := match od_get (bs_bbs st) (insn_offset insn) with
              | Some _ => _
              | None => _
              end).
  assert (Hsel : holds_first (fst sel)).
  { subst sel. destruct (od_get (bs_bbs st) (insn_offset insn)) eqn:Hget;
      [exact H |].
    destruct (insn_jumptarget insn); [| exact H]. simpl.
    apply holds_first_update; [apply keeps_first_add_target |].
    apply holds_first_update; [apply keeps_first_add_source |].
    now apply holds_first_set_new. }
  destruct sel as [bbs bb]. simpl in Hsel.
  assert (Happ : holds_first (od_update bbs bb (append_insn pos)))
    by (apply holds_first_update; [apply keeps_first_append_insn | exact Hsel]).
  destruct (negb (branches insn)); [exact Happ |].
  destruct (insn_operands insn) as [| a ops]; [exact Happ |].
  destruct a; try exact Happ.
  simpl. now apply holds_first_link_targets.
Qed.

Lemma for_each_invariant {S A} (P : S -> Prop) (l : list A)
    (body : A -> M S unit) :
  (forall x s, P s -> P (snd (body x s))) ->
  forall s, P s -> P (snd (for_each l body s)).
Proof.
  intros Hbody. induction l as [| x l IH]; intros s Hs; simpl; [exact Hs |].
  unfold bind. specialize (Hbody x s Hs).
  destruct (body x s) as [[e | u] s']; simpl in *; [exact Hbody |].
  now apply IH.
Qed.

Lemma holds_first_build_blocks (insn : Instruction) (body : list Instruction) :
  insn_offset insn = 0 ->
  holds_first (bs_bbs (snd (build_blocks (insn :: body) build_start))).
Proof.
  intros Hoff. unfold build_blocks. rewrite imap_cons.
  cbn [for_each fst snd]. unfold bind.
  assert (H0 : holds_first (bs_bbs (snd (build_insn 0 insn build_start)))).
  { unfold build_insn, build_start. cbn [bs_bbs bs_bb od_get].
    rewrite Hoff. cbn [od_get Z.eqb od_update map fst snd append_insn
                       BasicBlock_new bb_body app].
    assert (Hbase : holds_first
              [(0, mkBasicBlock (bb_offset (BasicBlock_new 0))
                                (bb_stack (BasicBlock_new 0)) [0%nat]
                                (bb_sources (BasicBlock_new 0))
                                (bb_targets (BasicBlock_new 0)))]).
    { split; [eexists; reflexivity |].
      constructor; [| constructor]. simpl. auto. }
    destruct (negb (branches insn)); [exact Hbase |].
    destruct (insn_operands insn) as [| a ops]; [exact Hbase |].
    destruct a; try exact Hbase.
    cbn [snd bs_bbs]. now apply holds_first_link_targets. }
  destruct (build_insn 0 insn build_start) as [[e | u] st]; [exact H0 |].
  apply (for_each_invariant (fun st => holds_first (bs_bbs st))); [| exact H0].
  intros [pos i] s Hs. now apply holds_first_build_insn.
Qed.

Lemma holds_first_prune (bbs : odict BasicBlock) :
  holds_first bbs -> holds_first (prune_blocks bbs).
Proof.
  intros H. unfold prune_blocks.
  assert (G : forall snap acc,
            Forall (fun kb => fst kb = 0 -> In 0%nat (bb_body (snd kb))) snap ->
            holds_first acc ->
            holds_first
              (fold_left
                 (fun acc ob =>
                    match bb_body (snd ob) with
                    | _ :: _ => acc
                    | [] =>
                        fold_left
                          (fun acc source =>
                             od_update acc source (pop_target (fst ob)))
                          (bb_sources (snd ob)) (od_del acc (fst ob))
                    end) snap acc)).
  { induction snap as [| [k b] snap IH]; intros acc Hsnap Hacc; [exact Hacc |].
    apply Forall_cons in Hsnap as [Hkb Hsnap]. simpl in *.
    apply IH; [exact Hsnap |].
    destruct (bb_body b) as [| p ps] eqn:Hbody; [| exact Hacc].
    assert (Hk : k <> 0) by (intros ->; destruct (Hkb eq_refl)).
    assert (Hdel : holds_first (od_del acc k)) by now apply holds_first_del.
    revert Hdel. generalize (od_del acc k). generalize (bb_sources b).
    induction l as [| s l IHl]; intros o Ho; simpl; [exact Ho |].
    apply IHl. apply holds_first_update; [apply keeps_first_pop_target | exact Ho]. }
  apply G; [apply H | exact H].
Qed.


End HoldsFirst.


(** A function record with an attribute block gives its attribute list
    to the [_bbs] field, and [get_basic_blocks] returns that list. *)
Lemma get_basic_blocks_of_attributed (limit : nat) (name : string)
    (decl : option DeclSpec) (body : option (list Instruction))
    (exported : bool) (attributes : list Attribute) :
  let f := _load_functions_new name decl body exported (Some attributes) in
  fn_attributes f = OBool exported /\
  fn__bbs f = OAttrs attributes /\
  get_basic_blocks limit f = (Ok (OAttrs attributes), f).
Proof. repeat split. Qed.

(** C1 (the code departs from it).  The function decoded from a record
    with the [HasAttrs] tag, an empty attribute block and the body
    [Ret] is constructed as [Function(name, decl, body, exported,
    attributes)]; the dataclass has no [exported] field, so [exported]
    lands in [attributes] and the attribute list in [_bbs].
    [get_basic_blocks] finds [_bbs] set and returns the attribute list:
    no block map, and no block 0 covering the instruction at offset 0.
    The same function without the attribute block gets its block 0. *)
Theorem attributed_function_has_no_block_0 :
  let f := _load_functions_new "F0" None (Some body_ret) false (Some []) in
  get_basic_blocks recursion_limit f = (Ok (OAttrs []), f) /\
  ~ covers_offset_0 (OAttrs []) body_ret /\
  covers_offset_0
    (OBlocks [(0, mkBasicBlock 0 (Some 0) [0%nat] [] [])]) body_ret /\
  fst (get_basic_blocks recursion_limit
         (_load_functions_new "F0" None (Some body_ret) false None))
    = Ok (OBlocks [(0, mkBasicBlock 0 (Some 0) [0%nat] [] [])]).
Proof.
  repeat split.
  - intros (bbs & bb & pos & insn & H & _). discriminate H.
  - exists [(0, mkBasicBlock 0 (Some 0) [0%nat] [] [])],
           (mkBasicBlock 0 (Some 0) [0%nat] [] []), 0%nat,
           (decoded 0 Ret 1 [] false).
    repeat split. simpl. auto.
Qed.

(** ** The container header *)

Lemma remaining_advance (n : nat) (r : StructReader) :
  remaining (advance n r) = drop n (remaining r).
Proof. unfold remaining, advance. simpl. now rewrite drop_drop. Qed.

Lemma advance_advance (a b : nat) (r : StructReader) :
  advance b (advance a r) = advance (a + b) r.
Proof. unfold advance. simpl. f_equal. lia. Qed.

Lemma reader_read_ok (n : nat) (r : StructReader) :
  (n <= length (remaining r))%nat ->
  reader_read n r = (Ok (take n (remaining r)), advance n r).
Proof.
  intros H. unfold reader_read.
  destruct (Nat.ltb_spec (length (remaining r)) n); [lia | reflexivity].
Qed.

Lemma bind_ok {S A B} (m : M S A) (k : A -> M S B) (s s' : S) (a : A) :
  m s = (Ok a, s') -> (m ≫= k) s = k a s'.
Proof. intros H. unfold mbind, M_bind, bind. now rewrite H. Qed.

Lemma reader_u32_ok (n : nat) (r : StructReader) :
  (n + 4 <= length (remaining r))%nat ->
  reader_u32 (advance n r) =
    (Ok (le_value (take 4 (drop n (remaining r)))), advance (n + 4) r).
Proof.
  intros H. unfold reader_u32.
  erewrite bind_ok.
  2:{ apply reader_read_ok. rewrite remaining_advance, length_drop. lia. }
  rewrite remaining_advance, advance_advance. reflexivity.
Qed.

(** What [read_header] does once 28 bytes are known to be there. *)
Lemma read_header_28 (cdc : string) (r : StructReader) :
  28 <= remaining_bytes r ->
  read_header cdc r =
    if negb (bytes_eqb (header_magic r) Magic)
    then (Err (BadMagic (header_magic r)), advance 4 r)
    else if negb (in_range MinVer (MaxVer + 1) (header_field 0 r))
         then (Err (UnsupportedVersion (header_field 0 r)), advance 28 r)
         else (Ok (header_object cdc r), advance 28 r).
Proof.
  intros H. unfold remaining_bytes in H.
  assert (Hlen : (28 <= length (remaining r))%nat) by lia.
  unfold read_header.
  destruct (Z.ltb_spec (remaining_bytes r) 28) as [Hlt | _];
    [unfold remaining_bytes in Hlt; lia |].
  erewrite bind_ok by (apply reader_read_ok; lia).
  fold (header_magic r).
  destruct (negb (bytes_eqb (header_magic r) Magic)); [reflexivity |].
  do 6 (erewrite bind_ok by (apply reader_u32_ok; lia)).
  cbn [Nat.add].
  change (le_value (take 4 (drop 4 (remaining r)))) with (header_field 0 r).
  destruct (negb (in_range MinVer (MaxVer + 1) (header_field 0 r)));
    reflexivity.
Qed.

Lemma in_range_versions (v : Z) :
  in_range MinVer (MaxVer + 1) v = true <-> 12 <= v <= 23.
Proof.
  unfold in_range, MinVer, MaxVer.
  rewrite andb_true_iff, Z.leb_le, Z.ltb_lt. lia.
Qed.

(** C8.  With fewer than 28 bytes left the parse fails with the
    truncated-header error; with 28 bytes and a magic other than
    [IFPS] it fails with the bad-magic error; with 28 bytes, the right
    magic and a version outside [12, 23] it fails with the
    unsupported-version error; and with 28 bytes, the right magic and a
    version in [12, 23] the header is decoded, the cursor stands after
    its 28 bytes, and the outcome of the parse is the outcome of loading
    the tables. *)
Theorem header_checks (load_tables : IFPSFile -> M StructReader IFPSFile)
    (cdc : string) (r : StructReader) :
  (remaining_bytes r < 28 ->
   IFPSFile_init load_tables cdc r = (Err TruncatedHeader, r)) /\
  (28 <= remaining_bytes r -> header_magic r <> Magic ->
   fst (IFPSFile_init load_tables cdc r) = Err (BadMagic (header_magic r))) /\
  (28 <= remaining_bytes r -> header_magic r = Magic ->
   ~ (12 <= header_field 0 r <= 23) ->
   fst (IFPSFile_init load_tables cdc r) =
     Err (UnsupportedVersion (header_field 0 r))) /\
  (28 <= remaining_bytes r -> header_magic r = Magic ->
   12 <= header_field 0 r <= 23 ->
   read_header cdc r = (Ok (header_object cdc r), advance 28 r) /\
   IFPSFile_init load_tables cdc r =
     load_tables (header_object cdc r) (advance 28 r)).
Proof.
  unfold IFPSFile_init. repeat split.
  - intros H. unfold mbind, M_bind, bind, read_header.
    destruct (Z.ltb_spec (remaining_bytes r) 28); [reflexivity | lia].
  - intros H Hm. unfold mbind, M_bind, bind. rewrite (read_header_28 cdc r H).
    unfold bytes_eqb. rewrite bool_decide_eq_false_2 by exact Hm. reflexivity.
  - intros H Hm Hv. unfold mbind, M_bind, bind. rewrite (read_header_28 cdc r H).
    unfold bytes_eqb. rewrite bool_decide_eq_true_2 by exact Hm. simpl.
    destruct (in_range MinVer (MaxVer + 1) (header_field 0 r)) eqn:E;
      [apply in_range_versions in E; contradiction | reflexivity].
  - rewrite (read_header_28 cdc r H).
    unfold bytes_eqb. rewrite bool_decide_eq_true_2 by assumption. simpl.
    apply in_range_versions in H1. rewrite H1. reflexivity.
  - unfold mbind, M_bind, bind. rewrite (read_header_28 cdc r H).
    unfold bytes_eqb. rewrite bool_decide_eq_true_2 by assumption. simpl.
    apply in_range_versions in H1. rewrite H1. reflexivity.
Qed.

Lemma header_checks_witness :
  IFPSFile_init load_nothing "utf8" (mkReader (take 27 empty_unit) 0)
    = (Err TruncatedHeader, mkReader (take 27 empty_unit) 0) /\
  fst (IFPSFile_init load_nothing "utf8" (mkReader (x00 :: empty_unit) 0))
    = Err (BadMagic [x00; x49; x46; x50]) /\
  fst (IFPSFile_init load_nothing "utf8"
         (mkReader (<[4%nat := x0b]> empty_unit) 0))
    = Err (UnsupportedVersion 11) /\
  IFPSFile_init load_nothing "utf8" (mkReader empty_unit 0)
    = (Ok (mkIFPSFile "utf8" [] [] [] [] 12 0 0 0 0 0 false),
       mkReader empty_unit 28).
Proof.
  split.
  { apply (proj1 (header_checks load_nothing "utf8"
                    (mkReader (take 27 empty_unit) 0))).
    vm_compute. reflexivity. }
  split.
  { apply (proj1 (proj2 (header_checks load_nothing "utf8"
                           (mkReader (x00 :: empty_unit) 0)))).
    - vm_compute. discriminate.
    - vm_compute. discriminate. }
  split.
  { etransitivity;
      [apply (proj1 (proj2 (proj2 (header_checks load_nothing "utf8"
                (mkReader (<[4%nat := x0b]> empty_unit) 0)))))
      | vm_compute; reflexivity].
    - vm_compute. discriminate.
    - reflexivity.
    - vm_compute. intros [H _]. apply H. reflexivity. }
  etransitivity;
    [apply (proj2 (proj2 (proj2 (header_checks load_nothing "utf8"
              (mkReader empty_unit 0)))))
    | vm_compute; reflexivity].
  - vm_compute. discriminate.
  - reflexivity.
  - vm_compute. split; discriminate.
Defined.

(** * Further properties *)

Set Warnings "-clear-no-such-hyp".

(** ** Variant decoding *)

(** X1.  With the void flag fixed, the variant decoder loses nothing:
    two words that decode to the same variant are the same word. *)
Theorem read_variant_injective (void : bool) (v w : Z) :
  _read_variant void v = _read_variant void w -> v = w.
Proof.
  intros H.
  assert (Hk : v_type (_read_variant void v) = v_type (_read_variant void w))
    by now rewrite H.
  assert (Hi : v_index (_read_variant void v) = v_index (_read_variant void w))
    by now rewrite H.
  rewrite !_read_variant_kind in Hk.
  unfold _read_variant in Hi.
  destruct (Z.ltb_spec v 0x40000000), (Z.ltb_spec w 0x40000000);
    try (simpl in Hi; exact Hi);
    try (destruct (Z.ltb_spec w 0x60000000); discriminate Hk);
    try (destruct (Z.ltb_spec v 0x60000000); discriminate Hk).
  destruct (Z.ltb_spec v 0x60000000), (Z.ltb_spec w 0x60000000);
    try discriminate Hk;
    destruct (Z.leb_spec 0 (v - 0x60000000)), (Z.leb_spec 0 (w - 0x60000000));
    try lia; simpl in Hi; try lia.
  destruct void; unfold Z.lnot in Hi; lia.
Qed.

(** X2.  An argument variant has index 0 only for the word 0x5FFFFFFF
    decoded with the void flag clear (the return-value slot); with the
    void flag set, argument indices start at 1. *)
Theorem argument_index_zero (void : bool) (v : Z) :
  v_type (_read_variant void v) = Argument ->
  (void = true -> 1 <= v_index (_read_variant void v)) /\
  (void = false ->
   0 <= v_index (_read_variant void v) /\
   (v_index (_read_variant void v) = 0 <-> v = 0x5FFFFFFF)).
Proof.
  rewrite _read_variant_kind. unfold _read_variant.
  destruct (Z.ltb_spec v 0x40000000); [discriminate |].
  destruct (Z.ltb_spec v 0x60000000); [| discriminate].
  intros _.
  destruct (Z.leb_spec 0 (v - 0x60000000)); [lia |].
  split; intros ->; simpl; unfold Z.lnot; lia.
Qed.

Lemma argument_index_zero_witness :
  0 <= v_index (_read_variant false 0x5FFFFFFF) /\
  (v_index (_read_variant false 0x5FFFFFFF) = 0 <-> 0x5FFFFFFF = 0x5FFFFFFF).
Proof.
  apply (proj2 (argument_index_zero false 0x5FFFFFFF eq_refl)). reflexivity.
Defined.

(** ** Variable cells *)

Lemma _cast_key_in (self : Variable_) (key : option Z) (value c : PyVal) :
  _cast self key value = Ok c -> key_in key (_keyrange self) = true.
Proof.
  unfold _cast. destruct (key_in key (_keyrange self)); [reflexivity |].
  discriminate.
Qed.

(** X3.  On a cell that is not a set, a successful [set(value, key)]
    (keyed, or unkeyed on a scalar) stores the cast and wrapped value
    under the key: the [get(key)] that follows returns it, and [get] of
    any other key returns what it returned before. *)
Theorem set_then_get_same_key (self self' : Variable_) (value : PyVal)
    (key : option Z) :
  code (type self) <> Set_ ->
  (key = None -> container (type self) = false) ->
  Variable_set value key self = (Ok tt, self') ->
  exists c w,
    _cast self key value = Ok c /\ _wrap self c = Ok w /\
    Variable_get self' key = Ok (DObj w) /\
    forall key',
      key' <> key -> (key' = None -> container (type self) = false) ->
      Variable_get self' key' = Variable_get self key'.
Proof.
  intros Hset Hkey Hs.
  assert (Hitem : Variable_set_item value key self = (Ok tt, self')).
  { unfold Variable_set in Hs. destruct key as [k |]; [exact Hs |].
    rewrite (Hkey eq_refl) in Hs. exact Hs. }
  clear Hs. unfold Variable_set_item in Hitem.
  destruct (decide (code (type self) = Set_)) as [E | _]; [contradiction |].
  destruct (_cast self key value) as [e | c] eqn:Hc; [discriminate |].
  destruct (_wrap self c) as [e | w] eqn:Hw; [discriminate |].
  destruct (data self) as [d | o] eqn:Hd; [| discriminate].
  injection Hitem as <-.
  exists c, w. split; [reflexivity |]. split; [exact Hw |].
  pose proof (_cast_key_in self key value c Hc) as Hin.
  assert (Hget : forall key',
            (key' = None -> container (type self) = false) ->
            forall (s : Variable_) (m : gmap (option Z) PyVal),
              type s = type self -> _keyrange s = _keyrange self ->
              data s = DDict m ->
              Variable_get s key' =
                if key_in key' (_keyrange self)
                then match m !! key' with
                     | Some v => Ok (DObj v)
                     | None => Err PyKeyError
                     end
                else Err IndexOutOfRange).
  { intros key' Hk' s m Ht Hkr Hm. unfold Variable_get. rewrite Ht.
    assert (Hb : bool_decide (key' = None) && container (type self) = false).
    { destruct key' as [k' |]; [reflexivity |].
      now rewrite (Hk' eq_refl), andb_false_r. }
    rewrite Hb.
    destruct (decide (code (type self) = Set_)) as [E | _]; [contradiction |].
    unfold _cast. rewrite Hkr.
    destruct (key_in key' (_keyrange self)); simpl; [| reflexivity].
    now rewrite Hm. }
  split.
  - rewrite (Hget key Hkey _ (<[key := w]> d)) by reflexivity.
    now rewrite Hin, lookup_insert_eq.
  - intros key' Hne Hk'.
    rewrite (Hget key' Hk' _ (<[key := w]> d)) by reflexivity.
    rewrite (Hget key' Hk' self d) by (reflexivity || assumption).
    now rewrite lookup_insert_ne by congruence.
Qed.

Lemma set_then_get_same_key_witness :
  exists c w,
    _cast (mkVariable (TArray (TPrimitive S16)) (inl (mkVariant 0 Global))
             (DDict ∅) (KRange 0x100000000) 0 None None None)
          (Some 3) (PStr [65]) = Ok c /\
    _wrap (mkVariable (TArray (TPrimitive S16)) (inl (mkVariant 0 Global))
             (DDict ∅) (KRange 0x100000000) 0 None None None) c = Ok w /\
    Variable_get
      (mkVariable (TArray (TPrimitive S16)) (inl (mkVariant 0 Global))
         (DDict {[ Some 3 := PInt 65 ]}) (KRange 0x100000000) 0 None None None)
      (Some 3) = Ok (DObj w) /\
    forall key',
      key' <> Some 3 ->
      (key' = None -> container (TArray (TPrimitive S16)) = false) ->
      Variable_get
        (mkVariable (TArray (TPrimitive S16)) (inl (mkVariant 0 Global))
           (DDict {[ Some 3 := PInt 65 ]}) (KRange 0x100000000) 0 None None None)
        key' =
      Variable_get
        (mkVariable (TArray (TPrimitive S16)) (inl (mkVariant 0 Global))
           (DDict ∅) (KRange 0x100000000) 0 None None None) key'.
Proof.
  apply (set_then_get_same_key
           (mkVariable (TArray (TPrimitive S16)) (inl (mkVariant 0 Global))
              (DDict ∅) (KRange 0x100000000) 0 None None None)
           (mkVariable (TArray (TPrimitive S16)) (inl (mkVariant 0 Global))
              (DDict {[ Some 3 := PInt 65 ]}) (KRange 0x100000000) 0
              None None None)
           (PStr [65]) (Some 3)).
  - discriminate.
  - discriminate.
  - vm_compute. reflexivity.
Defined.

Lemma Variable_init_container (ty : IFPSType) (sp : Variant + string) (n : Z) :
  key_bound ty = Some n ->
  container ty = true /\ code ty <> Set_ /\
  Variable_init ty sp =
    Ok (mkVariable ty sp (DDict ∅) (KRange n) 0 None None None).
Proof.
  destruct ty; simpl; try discriminate; intros [= <-];
    repeat split; discriminate.
Qed.

(** X4.  On a container cell, whatever it holds, a key outside the key
    range of its type (the member count of a record, the size of a
    static array, 2^32 for an array) makes [set] raise the index error
    and leave the cell as it was, and makes [get] raise the index
    error. *)
Theorem container_key_out_of_range (ty : IFPSType) (sp : Variant + string)
    (d : pydata) (value : PyVal) (k n : Z) :
  key_bound ty = Some n ->
  ~ (0 <= k < n) ->
  exists self0,
    Variable_init ty sp = Ok self0 /\
    Variable_set value (Some k) (with_data d self0)
      = (Err IndexOutOfRange, with_data d self0) /\
    Variable_get (with_data d self0) (Some k) = Err IndexOutOfRange.
Proof.
  intros Hb Hk.
  destruct (Variable_init_container ty sp n Hb) as (Hc & Hs & Hi).
  eexists. split; [exact Hi |].
  assert (Hin : in_range 0 n k = false).
  { unfold in_range. destruct (Z.leb_spec 0 k), (Z.ltb_spec k n);
      try reflexivity. lia. }
  split.
  - unfold Variable_set, Variable_set_item. simpl.
    destruct (decide (code ty = Set_)); [contradiction |].
    unfold _cast. simpl. rewrite Hin. reflexivity.
  - unfold Variable_get. simpl.
    destruct (decide (code ty = Set_)); [contradiction |].
    unfold _cast. simpl. rewrite Hin. reflexivity.
Qed.

Lemma container_key_out_of_range_witness :
  exists self0,
    Variable_init (TStaticArray (TPrimitive U08) 4 None)
                  (inl (mkVariant 0 Global)) = Ok self0 /\
    Variable_set (PInt 1) (Some 4) (with_data (DDict ∅) self0)
      = (Err IndexOutOfRange, with_data (DDict ∅) self0) /\
    Variable_get (with_data (DDict ∅) self0) (Some 4) = Err IndexOutOfRange.
Proof.
  apply (container_key_out_of_range (TStaticArray (TPrimitive U08) 4 None)
           (inl (mkVariant 0 Global)) (DDict ∅) (PInt 1) 4 4).
  - reflexivity.
  - lia.
Defined.

(** X5.  The integer wrap does not reach the elements of a container:
    [_int_size] is computed from the type code of the cell, which for a
    container is the code of the container, so an integer assigned
    under a valid key of an integer-typed slot is stored and read back
    unchanged, whatever its size. *)
Theorem container_element_not_wrapped (ty : IFPSType) (sp : Variant + string)
    (d : gmap (option Z) PyVal) (z k n : Z) :
  key_bound ty = Some n ->
  0 <= k < n ->
  py_type ty (Some k) = Ok (Some Cint) ->
  exists self0 self',
    Variable_init ty sp = Ok self0 /\
    Variable_set (PInt z) (Some k) (with_data (DDict d) self0) = (Ok tt, self') /\
    Variable_get self' (Some k) = Ok (DObj (PInt z)).
Proof.
  intros Hb Hk Hpy.
  destruct (Variable_init_container ty sp n Hb) as (Hc & Hs & Hi).
  assert (Hin : in_range 0 n k = true).
  { unfold in_range. apply andb_true_intro.
    split; [apply Z.leb_le | apply Z.ltb_lt]; lia. }
  eexists. eexists. split; [exact Hi |]. split.
  - unfold Variable_set, Variable_set_item. simpl.
    destruct (decide (code ty = Set_)); [contradiction |].
    unfold _cast. simpl. rewrite Hin, Hpy. simpl. reflexivity.
  - unfold Variable_get. simpl.
    destruct (decide (code ty = Set_)); [contradiction |].
    unfold _cast. simpl. rewrite Hin. simpl.
    now rewrite lookup_insert_eq.
Qed.

Lemma container_element_not_wrapped_witness :
  exists self0 self',
    Variable_init (TArray (TPrimitive U08)) (inl (mkVariant 0 Global))
      = Ok self0 /\
    Variable_set (PInt 300) (Some 0) (with_data (DDict ∅) self0) = (Ok tt, self') /\
    Variable_get self' (Some 0) = Ok (DObj (PInt 300)).
Proof.
  apply (container_element_not_wrapped (TArray (TPrimitive U08))
           (inl (mkVariant 0 Global)) ∅ 300 0 0x100000000).
  - reflexivity.
  - lia.
  - reflexivity.
Defined.

(** X6.  A container cell on which no element has been set cannot be
    read as a whole: [get()] takes [max] of the empty dictionary and
    raises [ValueError]. *)
Theorem fresh_container_get_raises (ty : IFPSType) (sp : Variant + string)
    (n : Z) :
  key_bound ty = Some n ->
  exists self0,
    Variable_init ty sp = Ok self0 /\
    Variable_get self0 None = Err PyValueError.
Proof.
  intros Hb.
  destruct (Variable_init_container ty sp n Hb) as (Hc & Hs & Hi).
  eexists. split; [exact Hi |].
  unfold Variable_get. simpl. rewrite Hc. simpl.
  unfold dict_max. rewrite map_to_list_empty. reflexivity.
Qed.

Lemma fresh_container_get_raises_witness :
  exists self0,
    Variable_init (TRecord [TPrimitive U08; TPrimitive S16])
                  (inl (mkVariant 0 Global)) = Ok self0 /\
    Variable_get self0 None = Err PyValueError.
Proof.
  apply (fresh_container_get_raises (TRecord [TPrimitive U08; TPrimitive S16])
           (inl (mkVariant 0 Global)) 2).
  reflexivity.
Defined.

(** X7.  A scalar cell of a type whose default is [None] (a class, a
    procedure pointer, a pointer or variant primitive) starts with an
    empty dictionary, and [get()] on it raises [KeyError] until a value
    is set. *)
Theorem fresh_cell_without_default (ty : IFPSType) (sp : Variant + string) :
  container ty = false ->
  code ty <> Set_ ->
  default ty None = Ok PNone ->
  exists self0,
    Variable_init ty sp = Ok self0 /\
    data self0 = DDict ∅ /\
    Variable_get self0 None = Err PyKeyError.
Proof.
  intros Hc Hs Hd.
  assert (Hkr : match ty with
                | TRecord members => KRange (Z.of_nat (length members))
                | TArray _ => KRange 0x100000000
                | TStaticArray _ size _ => KRange size
                | _ => KNone
                end = KNone)
    by (destruct ty; try reflexivity; discriminate Hc).
  unfold Variable_init. rewrite Hc, Hd, Hkr. cbn [mbind result_bind Ok].
  assert (Hget : forall s b m g,
            Variable_get (mkVariable ty sp (DDict ∅) KNone s b m g) None
              = Err PyKeyError).
  { intros. unfold Variable_get. simpl. rewrite Hc. simpl.
    destruct (decide (code ty = Set_)); [contradiction |].
    reflexivity. }
  destruct (int_sign (code ty) * TC_width (code ty) =? 0);
    eexists; (split; [reflexivity |]); (split; [reflexivity |]); apply Hget.
Qed.

Lemma fresh_cell_without_default_witness :
  exists self0,
    Variable_init (TPrimitive Pointer) (inl (mkVariant 0 Global)) = Ok self0 /\
    data self0 = DDict ∅ /\
    Variable_get self0 None = Err PyKeyError.
Proof.
  apply (fresh_cell_without_default (TPrimitive Pointer)
           (inl (mkVariant 0 Global))).
  - reflexivity.
  - discriminate.
  - reflexivity.
Defined.

Lemma bit_test (z k : Z) :
  0 <= k -> (Z.land (Z.shiftr z k) 1 =? 0) = negb (Z.testbit z k).
Proof.
  intros Hk. change 1 with (Z.ones 1). rewrite Z.land_ones by lia.
  change (2 ^ 1) with 2.
  rewrite <- Z.bit0_mod, Z.shiftr_spec, Z.add_0_l by lia.
  now destruct (Z.testbit z k).
Qed.

Lemma testbit_one_shifted (k j : Z) :
  0 <= k -> 0 <= j -> Z.testbit (Z.shiftl 1 k) j = (j =? k).
Proof.
  intros Hk Hj. rewrite Z.shiftl_1_l, Z.pow2_bits_eqb by lia.
  apply Z.eqb_sym.
Qed.

(** X8.  Once a set cell holds an integer bitmask, the keyed operations
    are bit operations on it: [set(b, key=k)] with [k] in range makes
    bit [k] equal to [b] and changes no other bit, and the keyed
    [get(key=j)] that follows reads bit [j] of the new mask. *)
Theorem set_cell_bits (self : Variable_) (size m k : Z) (b : bool) :
  type self = TSet size ->
  data self = DObj (PInt m) ->
  0 <= k < size ->
  exists self' m',
    Variable_set (PBool b) (Some k) self = (Ok tt, self') /\
    data self' = DObj (PInt m') /\
    (forall j, 0 <= j ->
       Z.testbit m' j = if j =? k then b else Z.testbit m j) /\
    (forall j, 0 <= j < size ->
       Variable_get self' (Some j) =
         Ok (DObj (PBool (if j =? k then b else Z.testbit m j)))).
Proof.
  intros Ht Hd Hk.
  assert (Hin : in_range 0 size k = true).
  { unfold in_range. apply andb_true_intro.
    split; [apply Z.leb_le | apply Z.ltb_lt]; lia. }
  assert (Hget : forall (s : Variable_) (m' : Z),
            type s = TSet size -> data s = DObj (PInt m') ->
            forall j, 0 <= j < size ->
              Variable_get s (Some j) = Ok (DObj (PBool (Z.testbit m' j)))).
  { intros s m' Hts Hds j Hj. unfold Variable_get. rewrite Hts, Hds. simpl.
    assert (Hjn : in_range 0 size j = true).
    { unfold in_range. apply andb_true_intro.
      split; [apply Z.leb_le | apply Z.ltb_lt]; lia. }
    rewrite Hjn. simpl. rewrite bit_test by lia.
    now rewrite negb_involutive. }
  assert (Hset : Variable_set (PBool b) (Some k) self =
            (Ok tt,
             if b then with_data (DObj (PInt (Z.lor m (Z.shiftl 1 k)))) self
             else if Z.testbit m k
                  then with_data (DObj (PInt (Z.lxor m (Z.shiftl 1 k)))) self
                  else self)).
  { unfold Variable_set, Variable_set_item. rewrite Ht, Hd. simpl.
    rewrite Hin. simpl. destruct b; [reflexivity |].
    rewrite bit_test by lia. now destruct (Z.testbit m k). }
  rewrite Hset.
  destruct b.
  - exists (with_data (DObj (PInt (Z.lor m (Z.shiftl 1 k)))) self),
           (Z.lor m (Z.shiftl 1 k)).
    split; [reflexivity |]. split; [reflexivity |].
    assert (Hbits : forall j, 0 <= j ->
              Z.testbit (Z.lor m (Z.shiftl 1 k)) j =
                if j =? k then true else Z.testbit m j).
    { intros j Hj. rewrite Z.lor_spec, testbit_one_shifted by lia.
      destruct (j =? k); [apply orb_true_r | apply orb_false_r]. }
    split; [exact Hbits |].
    intros j Hj. rewrite (Hget _ (Z.lor m (Z.shiftl 1 k))) by (assumption || reflexivity).
    now rewrite Hbits by lia.
  - destruct (Z.testbit m k) eqn:Hbit.
    + exists (with_data (DObj (PInt (Z.lxor m (Z.shiftl 1 k)))) self),
             (Z.lxor m (Z.shiftl 1 k)).
      split; [reflexivity |]. split; [reflexivity |].
      assert (Hbits : forall j, 0 <= j ->
                Z.testbit (Z.lxor m (Z.shiftl 1 k)) j =
                  if j =? k then false else Z.testbit m j).
      { intros j Hj. rewrite Z.lxor_spec, testbit_one_shifted by lia.
        destruct (Z.eqb_spec j k) as [-> | _].
        - now rewrite Hbit.
        - apply xorb_false_r. }
      split; [exact Hbits |].
      intros j Hj. rewrite (Hget _ (Z.lxor m (Z.shiftl 1 k))) by (assumption || reflexivity).
      now rewrite Hbits by lia.
    + exists self, m. split; [reflexivity |]. split; [exact Hd |].
      assert (Hbits : forall j, 0 <= j ->
                Z.testbit m j = if j =? k then false else Z.testbit m j).
      { intros j Hj. destruct (Z.eqb_spec j k) as [-> | _];
          [exact Hbit | reflexivity]. }
      split; [exact Hbits |].
      intros j Hj. rewrite (Hget self m Ht Hd j Hj).
      now rewrite <- Hbits by lia.
Qed.

Lemma set_cell_bits_witness :
  exists self' m',
    Variable_set (PBool true) (Some 8)
      (mkVariable (TSet 9) (inl (mkVariant 0 Global)) (DObj (PInt 5))
                  KNone 0 None None None) = (Ok tt, self') /\
    data self' = DObj (PInt m') /\
    (forall j, 0 <= j ->
       Z.testbit m' j = if j =? 8 then true else Z.testbit 5 j) /\
    (forall j, 0 <= j < 9 ->
       Variable_get self' (Some j) =
         Ok (DObj (PBool (if j =? 8 then true else Z.testbit 5 j)))).
Proof.
  apply (set_cell_bits
           (mkVariable (TSet 9) (inl (mkVariant 0 Global)) (DObj (PInt 5))
                       KNone 0 None None None) 9 5 8 true).
  - reflexivity.
  - reflexivity.
  - lia.
Defined.



(** X10.  An integer assigned to a scalar cell of a text type is stored
    as the one-character string of that code point when it is a code
    point, and the assignment raises [ValueError] and stores nothing
    when it is outside [0, 0x110000) but still a C [int]. *)
Theorem integer_into_text_cell (c : TC) (n : Z) :
  TPrimitive_py_type c = Some Cstr ->
  (0 <= n < 0x110000 ->
   set_then_get (TPrimitive c) [(PInt n, None)] = Ok (DObj (PStr [n]))) /\
  (- 0x80000000 <= n < 0 \/ 0x110000 <= n < 0x80000000 ->
   set_then_get (TPrimitive c) [(PInt n, None)] = Err PyValueError).
Proof.
  intros Hc.
  assert (Hrun : set_then_get (TPrimitive c) [(PInt n, None)] =
            match py_chr n with
            | inl e => Err e
            | inr ch => Ok (DObj (PStr [ch]))
            end).
  { destruct c; try discriminate Hc;
      unfold set_then_get, new_cell, Variable_init; simpl;
      unfold Variable_set, Variable_set_item, _cast; simpl;
      destruct (py_chr n); reflexivity. }
  rewrite Hrun. unfold py_chr, in_range. split; intros H.
  - destruct (Z.leb_spec 0 n), (Z.ltb_spec n 0x110000); try lia. reflexivity.
  - destruct (Z.leb_spec 0 n), (Z.ltb_spec n 0x110000); try lia; simpl;
      destruct (Z.leb_spec (- 0x80000000) n), (Z.ltb_spec n 0x80000000);
      try lia; reflexivity.
Qed.

Lemma integer_into_text_cell_witness :
  set_then_get (TPrimitive Char) [(PInt 65, None)] = Ok (DObj (PStr [65])) /\
  set_then_get (TPrimitive Char) [(PInt (-1), None)] = Err PyValueError.
Proof.
  split.
  - apply (proj1 (integer_into_text_cell Char 65 eq_refl)). lia.
  - apply (proj2 (integer_into_text_cell Char (-1) eq_refl)). lia.
Defined.

(** ** The block map of a function, again *)

(** X11.  [get_basic_blocks] caches: whatever the first call did
    (returned, or raised out of the construction, the propagation or
    the validation), the object then holds a block map in [_bbs], and
    every later call returns that map without analysing or raising
    again; a first call that returned, returned that same map. *)
Theorem get_basic_blocks_cached (limit limit' : nat) (f f' : Function)
    (r : result pyobj) :
  get_basic_blocks limit f = (r, f') ->
  fn__bbs f' <> ONone /\
  get_basic_blocks limit' f' = (Ok (fn__bbs f'), f') /\
  (forall o, r = Ok o -> o = fn__bbs f').
Proof.
  assert (Hcached : forall g : Function,
            fn__bbs g <> ONone ->
            get_basic_blocks limit' g = (Ok (fn__bbs g), g)).
  { intros g Hg. unfold get_basic_blocks.
    destruct (fn__bbs g); [contradiction | reflexivity ..]. }
  assert (Hdone : forall bbs body,
            fn__bbs (with_analysis bbs body f) <> ONone) by discriminate.
  assert (Hfin : forall (g : Function) (x : result pyobj),
            fn__bbs g <> ONone ->
            (forall o, x = Ok o -> o = fn__bbs g) ->
            fn__bbs g <> ONone /\
            get_basic_blocks limit' g = (Ok (fn__bbs g), g) /\
            (forall o, x = Ok o -> o = fn__bbs g)).
  { intros g x Hg Hx. split; [exact Hg |]. split; [now apply Hcached | exact Hx]. }
  intros H. unfold get_basic_blocks in H.
  destruct (fn__bbs f) eqn:Hb.
  - destruct (fn_body f) as [body |].
    + destruct (build_blocks body _) as [[e | u] st].
      { injection H as <- <-. apply Hfin; [apply Hdone | discriminate]. }
      destruct (trace_stack limit 0 (Some 0) _) as [[e | u'] ts].
      { injection H as <- <-. apply Hfin; [apply Hdone | discriminate]. }
      destruct (validate_stack (fn_name f) (ts_body ts)).
      { injection H as <- <-. apply Hfin; [apply Hdone | discriminate]. }
      injection H as <- <-. apply Hfin; [apply Hdone | now intros o [= <-]].
    + injection H as <- <-. apply Hfin; [discriminate | now intros o [= <-]].
  - injection H as <- <-. apply Hfin; [now rewrite Hb |].
    intros o [= <-]. now rewrite Hb.
  - injection H as <- <-. apply Hfin; [now rewrite Hb |].
    intros o [= <-]. now rewrite Hb.
  - injection H as <- <-. apply Hfin; [now rewrite Hb |].
    intros o [= <-]. now rewrite Hb.
Qed.

(** A first call that raises the stack-underflow error, and the second
    call on the same object. *)
Lemma get_basic_blocks_cached_witness :
  fst (get_basic_blocks recursion_limit
         (_load_functions_new "F0" None (Some body_inc_local2) false None))
    = Err (StackUnderflow "F0" 0 0 2 0) /\
  get_basic_blocks recursion_limit
    (snd (get_basic_blocks recursion_limit
            (_load_functions_new "F0" None (Some body_inc_local2) false None)))
  = (Ok (fn__bbs
           (snd (get_basic_blocks recursion_limit
                   (_load_functions_new "F0" None (Some body_inc_local2)
                                        false None)))),
     snd (get_basic_blocks recursion_limit
            (_load_functions_new "F0" None (Some body_inc_local2) false None))).
Proof.
  split; [vm_compute; reflexivity |].
  apply (get_basic_blocks_cached recursion_limit recursion_limit
           (_load_functions_new "F0" None (Some body_inc_local2) false None)
           _ (fst (get_basic_blocks recursion_limit
                     (_load_functions_new "F0" None (Some body_inc_local2)
                                          false None)))).
  apply surjective_pairing.
Defined.

(** X12.  A function without a body (an external function) gets the
    empty block map.  A function whose body is the empty instruction
    list (an internal function of length 0) gets none: its block 0
    stays empty and is deleted, and the stack propagation, which starts
    at block 0, raises [KeyError]. *)
Theorem get_basic_blocks_without_instructions (limit : nat) (name : string)
    (decl : option DeclSpec) (exported : bool) :
  fst (get_basic_blocks limit
         (_load_functions_new name decl None exported None))
    = Ok (OBlocks []) /\
  fst (get_basic_blocks (S limit)
         (_load_functions_new name decl (Some []) exported None))
    = Err PyKeyError.
Proof. split; reflexivity. Qed.

(** ** Exported declarations, again *)

Lemma length_split_space (data : list byte) :
  length (split_space data) =
    S (length (List.filter (fun b => bool_decide (b = x20)) data)).
Proof.
  induction data as [| b data IH]; [reflexivity |].
  assert (Hne : split_space data <> [])
    by (intros E; rewrite E in IH; discriminate IH).
  cbn [List.filter].
  destruct (bool_decide (b = x20)) eqn:Hb.
  - apply bool_decide_eq_true in Hb. subst b. cbn [split_space length].
    now rewrite IH.
  - apply bool_decide_eq_false in Hb.
    assert (Hsplit : split_space (b :: data) =
              match split_space data with
              | tok :: toks => (b :: tok) :: toks
              | [] => [[b]]
              end) by (destruct b; try reflexivity; contradiction).
    rewrite Hsplit. destruct (split_space data); [contradiction |].
    exact IH.
Qed.

Lemma result_map_length {A B} (f : A -> result B) (l : list A) (l' : list B) :
  result_map f l = Ok l' -> length l' = length l.
Proof.
  intros H. apply result_map_Forall2 in H.
  symmetry. eapply Forall2_length. exact H.
Qed.

Lemma result_map_error {A B} (f : A -> result B) (l : list A) (e : error) :
  result_map f l = Err e -> exists x, In x l /\ f x = Err e.
Proof.
  induction l as [| x l IH]; simpl; [discriminate |].
  destruct (f x) as [e' | y] eqn:Hx.
  - intros [= <-]. exists x. auto.
  - simpl. destruct (result_map f l) as [e' | ys]; [| discriminate].
    intros [= <-]. destruct (IH eq_refl) as (x' & Hin & Hx').
    exists x'. auto.
Qed.

Lemma py_getitem_error {A} (l : list A) (i : Z) (e : error) :
  py_getitem l i = Err e -> e = PyIndexError.
Proof.
  unfold py_getitem. destruct (_ || _); [now intros [= <-] |].
  destruct (l !! _); [discriminate | now intros [= <-]].
Qed.

(** X13.  What [ParseE] returns for a declaration: one parameter for
    every space of the text; it is void exactly when it has no return
    type, which is when the first token is not an integer or is a
    negative one; and every field that the E-form does not carry has
    its default. *)
Theorem ParseE_declaration (data : list byte) (tys : list IFPSType)
    (d : DeclSpec) :
  ParseE data tys = Ok d ->
  length (ds_parameters d) =
    length (List.filter (fun b => bool_decide (b = x20)) data) /\
  (ds_void d = true <-> ds_return_type d = None) /\
  (ds_void d = false <->
   exists first r, head (split_space data) = Some first /\
                   py_int first = Some r /\ 0 <= r) /\
  d = mkDeclSpec (ds_void d) (ds_parameters d) "" None (ds_return_type d)
                 None None false None false false.
Proof.
  unfold ParseE. intros H.
  pose proof (length_split_space data) as Hlen.
  destruct (split_space data) as [| first decl]; [discriminate |].
  simpl in Hlen. injection Hlen as Hlen.
  destruct (py_int first) as [r |] eqn:Hr.
  - destruct (Z.ltb_spec r 0) as [Hneg | Hpos]; simpl in H.
    + destruct (result_map (ParseE_param tys) decl) as [e | ps] eqn:Hps;
        [discriminate |].
      simpl in H. injection H as <-. simpl.
      rewrite (result_map_length _ _ _ Hps).
      repeat split; try assumption; try reflexivity; try discriminate.
      intros (f & r' & [= <-] & Hr' & Hr0). rewrite Hr in Hr'.
      injection Hr' as <-. lia.
    + destruct (py_getitem tys r) as [e | t]; [discriminate |]. simpl in H.
      destruct (result_map (ParseE_param tys) decl) as [e | ps] eqn:Hps;
        [discriminate |].
      simpl in H. injection H as <-. simpl.
      rewrite (result_map_length _ _ _ Hps).
      repeat split; try assumption; try reflexivity; try discriminate.
      intros _. exists first, r. auto.
  - simpl in H.
    destruct (result_map (ParseE_param tys) decl) as [e | ps] eqn:Hps;
      [discriminate |].
    simpl in H. injection H as <-. simpl.
    rewrite (result_map_length _ _ _ Hps).
    repeat split; try assumption; try reflexivity; try discriminate.
    intros (f & r' & [= <-] & Hr' & _). rewrite Hr in Hr'. discriminate.
Qed.

Lemma ParseE_declaration_witness :
  length [mkDeclSpecParam true (Some (TPrimitive S16));
          mkDeclSpecParam false (Some (TPrimitive U08))] =
    length (List.filter (fun b => bool_decide (b = x20))
              [x30; x20; x40; x31; x20; x21; x30]) /\
  (false = true <-> Some (TPrimitive U08) = None) /\
  (false = false <->
   exists first r,
     head (split_space [x30; x20; x40; x31; x20; x21; x30]) = Some first /\
     py_int first = Some r /\ 0 <= r) /\
  mkDeclSpec false
    [mkDeclSpecParam true (Some (TPrimitive S16));
     mkDeclSpecParam false (Some (TPrimitive U08))]
    "" None (Some (TPrimitive U08)) None None false None false false =
  mkDeclSpec false
    [mkDeclSpecParam true (Some (TPrimitive S16));
     mkDeclSpecParam false (Some (TPrimitive U08))]
    "" None (Some (TPrimitive U08)) None None false None false false.
Proof.
  apply (ParseE_declaration
           [x30; x20; x40; x31; x20; x21; x30]
           [TPrimitive U08; TPrimitive S16]
           (mkDeclSpec false
              [mkDeclSpecParam true (Some (TPrimitive S16));
               mkDeclSpecParam false (Some (TPrimitive U08))]
              "" None (Some (TPrimitive U08)) None None false None false false)).
  reflexivity.
Defined.

(** X14.  Malformed text never makes [ParseE] fail: the only exception
    that leaves it is the [IndexError] of a subscript of the type
    table, for a return-type index or a parameter index that the table
    does not have. *)
Theorem ParseE_fails_only_on_index (data : list byte) (tys : list IFPSType)
    (e : error) :
  ParseE data tys = Err e ->
  e = PyIndexError /\
  exists tok i,
    In tok (split_space data) /\
    (py_int tok = Some i \/ py_int (drop 1 tok) = Some i) /\
    py_getitem tys i = Err PyIndexError.
Proof.
  unfold ParseE. intros H.
  pose proof (length_split_space data) as Hlen.
  destruct (split_space data) as [| first decl]; [discriminate Hlen |].
  assert (Hparams : forall e',
            result_map (ParseE_param tys) decl = Err e' ->
            e' = PyIndexError /\
            exists tok i,
              In tok (first :: decl) /\
              (py_int tok = Some i \/ py_int (drop 1 tok) = Some i) /\
              py_getitem tys i = Err PyIndexError).
  { intros e' He'. apply result_map_error in He' as (tok & Hin & Htok).
    unfold ParseE_param in Htok.
    destruct (py_int (drop 1 tok)) as [i |] eqn:Hi; [| discriminate].
    destruct (py_getitem tys i) as [e0 | t] eqn:Hget; [| discriminate].
    simpl in Htok. injection Htok as <-.
    pose proof (py_getitem_error _ _ _ Hget) as ->.
    split; [reflexivity |]. exists tok, i. split; [now right |]. auto. }
  destruct (py_int first) as [r |] eqn:Hr.
  - destruct (Z.ltb_spec r 0); simpl in H.
    + destruct (result_map (ParseE_param tys) decl) eqn:Hps; [| discriminate].
      simpl in H. injection H as <-. now apply Hparams.
    + destruct (py_getitem tys r) as [e0 | t] eqn:Hget; simpl in H.
      * injection H as <-. pose proof (py_getitem_error _ _ _ Hget) as ->.
        split; [reflexivity |]. exists first, r. split; [now left |]. auto.
      * destruct (result_map (ParseE_param tys) decl) eqn:Hps; [| discriminate].
        simpl in H. injection H as <-. now apply Hparams.
  - simpl in H.
    destruct (result_map (ParseE_param tys) decl) eqn:Hps; [| discriminate].
    simpl in H. injection H as <-. now apply Hparams.
Qed.

Lemma ParseE_fails_only_on_index_witness :
  PyIndexError = PyIndexError /\
  exists tok i,
    In tok (split_space [x30; x20; x40; x37]) /\
    (py_int tok = Some i \/ py_int (drop 1 tok) = Some i) /\
    py_getitem [TPrimitive U08] i = Err PyIndexError.
Proof.
  apply (ParseE_fails_only_on_index [x30; x20; x40; x37] [TPrimitive U08]).
  reflexivity.
Defined.

(** ** Type descriptors, again *)

(** X15.  [TSet.size_in_bytes] is the least number of bytes that hold
    [size] bits. *)
Theorem size_in_bytes_least (size : Z) :
  0 <= size ->
  size <= 8 * size_in_bytes size /\
  forall n, size <= 8 * n -> size_in_bytes size <= n.
Proof.
  intros Hs. unfold size_in_bytes.
  pose proof (Z.div_mod size 8 ltac:(lia)) as Hdm.
  pose proof (Z.mod_pos_bound size 8 ltac:(lia)) as Hm.
  destruct (Z.eqb_spec (size mod 8) 0); split; try lia; intros n Hn; lia.
Qed.

Lemma size_in_bytes_least_witness :
  9 <= 8 * size_in_bytes 9 /\
  forall n, 9 <= 8 * n -> size_in_bytes 9 <= n.
Proof. apply (size_in_bytes_least 9). lia. Defined.

(** ** Stack propagation *)

Lemma od_update_keys {A} (d : odict A) (k : Z) (f : A -> A) :
  map fst (od_update d k f) = map fst d.
Proof.
  unfold od_update. rewrite map_map. apply map_ext.
  intros [k0 a]. simpl. now destruct (k0 =? k).
Qed.

Lemma od_get_key {A} (d : odict A) (k : Z) (a : A) :
  od_get d k = Some a -> In k (map fst d).
Proof.
  intros H. apply od_get_In in H. now apply (in_map fst) in H.
Qed.

Lemma trace_grows_refl (st : trace_state) : trace_grows st st.
Proof. repeat split; set_solver. Qed.

Lemma trace_grows_trans (a b c : trace_state) :
  trace_grows a b -> trace_grows b c -> trace_grows a c.
Proof.
  intros (H1 & H2 & H3) (H4 & H5 & H6).
  repeat split; [congruence | set_solver | set_solver].
Qed.

Lemma for_each_grows {A} (l : list A) (body : A -> M trace_state unit) :
  (forall x s, trace_grows s (snd (body x s))) ->
  forall s, trace_grows s (snd (for_each l body s)).
Proof.
  intros Hbody. induction l as [| x l IH]; intros s; simpl.
  - apply trace_grows_refl.
  - unfold bind. specialize (Hbody x s).
    destruct (body x s) as [[e | u] s']; simpl in *; [exact Hbody |].
    eapply trace_grows_trans; [exact Hbody | apply IH].
Qed.

Lemma trace_stack_grows (depth : nat) :
  forall offset stack st,
    trace_grows st (snd (trace_stack depth offset stack st)).
Proof.
  induction depth as [| depth IH]; intros offset stack st;
    [apply trace_grows_refl |].
  cbn [trace_stack].
  destruct (bool_decide (offset ∈ ts_errored st)); [apply trace_grows_refl |].
  destruct (od_get (ts_bbs st) offset) as [bb |]; [| apply trace_grows_refl].
  set (stack' := match bb_stack bb, stack with
                 | Some s0, Some s => if s =? s0 then stack else None
                 | _, _ => stack
                 end).
  assert (Hgo : forall st0 stk body,
            trace_grows st st0 ->
            trace_grows st
              (snd (for_each (bb_targets bb)
                      (fun t => trace_stack depth t stk)
                      (mkTrace (ts_visited st0) (ts_errored st0)
                         (od_update (ts_bbs st0) offset (set_bb_stack stack'))
                         body)))).
  { intros st0 stk body H0.
    eapply trace_grows_trans; [| apply for_each_grows; intros; apply IH].
    destruct H0 as (H1 & H2 & H3). repeat split; simpl;
      [now rewrite od_update_keys | exact H2 | exact H3]. }
  destruct stack' as [s |] eqn:Hstack.
  - destruct (bool_decide (offset ∈ ts_visited st)); [apply trace_grows_refl |].
    cbn [ts_bbs ts_body].
    destruct (annotate (bb_body bb) s (ts_body st)) as [s' body'].
    apply (Hgo (mkTrace ({[offset]} ∪ ts_visited st) (ts_errored st)
                        (ts_bbs st) (ts_body st))).
    repeat split; simpl; set_solver.
  - cbn [ts_bbs ts_body].
    apply (Hgo (mkTrace (ts_visited st) ({[offset]} ∪ ts_errored st)
                        (ts_bbs st) (ts_body st))).
    repeat split; simpl; set_solver.
Qed.

Lemma frames_needed_grows (st st' : trace_state) :
  trace_grows st st' -> (frames_needed st' <= frames_needed st)%nat.
Proof.
  intros (Hk & Hv & He). unfold frames_needed, block_keys. rewrite Hk.
  assert (size (list_to_set (map fst (ts_bbs st)) ∖ ts_visited st')
          <= size (list_to_set (map fst (ts_bbs st)) ∖ ts_visited st))%nat
    by (apply subseteq_size; set_solver).
  assert (size (list_to_set (map fst (ts_bbs st)) ∖ ts_errored st')
          <= size (list_to_set (map fst (ts_bbs st)) ∖ ts_errored st))%nat
    by (apply subseteq_size; set_solver).
  lia.
Qed.

Lemma size_difference_add (K V : gset Z) (o : Z) :
  o ∈ K -> o ∉ V -> (size (K ∖ ({[o]} ∪ V)) < size (K ∖ V))%nat.
Proof.
  intros Hk Hv. apply subset_size. split; [set_solver |].
  intros H. assert (o ∈ K ∖ V) as Ho by set_solver.
  apply H in Ho. set_solver.
Qed.

Lemma for_each_no_recursion_error {A} (P : trace_state -> Prop) (l : list A)
    (body : A -> M trace_state unit) :
  (forall x s, P s ->
     fst (body x s) <> Err PyRecursionError /\ P (snd (body x s))) ->
  forall s, P s -> fst (for_each l body s) <> Err PyRecursionError.
Proof.
  intros Hbody. induction l as [| x l IH]; intros s Hs; simpl; [discriminate |].
  unfold bind. destruct (Hbody x s Hs) as [Hne HP].
  destruct (body x s) as [[e | u] s']; simpl in *; [exact Hne |].
  now apply IH.
Qed.

(** X16.  The stack propagation terminates within a number of frames
    that the block map bounds: [trace_stack] revisits no block that is
    already in [visited] with a known depth or in [errored], so from
    any state it needs at most one frame, plus one for each block not
    yet visited, plus one for each block not yet errored, and does not
    run into the recursion limit when that many frames are there. *)
Theorem trace_stack_frames (depth : nat) :
  forall (offset : Z) (stack : option Z) (st : trace_state),
    (frames_needed st <= depth)%nat ->
    fst (trace_stack depth offset stack st) <> Err PyRecursionError.
Proof.
  induction depth as [| depth IH]; intros offset stack st Hfr;
    [unfold frames_needed in Hfr; lia |].
  cbn [trace_stack].
  destruct (bool_decide (offset ∈ ts_errored st)) eqn:Herr; [discriminate |].
  apply bool_decide_eq_false in Herr.
  destruct (od_get (ts_bbs st) offset) as [bb |] eqn:Hget; [| discriminate].
  assert (Hkey : offset ∈ block_keys (ts_bbs st)).
  { unfold block_keys. apply elem_of_list_to_set, list_elem_of_In.
    eapply od_get_key. exact Hget. }
  set (stack' := match bb_stack bb, stack with
                 | Some s0, Some s => if s =? s0 then stack else None
                 | _, _ => stack
                 end).
  assert (Hgo : forall st0 stk body,
            map fst (ts_bbs st0) = map fst (ts_bbs st) ->
            (frames_needed st0 <= depth)%nat ->
            fst (for_each (bb_targets bb)
                   (fun t => trace_stack depth t stk)
                   (mkTrace (ts_visited st0) (ts_errored st0)
                      (od_update (ts_bbs st0) offset (set_bb_stack stack'))
                      body)) <> Err PyRecursionError).
  { intros st0 stk body Hk0 H0.
    apply (for_each_no_recursion_error
             (fun s => (frames_needed s <= depth)%nat)).
    - intros t s Hs. split; [now apply IH |].
      pose proof (frames_needed_grows _ _ (trace_stack_grows depth t stk s)).
      lia.
    - unfold frames_needed, block_keys in *. simpl.
      now rewrite od_update_keys. }
  destruct stack' as [s |] eqn:Hstack.
  - destruct (bool_decide (offset ∈ ts_visited st)) eqn:Hvis; [discriminate |].
    apply bool_decide_eq_false in Hvis.
    cbn [ts_bbs ts_body].
    destruct (annotate (bb_body bb) s (ts_body st)) as [s' body'].
    apply (Hgo (mkTrace ({[offset]} ∪ ts_visited st) (ts_errored st)
                        (ts_bbs st) (ts_body st))); [reflexivity |].
    unfold frames_needed in *. simpl.
    pose proof (size_difference_add _ _ _ Hkey Hvis). lia.
  - cbn [ts_bbs ts_body].
    apply (Hgo (mkTrace (ts_visited st) ({[offset]} ∪ ts_errored st)
                        (ts_bbs st) (ts_body st))); [reflexivity |].
    unfold frames_needed in *. simpl.
    pose proof (size_difference_add _ _ _ Hkey Herr). lia.
Qed.

Lemma trace_stack_frames_witness :
  fst (trace_stack 7 0 (Some 0)
         (mkTrace ∅ ∅
            [(0, mkBasicBlock 0 None [0%nat] [] [6; 5]);
             (6, mkBasicBlock 6 None [2%nat] [0] [5]);
             (5, mkBasicBlock 5 None [1%nat] [0; 6] [])]
            body_jump_over))
    <> Err PyRecursionError.
Proof.
  apply (trace_stack_frames 7). vm_compute. lia.
Defined.

(** ** Blocks partition the body *)

Lemma block_bodies_keys (bbs : odict BasicBlock) :
  map fst (block_bodies bbs) = map fst bbs.
Proof. unfold block_bodies. rewrite map_map. reflexivity. Qed.

Lemma block_bodies_positions (bbs : odict BasicBlock) :
  concat (map snd (block_bodies bbs)) = block_positions bbs.
Proof. unfold block_bodies, block_positions. now rewrite map_map. Qed.

Lemma od_get_None_keys {A} (d : odict A) (k : Z) :
  od_get d k = None <-> ~ In k (map fst d).
Proof.
  induction d as [| [k0 a] d IH]; simpl; [tauto |].
  destruct (Z.eqb_spec k0 k) as [-> | Hne].
  - split; [discriminate | intros H; exfalso; apply H; now left].
  - rewrite IH. tauto.
Qed.

Lemma block_bodies_update_same (d : odict BasicBlock) (k : Z)
    (f : BasicBlock -> BasicBlock) :
  keeps_body f -> block_bodies (od_update d k f) = block_bodies d.
Proof.
  intros Hf. unfold block_bodies, od_update. rewrite map_map.
  apply map_ext. intros [k0 b]. simpl.
  destruct (k0 =? k); simpl; [now rewrite Hf | reflexivity].
Qed.

Lemma block_positions_update_same (d : odict BasicBlock) (k : Z)
    (f : BasicBlock -> BasicBlock) :
  keeps_body f -> block_positions (od_update d k f) = block_positions d.
Proof.
  intros Hf. rewrite <- !block_bodies_positions.
  now rewrite block_bodies_update_same.
Qed.

Lemma od_update_absent {A} (d : odict A) (k : Z) (f : A -> A) :
  ~ In k (map fst d) -> od_update d k f = d.
Proof.
  induction d as [| [k0 a] d IH]; simpl; [reflexivity |].
  intros H. destruct (Z.eqb_spec k0 k) as [-> | _]; [tauto |].
  rewrite IH by tauto. reflexivity.
Qed.

Lemma block_positions_update_append (d : odict BasicBlock) (k : Z) (p : nat) :
  NoDup (map fst d) -> In k (map fst d) ->
  Permutation (block_positions (od_update d k (append_insn p)))
              (p :: block_positions d).
Proof.
  unfold block_positions.
  induction d as [| [k0 b] d IH]; simpl; [contradiction |].
  intros Hnd Hin. apply NoDup_cons in Hnd as [Hk0 Hnd].
  rewrite list_elem_of_In in Hk0.
  destruct (Z.eqb_spec k0 k) as [-> | Hne]; simpl.
  - fold (od_update d k (append_insn p)). rewrite od_update_absent by exact Hk0.
    rewrite <- app_assoc. simpl.
    symmetry. apply Permutation_middle.
  - destruct Hin as [-> | Hin]; [contradiction |].
    fold (od_update d k (append_insn p)).
    rewrite (IH Hnd Hin).
    symmetry. apply Permutation_middle.
Qed.

Lemma build_inv_set_new (bbs : odict BasicBlock) (k : Z) :
  od_get bbs k = None ->
  NoDup (map fst bbs) ->
  NoDup (map fst (od_set bbs k (BasicBlock_new k))) /\
  (forall k', In k' (map fst bbs) ->
              In k' (map fst (od_set bbs k (BasicBlock_new k)))) /\
  In k (map fst (od_set bbs k (BasicBlock_new k))) /\
  block_positions (od_set bbs k (BasicBlock_new k)) = block_positions bbs.
Proof.
  intros Hk Hnd. rewrite od_set_new by exact Hk.
  rewrite map_app. simpl. repeat split.
  - apply NoDup_app. repeat split; [exact Hnd | | apply NoDup_singleton].
    intros x Hx Hx'. apply list_elem_of_In in Hx, Hx'.
    destruct Hx' as [<- | []]. now apply od_get_None_keys in Hk.
  - intros k' Hk'. apply in_or_app. now left.
  - apply in_or_app. right. now left.
  - unfold block_positions. rewrite map_app, concat_app. simpl.
    now rewrite app_nil_r.
Qed.

Lemma keeps_body_add_source (s : Z) : keeps_body (add_source s).
Proof. intros b. reflexivity. Qed.

Lemma keeps_body_add_target (t : Z) : keeps_body (add_target t).
Proof. intros b. reflexivity. Qed.

Lemma keeps_body_pop_target (t : Z) : keeps_body (pop_target t).
Proof. intros b. reflexivity. Qed.

Lemma keeps_body_set_bb_stack (s : option Z) : keeps_body (set_bb_stack s).
Proof. intros b. reflexivity. Qed.

Lemma link_targets_keeps (bb : Z) (targets : list Z) :
  forall bbs,
    NoDup (map fst bbs) ->
    NoDup (map fst (link_targets bb targets bbs)) /\
    (forall k, In k (map fst bbs) ->
               In k (map fst (link_targets bb targets bbs))) /\
    block_positions (link_targets bb targets bbs) = block_positions bbs.
Proof.
  unfold link_targets.
  induction targets as [| t targets IH]; intros bbs Hnd; [simpl; auto |].
  cbn [fold_left].
  assert (Hstep : forall bbs1,
            NoDup (map fst bbs1) ->
            (forall k, In k (map fst bbs) -> In k (map fst bbs1)) ->
            block_positions bbs1 = block_positions bbs ->
            let bbs2 := od_update (od_update bbs1 bb (add_target t)) t
                                  (add_source bb) in
            NoDup (map fst bbs2) /\
            (forall k, In k (map fst bbs) -> In k (map fst bbs2)) /\
            block_positions bbs2 = block_positions bbs).
  { intros bbs1 Hnd1 Hsub1 Hpos1. simpl. rewrite !od_update_keys.
    split; [exact Hnd1 |]. split; [exact Hsub1 |].
    rewrite block_positions_update_same by apply keeps_body_add_source.
    rewrite block_positions_update_same by apply keeps_body_add_target.
    exact Hpos1. }
  destruct (od_get bbs t) eqn:Ht.
  - destruct (Hstep bbs Hnd (fun k H => H) eq_refl) as (A & B & C).
    destruct (IH _ A) as (A' & B' & C').
    split; [exact A' |]. split; [intros k Hk; apply B', B, Hk |].
    now rewrite C'.
  - destruct (build_inv_set_new bbs t Ht Hnd) as (A0 & B0 & _ & C0).
    destruct (Hstep _ A0 B0 C0) as (A & B & C).
    destruct (IH _ A) as (A' & B' & C').
    split; [exact A' |]. split; [intros k Hk; apply B', B, Hk |].
    now rewrite C'.
Qed.

Lemma build_inv_step (n : nat) (insn : Instruction) (st : build_state) :
  build_inv n st -> build_inv (S n) (snd (build_insn n insn st)).
Proof.
  intros (Hnd & Hbb & Hperm). unfold build_insn.
  set (sel := match od_get (bs_bbs st) (insn_offset insn) with
              | Some _ => _
              | None => _
              end).
  assert (Hsel : NoDup (map fst (fst sel)) /\ In (snd sel) (map fst (fst sel)) /\
                 block_positions (fst sel) = block_positions (bs_bbs st)).
  { subst sel. destruct (od_get (bs_bbs st) (insn_offset insn)) eqn:Hget.
    - simpl. split; [exact Hnd |]. split; [| reflexivity].
      eapply od_get_key. exact Hget.
    - destruct (insn_jumptarget insn); simpl; [| auto].
      destruct (build_inv_set_new _ _ Hget Hnd) as (A & B & C & D).
      rewrite !od_update_keys.
      split; [exact A |]. split; [exact C |].
      rewrite block_positions_update_same by apply keeps_body_add_target.
      rewrite block_positions_update_same by apply keeps_body_add_source.
      exact D. }
  destruct sel as [bbs bb]. simpl in Hsel. destruct Hsel as (Hnd1 & Hbb1 & Hpos1).
  assert (Happ : build_inv (S n) (mkBuild (od_update bbs bb (append_insn n)) bb)).
  { unfold build_inv. cbn [bs_bbs bs_bb]. rewrite od_update_keys.
    split; [exact Hnd1 |]. split; [exact Hbb1 |].
    rewrite (block_positions_update_append bbs bb n Hnd1 Hbb1), Hpos1.
    rewrite seq_S. cbn [Nat.add].
    rewrite Hperm. apply Permutation_cons_append. }
  destruct (negb (branches insn)); [exact Happ |].
  destruct (insn_operands insn) as [| a ops]; [exact Happ |].
  destruct a; try exact Happ.
  cbn [snd bs_bbs bs_bb]. destruct Happ as (A & B & C).
  cbn [bs_bbs bs_bb] in A, B, C.
  destruct (link_targets_keeps bb
              (if negb (jumps insn) && negb (bool_decide (insn_opcode insn = Ret))
               then [z; insn_offset insn + insn_size insn] else [z])
              (od_update bbs bb (append_insn n)) A) as (A' & B' & C').
  unfold build_inv. cbn [bs_bbs bs_bb].
  split; [exact A' |]. split; [now apply B' |].
  now rewrite C'.
Qed.

Lemma build_inv_for_each (l : list Instruction) :
  forall (k : nat) (st st' : build_state) (u : unit),
    build_inv k st ->
    for_each (imap (fun pos insn => ((k + pos)%nat, insn)) l)
             (fun pi => build_insn (fst pi) (snd pi)) st = (Ok u, st') ->
    build_inv (k + length l) st'.
Proof.
  induction l as [| insn l IH]; intros k st st' u Hinv H.
  - simpl in H. unfold ret in H. inversion H; subst.
    now rewrite Nat.add_0_r.
  - rewrite imap_cons in H. cbn [for_each fst snd] in H. unfold bind in H.
    rewrite Nat.add_0_r in H.
    pose proof (build_inv_step k insn st Hinv) as Hstep.
    destruct (build_insn k insn st) as [[e | u'] st1]; [discriminate |].
    simpl in Hstep.
    rewrite (imap_ext _ (fun pos insn => ((S k + pos)%nat, insn))) in H
      by (intros; simpl; f_equal; lia).
    specialize (IH (S k) st1 st' u Hstep H).
    simpl. now rewrite Nat.add_succ_r.
Qed.

Lemma NoDup_keys_unique {A} (d : list (Z * A)) (k : Z) (a a' : A) :
  NoDup (map fst d) -> In (k, a) d -> In (k, a') d -> a = a'.
Proof.
  induction d as [| [k0 a0] d IH]; simpl; [contradiction |].
  intros Hnd H1 H2. apply NoDup_cons in Hnd as [Hk0 Hnd].
  rewrite list_elem_of_In in Hk0.
  destruct H1 as [E1 | H1], H2 as [E2 | H2].
  - congruence.
  - injection E1 as -> ->. exfalso. apply Hk0. now apply (in_map fst) in H2.
  - injection E2 as -> ->. exfalso. apply Hk0. now apply (in_map fst) in H1.
  - now apply IH.
Qed.

Lemma block_bodies_del (d : odict BasicBlock) (k : Z) :
  block_bodies (od_del d k) =
    List.filter (fun kb => negb (fst kb =? k)) (block_bodies d).
Proof.
  unfold block_bodies, od_del.
  induction d as [| [k0 b] d IH]; simpl; [reflexivity |].
  destruct (k0 =? k); simpl; now rewrite IH.
Qed.

Lemma list_filter_filter {A} (f g : A -> bool) (l : list A) :
  List.filter f (List.filter g l) = List.filter (fun x => g x && f x) l.
Proof.
  induction l as [| x l IH]; simpl; [reflexivity |].
  destruct (g x); simpl; [destruct (f x) |]; now rewrite IH.
Qed.

(** The second loop, seen through [block_bodies]: it removes exactly the
    blocks with an empty body. *)
Lemma prune_blocks_bodies (bbs : odict BasicBlock) :
  NoDup (map fst bbs) ->
  block_bodies (prune_blocks bbs) =
    List.filter (fun kb => match snd kb with [] => false | _ => true end)
                (block_bodies bbs).
Proof.
  intros Hnd. unfold prune_blocks.
  assert (G : forall snap done acc,
            bbs = done ++ snap ->
            block_bodies acc =
              List.filter
                (fun kb => match snd kb with
                           | [] => negb (existsb (Z.eqb (fst kb)) (map fst done))
                           | _ => true
                           end) (block_bodies bbs) ->
            block_bodies
              (fold_left
                 (fun acc ob =>
                    match bb_body (snd ob) with
                    | _ :: _ => acc
                    | [] =>
                        fold_left
                          (fun acc source =>
                             od_update acc source (pop_target (fst ob)))
                          (bb_sources (snd ob)) (od_del acc (fst ob))
                    end) snap acc) =
              List.filter
                (fun kb => match snd kb with [] => false | _ => true end)
                (block_bodies bbs)).
  { induction snap as [| [k0 b0] snap IH]; intros done acc Hsplit Hacc.
    - simpl. rewrite Hacc. rewrite app_nil_r in Hsplit. subst done.
      apply filter_ext_in. intros [k body] Hin. simpl.
      destruct body; [| reflexivity].
      apply negb_false_iff, existsb_exists. exists k.
      split; [| apply Z.eqb_refl].
      rewrite <- block_bodies_keys. now apply (in_map fst) in Hin.
    - assert (Hin0 : In (k0, bb_body b0) (block_bodies bbs)).
      { rewrite Hsplit. unfold block_bodies. rewrite map_app.
        apply in_or_app. right. now left. }
      assert (Hnd' : NoDup (map fst (block_bodies bbs)))
        by now rewrite block_bodies_keys.
      cbn [fold_left fst snd].
      apply (IH (done ++ [(k0, b0)])); [now rewrite <- app_assoc |].
      destruct (bb_body b0) as [| p ps] eqn:Hbody.
      + assert (Hupd : forall l o,
                  block_bodies
                    (fold_left (fun acc source =>
                                  od_update acc source (pop_target k0)) l o)
                  = block_bodies o).
        { induction l as [| s l IHl]; intros o; simpl; [reflexivity |].
          rewrite IHl. apply block_bodies_update_same, keeps_body_pop_target. }
        rewrite Hupd, block_bodies_del, Hacc.
        rewrite list_filter_filter. apply filter_ext_in.
        intros [k body] Hin. cbn [fst snd].
        rewrite map_app, existsb_app. cbn [map existsb fst].
        destruct (Z.eqb_spec k k0) as [-> | Hne].
        * assert (body = []) as ->
            by (eapply NoDup_keys_unique; eauto).
          cbn [negb]. now rewrite !orb_true_r, andb_false_r.
        * cbn [negb]. rewrite !orb_false_r, andb_true_r. reflexivity.
      + rewrite Hacc. apply filter_ext_in.
        intros [k body] Hin. cbn [fst snd].
        rewrite map_app, existsb_app. cbn [map existsb fst].
        destruct body; [| reflexivity].
        destruct (Z.eqb_spec k k0) as [-> | Hne]; [| now rewrite !orb_false_r].
        assert ([] = p :: ps) by (eapply NoDup_keys_unique; eauto).
        discriminate. }
  apply (G bbs [] bbs); [reflexivity |]. clear G.
  generalize (block_bodies bbs). intros l.
  induction l as [| [k body] l IHl]; [reflexivity |].
  destruct body; simpl; f_equal; exact IHl.
Qed.

Lemma trace_stack_bodies (depth : nat) :
  forall offset stack st,
    block_bodies (ts_bbs (snd (trace_stack depth offset stack st))) =
    block_bodies (ts_bbs st).
Proof.
  induction depth as [| depth IH]; intros offset stack st; [reflexivity |].
  cbn [trace_stack].
  destruct (bool_decide (offset ∈ ts_errored st)); [reflexivity |].
  destruct (od_get (ts_bbs st) offset) as [bb |]; [| reflexivity].
  set (stack' := match bb_stack bb, stack with
                 | Some s0, Some s => if s =? s0 then stack else None
                 | _, _ => stack
                 end).
  assert (Hgo : forall st0 stk body,
            ts_bbs st0 = ts_bbs st ->
            block_bodies
              (ts_bbs (snd (for_each (bb_targets bb)
                              (fun t => trace_stack depth t stk)
                              (mkTrace (ts_visited st0) (ts_errored st0)
                                 (od_update (ts_bbs st0) offset
                                            (set_bb_stack stack'))
                                 body)))) = block_bodies (ts_bbs st)).
  { intros st0 stk body H0.
    apply (for_each_invariant
             (fun s => block_bodies (ts_bbs s) = block_bodies (ts_bbs st))).
    - intros t s Hs. now rewrite IH.
    - simpl. rewrite H0.
      apply block_bodies_update_same, keeps_body_set_bb_stack. }
  destruct stack' as [s |] eqn:Hstack.
  - destruct (bool_decide (offset ∈ ts_visited st)); [reflexivity |].
    cbn [ts_bbs ts_body].
    destruct (annotate (bb_body bb) s (ts_body st)) as [s' body'].
    now apply (Hgo (mkTrace ({[offset]} ∪ ts_visited st) (ts_errored st)
                            (ts_bbs st) (ts_body st))).
  - cbn [ts_bbs ts_body].
    now apply (Hgo (mkTrace (ts_visited st) ({[offset]} ∪ ts_errored st)
                            (ts_bbs st) (ts_body st))).
Qed.

Lemma concat_filter_nonempty {A} (l : list (Z * list A)) :
  concat (map snd (List.filter
                     (fun kb => match snd kb with [] => false | _ => true end) l))
  = concat (map snd l).
Proof.
  induction l as [| [k body] l IH]; simpl; [reflexivity |].
  destruct body; simpl; now rewrite IH.
Qed.

(** X17.  In the block map that [get_basic_blocks] computes and
    returns, the blocks have distinct offsets, no block is empty, and
    the blocks partition the body: every instruction of the function
    lies in exactly one block, once. *)
Theorem blocks_partition_body (limit : nat) (f f' : Function)
    (body : list Instruction) (bbs : odict BasicBlock) :
  fn__bbs f = ONone ->
  fn_body f = Some body ->
  get_basic_blocks limit f = (Ok (OBlocks bbs), f') ->
  NoDup (map fst bbs) /\
  Forall (fun kb => bb_body (snd kb) <> []) bbs /\
  Permutation (block_positions bbs) (seq 0 (length body)).
Proof.
  intros Hb Hbody H. unfold get_basic_blocks in H. rewrite Hb, Hbody in H.
  fold build_start in H.
  destruct (build_blocks body build_start) as [[e | u] st] eqn:Hbuild;
    [discriminate |].
  assert (Hinv : build_inv (length body) st).
  { apply (build_inv_for_each body 0 build_start st u); [| exact Hbuild].
    unfold build_inv, build_start. simpl.
    split; [apply NoDup_singleton |]. split; [now left | constructor]. }
  destruct Hinv as (Hnd & _ & Hperm).
  pose proof (prune_blocks_bodies (bs_bbs st) Hnd) as Hprune.
  pose proof (trace_stack_bodies limit 0 (Some 0)
                (mkTrace ∅ ∅ (prune_blocks (bs_bbs st)) body)) as Htrace.
  destruct (trace_stack limit 0 (Some 0) _) as [[e | u'] ts]; [discriminate |].
  destruct (validate_stack (fn_name f) (ts_body ts)); [discriminate |].
  injection H as <- _. simpl in Htrace. rewrite Hprune in Htrace.
  split; [| split].
  - rewrite <- block_bodies_keys, Htrace.
    rewrite <- block_bodies_keys in Hnd.
    revert Hnd. generalize (block_bodies (bs_bbs st)).
    induction l as [| [k b] l IHl]; simpl; intros Hnd; [constructor |].
    apply NoDup_cons in Hnd as [Hk Hnd].
    rewrite list_elem_of_In in Hk.
    destruct b; simpl; [now apply IHl |].
    apply NoDup_cons. split; [| now apply IHl].
    rewrite list_elem_of_In. intros Hin. apply Hk. apply in_map_iff in Hin as (x & <- & Hx).
    apply filter_In in Hx as [Hx _]. now apply (in_map fst) in Hx.
  - assert (Hall : Forall (fun kb : Z * list nat => snd kb <> [])
                          (block_bodies (ts_bbs ts))).
    { rewrite Htrace. apply List.Forall_forall. intros [k b] Hin.
      apply filter_In in Hin as [_ Hne]. simpl in *. now destruct b. }
    apply List.Forall_forall. intros [k b] Hin.
    rewrite List.Forall_forall in Hall.
    apply (Hall (k, bb_body b)). unfold block_bodies.
    apply in_map_iff. exists (k, b). auto.
  - rewrite <- block_bodies_positions, Htrace, concat_filter_nonempty.
    now rewrite block_bodies_positions.
Qed.

Lemma blocks_partition_body_witness :
  NoDup (map fst [(0, mkBasicBlock 0 (Some 0) [0%nat] [] [6; 5]);
                  (6, mkBasicBlock 6 (Some 0) [2%nat] [0] [5]);
                  (5, mkBasicBlock 5 (Some 0) [1%nat] [0; 6] [])]) /\
  Forall (fun kb => bb_body (snd kb) <> [])
         [(0, mkBasicBlock 0 (Some 0) [0%nat] [] [6; 5]);
          (6, mkBasicBlock 6 (Some 0) [2%nat] [0] [5]);
          (5, mkBasicBlock 5 (Some 0) [1%nat] [0; 6] [])] /\
  Permutation
    (block_positions [(0, mkBasicBlock 0 (Some 0) [0%nat] [] [6; 5]);
                      (6, mkBasicBlock 6 (Some 0) [2%nat] [0] [5]);
                      (5, mkBasicBlock 5 (Some 0) [1%nat] [0; 6] [])])
    (seq 0 (length body_jump_over)).
Proof.
  apply (blocks_partition_body recursion_limit
           (_load_functions_new "F0" None (Some body_jump_over) false None)
           (snd (get_basic_blocks recursion_limit
                   (_load_functions_new "F0" None (Some body_jump_over)
                                        false None)))
           body_jump_over).
  - reflexivity.
  - reflexivity.
  - vm_compute. reflexivity.
Defined.

(** ** The instruction decoder *)

Lemma bind_inv {S A B} (m : M S A) (k : A -> M S B) (s s' : S) (b : B) :
  (m ≫= k) s = (Ok b, s') ->
  exists a s1, m s = (Ok a, s1) /\ k a s1 = (Ok b, s').
Proof.
  unfold mbind, M_bind, bind. destruct (m s) as [[e | a] s1]; [discriminate |].
  intros H. eauto.
Qed.

Lemma mret_inv {S A} (a b : A) (s s' : S) :
  (mret a : M S A) s = (Ok b, s') -> a = b /\ s = s'.
Proof. unfold mret, M_ret, ret. intros [= -> ->]. auto. Qed.

Lemma advance_0 (r : StructReader) : advance 0 r = r.
Proof. destruct r. unfold advance. simpl. now rewrite Nat.add_0_r. Qed.

Lemma consumes_ret {A} (a : A) : consumes (mret a).
Proof.
  intros r b r' H. apply mret_inv in H as [_ <-].
  exists 0%nat. split; [now rewrite advance_0 | lia].
Qed.

Lemma consumes_raise {A} (e : error) : consumes (raise e : M StructReader A).
Proof. intros r a r' H. discriminate H. Qed.

Lemma consumes_lift {A} (x : result A) : consumes (lift x).
Proof.
  intros r a r' H. unfold lift in H. injection H as _ <-.
  exists 0%nat. split; [now rewrite advance_0 | lia].
Qed.

Lemma consumes_tell : consumes reader_tell.
Proof.
  intros r a r' H. unfold reader_tell in H. injection H as _ <-.
  exists 0%nat. split; [now rewrite advance_0 | lia].
Qed.

Lemma consumes_read (n : nat) : consumes (reader_read n).
Proof.
  intros r a r' H. unfold reader_read in H.
  destruct (Nat.ltb_spec (length (remaining r)) n); [discriminate |].
  injection H as _ <-. exists n. split; [reflexivity | lia].
Qed.

Lemma consumes_bind {A B} (m : M StructReader A) (k : A -> M StructReader B) :
  consumes m -> (forall a, consumes (k a)) -> consumes (m ≫= k).
Proof.
  intros Hm Hk r b r' H. apply bind_inv in H as (a & r1 & H1 & H2).
  destruct (Hm _ _ _ H1) as (n1 & -> & Hn1).
  destruct (Hk a _ _ _ H2) as (n2 & -> & Hn2).
  rewrite remaining_advance, length_drop in Hn2.
  exists (n1 + n2)%nat. split; [apply advance_advance | lia].
Qed.

(* Proves [consumes] for a reading step built from the reader's
   primitives with bind. *)
Ltac consumes_tac :=
  repeat first
    [ apply consumes_ret | apply consumes_raise | apply consumes_lift
    | apply consumes_tell | apply consumes_read
    | assumption
    | apply consumes_bind; [| intros ?] ].

(* The same, through nested binds and the composite readers. *)
Ltac reader_steps :=
  first
    [ apply consumes_ret | apply consumes_raise | apply consumes_lift
    | apply consumes_tell | apply consumes_read
    | match goal with H : _ |- _ => apply H end
    | apply consumes_bind; [reader_steps | intros ?; reader_steps] ].

Lemma consumes_u8 : consumes reader_u8.
Proof. unfold reader_u8. consumes_tac. Qed.

Lemma consumes_u32 : consumes reader_u32.
Proof. unfold reader_u32. consumes_tac. Qed.

Lemma consumes_i32 : consumes reader_i32.
Proof. unfold reader_i32, reader_u32. reader_steps. Qed.






Section DecoderFacts.

Variable unit_types : list IFPSType.
Variable unit_void : bool.
Variable _read_value : M StructReader Value.
Hypothesis read_value_consumes : consumes _read_value.

Lemma consumes_read_operand : consumes (_read_operand unit_void _read_value).
Proof.
  unfold _read_operand.
  apply consumes_bind; [apply consumes_u8 | intros b].
  apply consumes_bind; [apply consumes_lift | intros ot].
  destruct ot;
    repeat first
      [ apply consumes_ret | exact read_value_consumes
      | apply consumes_bind; [first [apply consumes_u32 | exact read_value_consumes] | intros ?] ].
Qed.

Lemma consumes_read_args (k : nat) :
  consumes (read_args unit_void _read_value k).
Proof.
  induction k as [| k IH]; simpl; [apply consumes_ret |].
  apply consumes_bind; [apply consumes_read_operand | intros o].
  apply consumes_bind; [exact IH | intros]. apply consumes_ret.
Qed.

Lemma consumes_read_target : consumes read_target.
Proof.
  unfold read_target.
  apply consumes_bind; [apply consumes_i32 | intros].
  apply consumes_bind; [apply consumes_tell | intros]. apply consumes_ret.
Qed.

Lemma consumes_read_operands (code : Op) :
  consumes (read_operands unit_types unit_void _read_value code).
Proof.
  pose proof consumes_read_operand as Hop.
  pose proof consumes_read_args as Hargs.
  unfold read_operands.
  destruct code; cbv beta iota delta [argcount]; unfold read_target;
    reader_steps.
Qed.

(** What one turn of the loop does to the reader and what it records in
    the instruction. *)
Lemma decode_insn_layout (r r' : StructReader) (insn : Instruction) :
  decode_insn unit_types unit_void _read_value r = (Ok insn, r') ->
  exists n,
    r' = advance (S n) r /\ (S n <= length (remaining r))%nat /\
    insn_offset insn = Z.of_nat (rd_cursor r) /\
    insn_size insn = Z.of_nat (S n) /\
    insn_stack insn = None /\ insn_jumptarget insn = false.
Proof.
  unfold decode_insn. intros H.
  apply bind_inv in H as (addr & r0 & H0 & H).
  unfold reader_tell in H0. injection H0 as <- <-.
  apply bind_inv in H as (cval & r1 & H1 & H).
  unfold reader_u8 in H1. apply bind_inv in H1 as (bs & r1' & Hread & Hret).
  apply mret_inv in Hret as [_ <-].
  unfold reader_read in Hread.
  destruct (Nat.ltb_spec (length (remaining r)) 1); [discriminate |].
  injection Hread as _ <-.
  apply bind_inv in H as (oo & r2 & H2 & H).
  destruct (consumes_read_operands _ _ _ _ H2) as (n & -> & Hn).
  rewrite remaining_advance, length_drop in Hn.
  apply bind_inv in H as (end_ & r3 & H3 & H).
  unfold reader_tell in H3. injection H3 as <- <-.
  apply mret_inv in H as [<- <-].
  exists n. rewrite advance_advance. simpl.
  repeat split; try reflexivity; try lia.
Qed.


End DecoderFacts.



Section DecoderLoop.

Variable unit_types : list IFPSType.
Variable unit_void : bool.
Variable _read_value : M StructReader Value.
Hypothesis read_value_consumes : consumes _read_value.

Lemma decode_loop_returns (turns : nat) :
  forall dis r,
    (length (remaining r) < turns)%nat ->
    decode_loop unit_types unit_void _read_value turns dis r <> None.
Proof.
  induction turns as [| turns IH]; intros dis r Hlen; [lia |].
  cbn [decode_loop]. destruct (reader_eof r); [discriminate |].
  destruct (decode_insn unit_types unit_void _read_value r)
    as [[e | insn] r'] eqn:Hd; [discriminate |].
  destruct (decode_insn_layout _ _ _ read_value_consumes _ _ _ Hd)
    as (n & -> & Hn & _).
  apply IH. rewrite remaining_advance, length_drop. lia.
Qed.


End DecoderLoop.










Lemma od_get_unique {A} (d : odict A) (k : Z) (a : A) :
  NoDup (map fst d) -> In (k, a) d -> od_get d k = Some a.
Proof.
  intros Hnd Hin. destruct (od_get d k) as [a0 |] eqn:Hget.
  - f_equal. eapply NoDup_keys_unique; eauto using od_get_In.
  - apply od_get_None_keys in Hget. exfalso. apply Hget.
    now apply (in_map fst) in Hin.
Qed.

Section DecoderResult.

Variable unit_types : list IFPSType.
Variable unit_void : bool.
Variable _read_value : M StructReader Value.
Hypothesis read_value_consumes : consumes _read_value.



(** X18. Decoding a function body always comes to an end: whatever the
    bytes, the first loop of [_parse_bytecode] takes at most one turn per
    byte, provided the value decoder only moves forward in the data. *)
Theorem parse_bytecode_terminates (data : list byte) :
  _parse_bytecode unit_types unit_void _read_value data <> None.
Proof.
  unfold _parse_bytecode.
  pose proof (decode_loop_returns unit_types unit_void _ read_value_consumes
                (S (length data)) [] (mkReader data 0)) as H.
  destruct (decode_loop _ _ _ _ _ _) as [[e | dis] |]; try discriminate.
  exfalso. apply H; [| reflexivity].
  unfold remaining. cbn [rd_cursor rd_buf]. rewrite length_drop. lia.
Qed.




End DecoderResult.



Section DecoderErrors.

Variable unit_types : list IFPSType.
Variable unit_void : bool.
Variable _read_value : M StructReader Value.
Hypothesis read_value_consumes : consumes _read_value.


End DecoderErrors.

(** X23. A byte that is not the value of an opcode stops the decoder,
    wherever it stands: the instruction at the cursor fails with
    [ValueError] after the byte has been read, and a body that begins
    with such a byte is not decoded at all. *)
Theorem unsupported_opcode (unit_types : list IFPSType) (unit_void : bool)
    (_read_value : M StructReader Value) (b : byte) (rest : list byte) :
  Op_FromInt (le_value [b]) = _INVALID ->
  (forall r, remaining r = b :: rest ->
     decode_insn unit_types unit_void _read_value r =
       (Err PyValueError, advance 1 r)) /\
  _parse_bytecode unit_types unit_void _read_value (b :: rest) =
    Some (inl (Raised PyValueError)).
Proof.
  intros Hb.
  assert (Hd : forall r, remaining r = b :: rest ->
     decode_insn unit_types unit_void _read_value r =
       (Err PyValueError, advance 1 r)).
  { intros r Hr. unfold decode_insn.
    erewrite bind_ok by (unfold reader_tell; reflexivity).
    erewrite (bind_ok reader_u8 _ r (advance 1 r) (le_value [b])).
    - rewrite Hb. reflexivity.
    - unfold reader_u8, mbind, M_bind, bind, reader_read. rewrite Hr.
      reflexivity. }
  split; [exact Hd |].
  unfold _parse_bytecode. cbn [decode_loop length].
  unfold reader_eof, remaining_bytes.
  rewrite (Hd (mkReader (b :: rest) 0) eq_refl). reflexivity.
Qed.

(** X24. [Op.FromInt] inverts the opcode values: the opcode of a value
    of the enumeration is that member, and a number is mapped either to
    [_INVALID] or to the member that has this number as its value. *)
Theorem Op_FromInt_value (o : Op) (code : Z) :
  Op_FromInt (Op_value o) = o /\
  (Op_FromInt code = _INVALID \/ Op_value (Op_FromInt code) = code).
Proof.
  split; [now destruct o |].
  unfold Op_FromInt.
  destruct (find (fun o => Op_value o =? code) all_Op) as [o' |] eqn:Hf;
    [| now left].
  right. apply find_some in Hf as [_ Hv]. simpl. now apply Z.eqb_eq in Hv.
Qed.

(** ** The edges of the block map *)

Lemma In_keys_add (t k : Z) (ks : list Z) :
  In t (keys_add k ks) <-> t = k \/ In t ks.
Proof.
  unfold keys_add. destruct (existsb (Z.eqb k) ks) eqn:E.
  - apply existsb_exists in E as (x & Hx & Hk). apply Z.eqb_eq in Hk. subst x.
    split; [now right | intros [-> | H]; assumption].
  - rewrite in_app_iff. simpl. split; intros [H | H]; auto.
    destruct H as [-> | []]. now left.
Qed.

Lemma In_keys_pop (t k : Z) (ks : list Z) :
  In t (keys_pop k ks) <-> In t ks /\ t <> k.
Proof.
  unfold keys_pop. rewrite filter_In.
  destruct (Z.eqb_spec t k); simpl; split; intros [H1 H2]; split;
    congruence || auto.
Qed.

Lemma od_get_update_Some {A} (d : odict A) (k k' : Z) (f : A -> A) (a' : A) :
  od_get (od_update d k f) k' = Some a' ->
  exists a, od_get d k' = Some a /\ a' = if k' =? k then f a else a.
Proof.
  rewrite od_get_update. destruct (k' =? k), (od_get d k') as [a |]; simpl;
    intros [= <-]; eauto.
Qed.

Lemma od_get_update_of {A} (d : odict A) (k k' : Z) (f : A -> A) (a : A) :
  od_get d k' = Some a ->
  od_get (od_update d k f) k' = Some (if k' =? k then f a else a).
Proof. intros H. rewrite od_get_update, H. now destruct (k' =? k). Qed.

Lemma edges_back_update (bbs : odict BasicBlock) (k : Z)
    (f : BasicBlock -> BasicBlock) :
  keeps_edges f -> edges_back bbs -> edges_back (od_update bbs k f).
Proof.
  intros Hf H k0 b' t Hget Hin.
  apply od_get_update_Some in Hget as (b & Hb & ->).
  assert (Hin' : In t (bb_targets b)).
  { destruct (k0 =? k); [now rewrite (proj1 (Hf b)) in Hin | exact Hin]. }
  destruct (H _ _ _ Hb Hin') as (bt & Hbt & Hsrc).
  eexists. split; [apply od_get_update_of; exact Hbt |].
  destruct (t =? k); [now rewrite (proj2 (Hf bt)) | exact Hsrc].
Qed.

Lemma edges_back_set_new (bbs : odict BasicBlock) (k : Z) :
  od_get bbs k = None -> edges_back bbs ->
  edges_back (od_set bbs k (BasicBlock_new k)).
Proof.
  intros Hk H k0 b t Hget Hin.
  destruct (Z.eq_dec k k0) as [<- | Hne].
  - rewrite od_get_set_eq in Hget. injection Hget as <-. destruct Hin.
  - rewrite od_get_set_ne in Hget by exact Hne.
    destruct (H _ _ _ Hget Hin) as (bt & Hbt & Hsrc).
    exists bt. split; [| exact Hsrc].
    rewrite od_get_set_ne; [exact Hbt | congruence].
Qed.

(** A new edge from [s] to [t], written at both ends, in either order. *)
Lemma edges_back_add (bbs : odict BasicBlock) (s t : Z) :
  od_get bbs t <> None -> edges_back bbs ->
  edges_back (od_update (od_update bbs s (add_target t)) t (add_source s)) /\
  edges_back (od_update (od_update bbs t (add_source s)) s (add_target t)).
Proof.
  intros Ht H.
  assert (G : forall bbs2,
            (forall k b2, od_get bbs2 k = Some b2 ->
               exists b, od_get bbs k = Some b /\
                 bb_targets b2 = (if k =? s then keys_add t (bb_targets b)
                                  else bb_targets b)) ->
            (forall k b, od_get bbs k = Some b ->
               exists b2, od_get bbs2 k = Some b2 /\
                 bb_sources b2 = (if k =? t then keys_add s (bb_sources b)
                                  else bb_sources b)) ->
            edges_back bbs2).
  { intros bbs2 Hback Hfwd k b2 t' Hget Hin.
    destruct (Hback _ _ Hget) as (b & Hb & Htg). rewrite Htg in Hin.
    assert (Hcase : In t' (bb_targets b) \/ (k = s /\ t' = t)).
    { destruct (Z.eqb_spec k s); [| now left].
      apply In_keys_add in Hin as [-> | Hin]; auto. }
    destruct Hcase as [Hold | [-> ->]].
    - destruct (H _ _ _ Hb Hold) as (bt & Hbt & Hsrc).
      destruct (Hfwd _ _ Hbt) as (bt2 & Hbt2 & Hs2).
      exists bt2. split; [exact Hbt2 |]. rewrite Hs2.
      destruct (t' =? t); [apply In_keys_add; now right | exact Hsrc].
    - destruct (od_get bbs t) as [bt |] eqn:Hbt; [| congruence].
      destruct (Hfwd _ _ Hbt) as (bt2 & Hbt2 & Hs2).
      exists bt2. split; [exact Hbt2 |]. rewrite Hs2, Z.eqb_refl.
      apply In_keys_add. now left. }
  split; apply G.
  - intros k b2 Hget.
    apply od_get_update_Some in Hget as (b1 & Hget & ->).
    apply od_get_update_Some in Hget as (b & Hget & ->).
    exists b. split; [exact Hget |].
    destruct (k =? t), (k =? s); reflexivity.
  - intros k b Hget.
    eexists. split.
    + apply od_get_update_of, od_get_update_of. exact Hget.
    + destruct (k =? t), (k =? s); reflexivity.
  - intros k b2 Hget.
    apply od_get_update_Some in Hget as (b1 & Hget & ->).
    apply od_get_update_Some in Hget as (b & Hget & ->).
    exists b. split; [exact Hget |].
    destruct (k =? t), (k =? s); reflexivity.
  - intros k b Hget.
    eexists. split.
    + apply od_get_update_of, od_get_update_of. exact Hget.
    + destruct (k =? t), (k =? s); reflexivity.
Qed.

Lemma keeps_edges_append_insn (pos : nat) : keeps_edges (append_insn pos).
Proof. intros b. split; reflexivity. Qed.

Lemma keeps_edges_set_bb_stack (s : option Z) : keeps_edges (set_bb_stack s).
Proof. intros b. split; reflexivity. Qed.

Lemma edges_back_link_targets (bb : Z) (targets : list Z) :
  forall bbs, edges_back bbs -> edges_back (link_targets bb targets bbs).
Proof.
  unfold link_targets.
  induction targets as [| t targets IH]; intros bbs H; simpl; [exact H |].
  apply IH. apply edges_back_add.
  - destruct (od_get bbs t) eqn:Ht; [congruence |].
    now rewrite od_get_set_eq.
  - destruct (od_get bbs t) eqn:Ht; [exact H |].
    now apply edges_back_set_new.
Qed.

Lemma edges_back_build_insn (pos : nat) (insn : Instruction) (st : build_state) :
  edges_back (bs_bbs st) -> edges_back (bs_bbs (snd (build_insn pos insn st))).
Proof.
  intros H. unfold build_insn.
  set (sel := match od_get (bs_bbs st) (insn_offset insn) with
              | Some _ => _
              | None => _
              end).
  assert (Hsel : edges_back (fst sel)).
  { subst sel. destruct (od_get (bs_bbs st) (insn_offset insn)) eqn:Hget;
      [exact H |].
    destruct (insn_jumptarget insn); [| exact H]. simpl.
    apply edges_back_add.
    - now rewrite od_get_set_eq.
    - now apply edges_back_set_new. }
  destruct sel as [bbs bb]. simpl in Hsel.
  assert (Happ : edges_back (od_update bbs bb (append_insn pos)))
    by (apply edges_back_update; [apply keeps_edges_append_insn | exact Hsel]).
  destruct (negb (branches insn)); [exact Happ |].
  destruct (insn_operands insn) as [| a ops]; [exact Happ |].
  destruct a; try exact Happ.
  cbn [snd bs_bbs]. now apply edges_back_link_targets.
Qed.

Lemma od_get_block_targets (bbs : odict BasicBlock) (k : Z) :
  od_get (block_targets bbs) k = bb_targets <$> od_get bbs k.
Proof.
  unfold block_targets. induction bbs as [| [k0 b] bbs IH]; simpl; [reflexivity |].
  destruct (k0 =? k); [reflexivity | exact IH].
Qed.

Lemma block_targets_update_same (d : odict BasicBlock) (k : Z)
    (f : BasicBlock -> BasicBlock) :
  keeps_edges f -> block_targets (od_update d k f) = block_targets d.
Proof.
  intros Hf. unfold block_targets, od_update. rewrite map_map.
  apply map_ext. intros [k0 b]. simpl.
  destruct (k0 =? k); simpl; [now rewrite (proj1 (Hf b)) | reflexivity].
Qed.

(** What the sweep over the sources of a deleted block does to the
    block under [k]. *)
Lemma pop_sweep_get (o : Z) (srcs : list Z) :
  forall (d : odict BasicBlock) (k : Z),
    (forall b2, od_get (fold_left (fun acc source =>
                                     od_update acc source (pop_target o))
                                  srcs d) k = Some b2 ->
       exists b, od_get d k = Some b /\
                 incl (bb_targets b2) (bb_targets b) /\
                 (In k srcs -> ~ In o (bb_targets b2))) /\
    (od_get d k <> None ->
     od_get (fold_left (fun acc source => od_update acc source (pop_target o))
                       srcs d) k <> None).
Proof.
  induction srcs as [| s srcs IH]; intros d k; simpl.
  - split; [| auto]. intros b2 H. exists b2.
    split; [exact H |]. split; [apply incl_refl | intros []].
  - destruct (IH (od_update d s (pop_target o)) k) as [IH1 IH2]. split.
    + intros b2 H. destruct (IH1 _ H) as (b1 & Hb1 & Hincl & Hpop).
      apply od_get_update_Some in Hb1 as (b & Hb & ->).
      exists b. split; [exact Hb |].
      assert (Hsub : incl (bb_targets (if k =? s then pop_target o b else b))
                          (bb_targets b)).
      { destruct (k =? s); [| apply incl_refl].
        intros t Ht. now apply In_keys_pop in Ht as [Ht _]. }
      split; [eapply incl_tran; eassumption |].
      intros [<- | Hin]; [| now apply Hpop].
      intros Ho. apply Hincl in Ho. rewrite Z.eqb_refl in Ho.
      now apply In_keys_pop in Ho as [_ Ho].
    + intros Hd. apply IH2. rewrite od_get_update.
      destruct (k =? s), (od_get d k); simpl; congruence.
Qed.

Lemma od_get_del_eq {A} (d : odict A) (k : Z) : od_get (od_del d k) k = None.
Proof.
  apply od_get_None_keys. unfold od_del. intros Hin.
  apply in_map_iff in Hin as ([k0 a] & Hk & Hin). simpl in Hk. subst k0.
  apply filter_In in Hin as [_ Hf]. simpl in Hf. now rewrite Z.eqb_refl in Hf.
Qed.

(** After the second loop of [get_basic_blocks] every target of a
    remaining block is a remaining block, when the first loop has
    recorded every edge at both ends. *)
Lemma prune_blocks_closed (bbs : odict BasicBlock) :
  NoDup (map fst bbs) -> edges_back bbs ->
  targets_closed (block_targets (prune_blocks bbs)).
Proof.
  intros Hnd Hedges. unfold prune_blocks.
  set (step := fun (acc : odict BasicBlock) (ob : Z * BasicBlock) =>
                 match bb_body (snd ob) with
                 | _ :: _ => acc
                 | [] =>
                     fold_left
                       (fun acc source =>
                          od_update acc source (pop_target (fst ob)))
                       (bb_sources (snd ob)) (od_del acc (fst ob))
                 end).
  assert (G : forall snap acc,
            NoDup (map fst snap) ->
            (forall kb, In kb snap -> od_get bbs (fst kb) = Some (snd kb)) ->
            (forall k b', od_get acc k = Some b' ->
               exists b, od_get bbs k = Some b /\
                         incl (bb_targets b') (bb_targets b) /\
                         (bb_body b = [] -> In (k, b) snap)) ->
            (forall k b, od_get bbs k = Some b ->
               bb_body b <> [] \/ In (k, b) snap -> od_get acc k <> None) ->
            (forall k b' t bt, od_get acc k = Some b' -> In t (bb_targets b') ->
               od_get bbs t = Some bt -> In k (bb_sources bt) ->
               bb_body bt = [] -> In (t, bt) snap) ->
            targets_closed (block_targets (fold_left step snap acc))).
  { induction snap as [| [o bo] snap IH]; intros acc Hnds Hsnap H1 H2 H3.
    - simpl. intros k ts t Hk Hin.
      rewrite od_get_block_targets in Hk |- *.
      destruct (od_get acc k) as [b' |] eqn:Hb'; [| discriminate].
      injection Hk as <-.
      destruct (H1 _ _ Hb') as (b & Hb & Hincl & _).
      destruct (Hedges _ _ _ Hb (Hincl _ Hin)) as (bt & Hbt & Hsrc).
      assert (Hne : bb_body bt <> []).
      { intros Hempty. exact (H3 _ _ _ _ Hb' Hin Hbt Hsrc Hempty). }
      assert (Hacc : od_get acc t <> None) by (eapply H2; eauto).
      destruct (od_get acc t); [discriminate | congruence].
    - cbn [fold_left]. apply NoDup_cons in Hnds as [Ho Hnds].
      rewrite list_elem_of_In in Ho. cbn [map fst] in Ho.
      assert (Hbo : od_get bbs o = Some bo) by (apply (Hsnap (o, bo)); now left).
      assert (Hfresh : forall b, ~ In (o, b) snap).
      { intros b Hin. apply Ho. now apply (in_map fst) in Hin. }
      apply IH; [exact Hnds | intros kb Hkb; apply Hsnap; now right | | |];
        unfold step; cbn [fst snd];
        destruct (bb_body bo) as [| p ps] eqn:Hbody.
      + intros k b' Hget.
        destruct (pop_sweep_get o (bb_sources bo) (od_del acc o) k) as [S1 _].
        destruct (S1 _ Hget) as (b1 & Hb1 & Hincl1 & _).
        assert (Hne : o <> k).
        { intros <-. now rewrite od_get_del_eq in Hb1. }
        rewrite od_get_del_ne in Hb1 by exact Hne.
        destruct (H1 _ _ Hb1) as (b & Hb & Hincl & Hpend).
        exists b. split; [exact Hb |].
        split; [eapply incl_tran; eassumption |].
        intros Hempty. destruct (Hpend Hempty) as [E | Hin]; [congruence | exact Hin].
      + intros k b' Hget.
        destruct (H1 _ _ Hget) as (b & Hb & Hincl & Hpend).
        exists b. split; [exact Hb |]. split; [exact Hincl |].
        intros Hempty. destruct (Hpend Hempty) as [E | Hin]; [| exact Hin].
        injection E as -> ->. congruence.
      + intros k b Hb Hcase.
        assert (Hne : o <> k).
        { intros <-. assert (b = bo) as -> by congruence.
          destruct Hcase as [Hc | Hc]; [congruence | now apply Hfresh in Hc]. }
        destruct (pop_sweep_get o (bb_sources bo) (od_del acc o) k) as [_ S2].
        apply S2. rewrite od_get_del_ne by exact Hne.
        apply (H2 _ _ Hb). destruct Hcase; [now left | right; now right].
      + intros k b Hb Hcase. apply (H2 _ _ Hb).
        destruct Hcase; [now left | right; now right].
      + intros k b' t bt Hget Hin Hbt Hsrc Hempty.
        destruct (pop_sweep_get o (bb_sources bo) (od_del acc o) k) as [S1 _].
        destruct (S1 _ Hget) as (b1 & Hb1 & Hincl1 & Hpop).
        assert (Hne : o <> k).
        { intros <-. now rewrite od_get_del_eq in Hb1. }
        rewrite od_get_del_ne in Hb1 by exact Hne.
        destruct (H3 _ _ _ _ Hb1 (Hincl1 _ Hin) Hbt Hsrc Hempty) as [E | Hrest];
          [| exact Hrest].
        injection E as -> ->. exfalso. now apply Hpop.
      + intros k b' t bt Hget Hin Hbt Hsrc Hempty.
        destruct (H3 _ _ _ _ Hget Hin Hbt Hsrc Hempty) as [E | Hrest];
          [| exact Hrest].
        injection E as -> ->. congruence. }
  apply G.
  - exact Hnd.
  - intros [k b] Hin. simpl. now apply od_get_unique.
  - intros k b Hb. exists b. split; [exact Hb |]. split; [apply incl_refl |].
    intros _. now apply od_get_In.
  - intros k b Hb _. congruence.
  - intros k b t bt _ _ Hbt _ _. now apply od_get_In.
Qed.

Lemma for_each_never {S A} (e : error) (P : S -> Prop) (l : list A)
    (body : A -> M S unit) :
  (forall x s, In x l -> P s ->
     fst (body x s) <> Err e /\ P (snd (body x s))) ->
  forall s, P s -> fst (for_each l body s) <> Err e.
Proof.
  induction l as [| x l IH]; intros Hbody s Hs; simpl; [discriminate |].
  unfold bind. destruct (Hbody x s (or_introl eq_refl) Hs) as [Hne HP].
  destruct (body x s) as [[e' | u] s']; simpl in *; [exact Hne |].
  apply IH; [| exact HP]. intros y s0 Hy. apply Hbody. now right.
Qed.

Lemma trace_stack_targets (depth : nat) :
  forall offset stack st,
    block_targets (ts_bbs (snd (trace_stack depth offset stack st))) =
    block_targets (ts_bbs st).
Proof.
  induction depth as [| depth IH]; intros offset stack st; [reflexivity |].
  cbn [trace_stack].
  destruct (bool_decide (offset ∈ ts_errored st)); [reflexivity |].
  destruct (od_get (ts_bbs st) offset) as [bb |]; [| reflexivity].
  set (stack' := match bb_stack bb, stack with
                 | Some s0, Some s => if s =? s0 then stack else None
                 | _, _ => stack
                 end).
  assert (Hgo : forall st0 stk body,
            ts_bbs st0 = ts_bbs st ->
            block_targets
              (ts_bbs (snd (for_each (bb_targets bb)
                              (fun t => trace_stack depth t stk)
                              (mkTrace (ts_visited st0) (ts_errored st0)
                                 (od_update (ts_bbs st0) offset
                                            (set_bb_stack stack'))
                                 body)))) = block_targets (ts_bbs st)).
  { intros st0 stk body H0.
    apply (for_each_invariant
             (fun s => block_targets (ts_bbs s) = block_targets (ts_bbs st))).
    - intros t s Hs. now rewrite IH.
    - simpl. rewrite H0.
      apply block_targets_update_same, keeps_edges_set_bb_stack. }
  destruct stack' as [s |] eqn:Hstack.
  - destruct (bool_decide (offset ∈ ts_visited st)); [reflexivity |].
    cbn [ts_bbs ts_body].
    destruct (annotate (bb_body bb) s (ts_body st)) as [s' body'].
    now apply (Hgo (mkTrace ({[offset]} ∪ ts_visited st) (ts_errored st)
                            (ts_bbs st) (ts_body st))).
  - cbn [ts_bbs ts_body].
    now apply (Hgo (mkTrace (ts_visited st) ({[offset]} ∪ ts_errored st)
                            (ts_bbs st) (ts_body st))).
Qed.

(** The stack propagation looks up no missing block when it starts at a
    block of a dictionary whose targets are all blocks. *)
Lemma trace_stack_no_KeyError (depth : nat) :
  forall offset stack st,
    targets_closed (block_targets (ts_bbs st)) ->
    od_get (block_targets (ts_bbs st)) offset <> None ->
    fst (trace_stack depth offset stack st) <> Err PyKeyError.
Proof.
  induction depth as [| depth IH]; intros offset stack st Hcl Hoff;
    [discriminate |].
  cbn [trace_stack].
  destruct (bool_decide (offset ∈ ts_errored st)); [discriminate |].
  pose proof Hoff as Hoff'. rewrite od_get_block_targets in Hoff'.
  destruct (od_get (ts_bbs st) offset) as [bb |] eqn:Hbb; [| now destruct Hoff'].
  assert (Hbts : od_get (block_targets (ts_bbs st)) offset = Some (bb_targets bb))
    by now rewrite od_get_block_targets, Hbb.
  set (stack' := match bb_stack bb, stack with
                 | Some s0, Some s => if s =? s0 then stack else None
                 | _, _ => stack
                 end).
  assert (Hgo : forall st0 stk body,
            ts_bbs st0 = ts_bbs st ->
            fst (for_each (bb_targets bb)
                          (fun t => trace_stack depth t stk)
                          (mkTrace (ts_visited st0) (ts_errored st0)
                             (od_update (ts_bbs st0) offset
                                        (set_bb_stack stack'))
                             body)) <> Err PyKeyError).
  { intros st0 stk body H0.
    apply (for_each_never PyKeyError
             (fun s => block_targets (ts_bbs s) = block_targets (ts_bbs st))).
    - intros t s Ht Hs. split; [| now rewrite trace_stack_targets].
      apply IH; rewrite Hs; [exact Hcl |].
      exact (Hcl _ _ _ Hbts Ht).
    - simpl. rewrite H0.
      apply block_targets_update_same, keeps_edges_set_bb_stack. }
  destruct stack' as [s |] eqn:Hstack.
  - destruct (bool_decide (offset ∈ ts_visited st)); [discriminate |].
    cbn [ts_bbs ts_body].
    destruct (annotate (bb_body bb) s (ts_body st)) as [s' body'].
    now apply (Hgo (mkTrace ({[offset]} ∪ ts_visited st) (ts_errored st)
                            (ts_bbs st) (ts_body st))).
  - cbn [ts_bbs ts_body].
    now apply (Hgo (mkTrace (ts_visited st) ({[offset]} ∪ ts_errored st)
                            (ts_bbs st) (ts_body st))).
Qed.

Lemma for_each_errors {S A} (Q : error -> Prop) (l : list A)
    (body : A -> M S unit) :
  (forall x s e, fst (body x s) = Err e -> Q e) ->
  forall s e, fst (for_each l body s) = Err e -> Q e.
Proof.
  intros Hbody. induction l as [| x l IH]; intros s e; simpl; [discriminate |].
  unfold bind. pose proof (Hbody x s) as Hx.
  destruct (body x s) as [[e' | u] s']; simpl in *; [| apply IH].
  intros [= <-]. now apply Hx.
Qed.

Lemma build_insn_errors (pos : nat) (insn : Instruction) (st : build_state)
    (e : error) :
  fst (build_insn pos insn st) = Err e ->
  branches insn = true /\ branch_target insn = None.
Proof.
  unfold build_insn, branch_target.
  destruct (match od_get (bs_bbs st) (insn_offset insn) with
            | Some _ => _
            | None => _
            end) as [bbs bb].
  destruct (branches insn); simpl; [| discriminate].
  destruct (insn_operands insn) as [| a ops]; [auto |].
  destruct a; simpl; auto; discriminate.
Qed.

Lemma build_insn_no_KeyError (pos : nat) (insn : Instruction)
    (st : build_state) :
  fst (build_insn pos insn st) <> Err PyKeyError.
Proof.
  unfold build_insn.
  destruct (match od_get (bs_bbs st) (insn_offset insn) with
            | Some _ => _
            | None => _
            end) as [bbs bb].
  destruct (negb (branches insn)); [discriminate |].
  destruct (insn_operands insn) as [| a ops]; [discriminate |].
  destruct a; discriminate.
Qed.

Lemma build_blocks_errors (body : list Instruction) (st : build_state)
    (e : error) :
  fst (build_blocks body st) = Err e ->
  e <> PyKeyError /\
  exists insn, In insn body /\ branches insn = true /\
               branch_target insn = None.
Proof.
  unfold build_blocks.
  assert (G : forall (g : nat -> nat) st,
            fst (for_each (imap (fun pos insn => (g pos, insn)) body)
                          (fun pi => build_insn (fst pi) (snd pi)) st) = Err e ->
            e <> PyKeyError /\
            exists insn, In insn body /\ branches insn = true /\
                         branch_target insn = None).
  { clear st. induction body as [| insn body IH]; intros g st; [discriminate |].
    rewrite imap_cons. cbn [for_each fst snd]. unfold bind.
    pose proof (build_insn_errors (g 0%nat) insn st) as He.
    pose proof (build_insn_no_KeyError (g 0%nat) insn st) as Hk.
    destruct (build_insn (g 0%nat) insn st) as [[e' | u] st'].
    - simpl. intros H. injection H as ->.
      split; [intros ->; now apply Hk |].
      exists insn. split; [now left | now apply (He e)].
    - intros H.
      destruct (IH (fun p => g (S p)) st' H) as (Hne & i & Hi & Hbr).
      split; [exact Hne |]. exists i. split; [now right | exact Hbr]. }
  exact (G (fun p => p) st).
Qed.

Lemma trace_stack_errors (depth : nat) :
  forall offset stack st e,
    fst (trace_stack depth offset stack st) = Err e ->
    e = PyKeyError \/ e = PyRecursionError.
Proof.
  induction depth as [| depth IH]; intros offset stack st e.
  - simpl. intros [= <-]. now right.
  - cbn [trace_stack].
    destruct (bool_decide (offset ∈ ts_errored st)); [discriminate |].
    destruct (od_get (ts_bbs st) offset) as [bb |];
      [| simpl; intros [= <-]; now left].
    destruct (match bb_stack bb, stack with
              | Some s0, Some s => if s =? s0 then stack else None
              | _, _ => stack
              end) as [s |].
    + destruct (bool_decide (offset ∈ ts_visited st)); [discriminate |].
      cbn [ts_bbs ts_body].
      destruct (annotate (bb_body bb) s (ts_body st)) as [s' body'].
      apply (for_each_errors
               (fun e => e = PyKeyError \/ e = PyRecursionError)).
      intros t s0 e0. apply IH.
    + cbn [ts_bbs ts_body].
      apply (for_each_errors
               (fun e => e = PyKeyError \/ e = PyRecursionError)).
      intros t s0 e0. apply IH.
Qed.

Lemma check_operands_errors (name : string) (offset stack : Z) (ops : list arg) :
  forall (k : nat) (e : error),
    check_operands name offset stack k ops = Err e ->
    exists k' index, e = StackUnderflow name offset k' index stack.
Proof.
  induction ops as [| a ops IH]; intros k e; simpl; [discriminate |].
  unfold mbind, result_bind.
  destruct (check_operand name offset stack k a) as [e' | u] eqn:Hc.
  - intros [= <-]. unfold check_operand in Hc.
    destruct a; try discriminate.
    destruct (op_variant o) as [v |]; [| discriminate].
    destruct (negb (bool_decide (v_type v = Local))); [discriminate |].
    destruct (v_index v <=? stack); [discriminate |].
    injection Hc as <-. eauto.
  - apply IH.
Qed.

Lemma validate_stack_errors (name : string) (body : list Instruction)
    (e : error) :
  validate_stack name body = Err e ->
  exists offset k index stack, e = StackUnderflow name offset k index stack.
Proof.
  induction body as [| insn body IH]; simpl; [discriminate |].
  unfold mbind, result_bind.
  destruct (insn_stack insn) as [s |]; [| exact IH].
  destruct (check_operands name (insn_offset insn) s 0 (insn_operands insn))
    as [e' | u] eqn:Hc; [| exact IH].
  intros [= <-]. apply check_operands_errors in Hc as (k & i & ->). eauto.
Qed.

Lemma edges_back_build_blocks (body : list Instruction) :
  edges_back (bs_bbs (snd (build_blocks body build_start))).
Proof.
  unfold build_blocks.
  apply (for_each_invariant (fun st => edges_back (bs_bbs st))).
  - intros [pos insn] st. apply edges_back_build_insn.
  - unfold build_start. intros k b t Hget Hin.
    cbn [bs_bbs od_get] in Hget.
    destruct (Z.eqb 0 k); [| discriminate Hget].
    injection Hget as <-. destruct Hin.
Qed.

(** How [get_basic_blocks] can fail on a function whose body begins
    with the instruction at offset 0. *)
Lemma get_basic_blocks_failures (limit : nat) (f : Function)
    (insn : Instruction) (body : list Instruction) (e : error) :
  fn__bbs f = ONone ->
  fn_body f = Some (insn :: body) ->
  insn_offset insn = 0 ->
  fst (get_basic_blocks limit f) = Err e ->
  e = PyRecursionError \/
  (exists offset k index stack,
     e = StackUnderflow (fn_name f) offset k index stack) \/
  (e <> PyKeyError /\
   exists i, In i (insn :: body) /\ branches i = true /\
             branch_target i = None).
Proof.
  intros Hbbs Hbody Hoff. unfold get_basic_blocks. rewrite Hbbs, Hbody.
  fold build_start.
  pose proof (holds_first_build_blocks insn body Hoff) as Hfirst.
  pose proof (edges_back_build_blocks (insn :: body)) as Hedges.
  pose proof (build_blocks_errors (insn :: body) build_start) as Herr.
  destruct (build_blocks (insn :: body) build_start) as [[e0 | u] st] eqn:Hbuild.
  - simpl. intros [= ->]. right. right. now apply Herr.
  - simpl in Hfirst, Hedges.
    assert (Hinv : build_inv (length (insn :: body)) st).
    { apply (build_inv_for_each (insn :: body) 0 build_start st u);
        [| exact Hbuild].
      unfold build_inv, build_start. simpl.
      split; [apply NoDup_singleton |]. split; [now left | constructor]. }
    destruct Hinv as (Hnd & _ & _).
    pose proof (prune_blocks_closed _ Hnd Hedges) as Hcl.
    apply holds_first_prune in Hfirst. destruct Hfirst as [[b0 Hb0] _].
    pose proof (trace_stack_no_KeyError limit 0 (Some 0)
                  (mkTrace ∅ ∅ (prune_blocks (bs_bbs st)) (insn :: body)))
      as Htrace.
    cbn [ts_bbs] in Htrace. specialize (Htrace Hcl).
    rewrite od_get_block_targets, Hb0 in Htrace.
    specialize (Htrace ltac:(discriminate)).
    pose proof (trace_stack_errors limit 0 (Some 0)
                  (mkTrace ∅ ∅ (prune_blocks (bs_bbs st)) (insn :: body)))
      as Hkinds.
    destruct (trace_stack limit 0 (Some 0) _) as [[e0 | u'] ts].
    + simpl in *. intros [= ->]. left.
      destruct (Hkinds e eq_refl) as [-> | ->]; [now destruct Htrace | reflexivity].
    + destruct (validate_stack (fn_name f) (ts_body ts)) as [e0 | u''] eqn:Hv;
        [| discriminate].
      simpl. intros [= ->]. right. left.
      now apply validate_stack_errors in Hv.
Qed.

(** X25.  A function whose body begins with the instruction at offset 0
    never fails with [KeyError] in [get_basic_blocks]: block 0 keeps
    that instruction, the first loop records every edge at both ends,
    the second loop removes a deleted block from the targets of all its
    predecessors, and so the stack propagation only visits blocks that
    are in the map. *)
Theorem get_basic_blocks_no_KeyError (limit : nat) (f : Function)
    (insn : Instruction) (body : list Instruction) :
  fn_body f = Some (insn :: body) ->
  insn_offset insn = 0 ->
  fst (get_basic_blocks limit f) <> Err PyKeyError.
Proof.
  intros Hbody Hoff H.
  destruct (fn__bbs f) eqn:Hbbs;
    try (unfold get_basic_blocks in H; rewrite Hbbs in H; discriminate H).
  destruct (get_basic_blocks_failures limit f insn body _ Hbbs Hbody Hoff H)
    as [E | [(o & k & i & s & E) | [E _]]]; congruence.
Qed.

Lemma get_basic_blocks_no_KeyError_witness :
  fst (get_basic_blocks recursion_limit
         (_load_functions_new "F0" None (Some body_jump_over) false None))
    <> Err PyKeyError.
Proof.
  apply (get_basic_blocks_no_KeyError recursion_limit _
           (decoded 0 Jump 5 [AInt 6] false)
           [decoded 5 Nop 1 [] true; decoded 6 Jump 5 [AInt 5] true]);
    reflexivity.
Defined.

(** ** From the bytes of a function to its block map *)

Lemma consumes_read_u08_value : consumes read_u08_value.
Proof.
  unfold read_u08_value.
  apply consumes_bind; [apply consumes_u32 | intros].
  apply consumes_bind; [apply consumes_u8 | intros]. apply consumes_ret.
Qed.




Lemma parse_bytecode_terminates_witness :
  _parse_bytecode [TPrimitive U32] false read_u08_value data_push_jump <> None.
Proof.
  exact (parse_bytecode_terminates [TPrimitive U32] false read_u08_value
           consumes_read_u08_value data_push_jump).
Defined.





Lemma unsupported_opcode_witness :
  (forall r, remaining r = [x1b; x00] ->
     decode_insn [TPrimitive U32] false read_u08_value r =
       (Err PyValueError, advance 1 r)) /\
  _parse_bytecode [TPrimitive U32] false read_u08_value [x1b; x00] =
    Some (inl (Raised PyValueError)).
Proof.
  apply (unsupported_opcode [TPrimitive U32] false read_u08_value x1b [x00]).
  reflexivity.
Defined.

Lemma read_variant_injective_witness : 0x60000003 = 0x60000003.
Proof.
  apply (read_variant_injective false 0x60000003 0x60000003). reflexivity.
Defined.
